(** * Gesture-Controlled-Rhythm-Game: the scoring engine and its session handler

    A shallow embedding of [src/sondream/stream/rhythm_game_logic.py], of
    the session handler of [src/sondream/stream/consumers.py] and of the
    gesture recogniser of [src/sondream/gesture/ges.py].

    Python [float]s are IEEE-754 binary64 numbers: they are modelled by Rocq's
    primitive [float], whose operations are the same binary64 operations with
    round-to-nearest-even.  Python [int]s are unbounded: they are modelled by
    [Z].  A field annotated [float] whose default is written as an integer
    literal ([416]) holds the same number as a binary64 value; mixed
    int/float arithmetic in Python converts the integer first, and mixed
    comparisons are exact, so nothing is lost on these values.

    The entry time and the miss distance of a note are not converted by
    anyone: the engine and the handler are given twice, first on notes
    whose two fields are floats, then (module [Dyn]) on notes whose two
    fields are whatever JSON decoding left there; the two agree on float
    fields.

    The file has three parts: the model, definition by definition as the
    source has them; the vocabulary of the properties (sessions, the blocks
    of [process_note_result] as functions, concrete inputs); the
    properties, which start with the facts about binary64 rounding they
    rest on, read from the specification of the primitive operations. *)

From Stdlib Require Import ZArith Bool List Lia String Floats.
Import ListNotations.

Set Warnings "-inexact-float".

Local Open Scope Z_scope.

(** ** Python values and exceptions *)

Inductive PyExn : Type :=
  | ZeroDivisionError
  | OverflowError
  | TypeError.

Inductive result (A : Type) : Type :=
  | Ok (a : A)
  | Raise (e : PyExn).
Arguments Ok {A} a.
Arguments Raise {A} e.

Definition is_ok {A} (r : result A) : bool :=
  match r with Ok _ => true | Raise _ => false end.

Module Py.

(** Comparisons of floats, written as Python writes them. *)
Definition eq (a b : float) : bool := PrimFloat.eqb a b.
Definition ne (a b : float) : bool := negb (PrimFloat.eqb a b).
Definition lt (a b : float) : bool := PrimFloat.ltb a b.
Definition le (a b : float) : bool := PrimFloat.leb a b.
Definition gt (a b : float) : bool := PrimFloat.ltb b a.
Definition ge (a b : float) : bool := PrimFloat.leb b a.

(** [min(a, b)]: the first argument unless the second is strictly smaller. *)
Definition min (a b : float) : float := if lt b a then b else a.

(** [a / b] on floats raises [ZeroDivisionError] when [b] is [0.0] or [-0.0]. *)
Definition div (a b : float) : result float :=
  if eq b 0%float then Raise ZeroDivisionError else Ok (a / b)%float.

(** [float(n)] for an [int]: correctly rounded (ties to even),
    [OverflowError] when the rounded value does not fit. *)
Definition float_of_int (n : Z) : result float :=
  match binary_normalize prec emax n 0 false with
  | S754_infinity _ => Raise OverflowError
  | sf => Ok (SF2Prim sf)
  end.

End Py.

(** ** 1. Enums *)

Inductive Judgement : Type := PERFECT | GREAT | GOOD | BAD | MISS.

Inductive NoteType : Type := TAP | HOLD.

Definition Judgement_name (j : Judgement) : string :=
  match j with
  | PERFECT => "PERFECT"
  | GREAT => "GREAT"
  | GOOD => "GOOD"
  | BAD => "BAD"
  | MISS => "MISS"
  end.

(** [judgement in (Judgement.BAD, Judgement.MISS)] *)
Definition in_BAD_MISS (j : Judgement) : bool :=
  match j with BAD | MISS => true | _ => false end.

(** ** 2. Config classes *)

Record TimingConfig : Type := {
  window_perfect : float;
  excess_max : float;
  cut_great : float
}.

Record ComboConfig : Type := {
  growth_a : float;
  growth_p : float;
  bonus_cap_multiplier : float
}.

Record FeverConfig : Type := {
  fill_perfect : Z;
  fill_great : Z;
  fill_good : Z;
  fill_bad : Z;
  fill_miss : Z;
  gauge_max : Z;
  fever_duration_notes : Z;
  score_multiplier : float
}.

Record SpatialConfig : Type := {
  target_radius : float
}.

Definition TimingConfig_default : TimingConfig :=
  {| window_perfect := 416; excess_max := 416; cut_great := 50.0 |}.

Definition ComboConfig_default : ComboConfig :=
  {| growth_a := 0.01; growth_p := 1.2; bonus_cap_multiplier := 2.0 |}.

Definition FeverConfig_default : FeverConfig :=
  {| fill_perfect := 10; fill_great := 5; fill_good := 2; fill_bad := 0;
     fill_miss := 0; gauge_max := 100; fever_duration_notes := 10;
     score_multiplier := 2.0 |}.

Definition SpatialConfig_default : SpatialConfig :=
  {| target_radius := 100.0 |}.

(** ** 3. Data structures *)

Record NoteEvent : Type := {
  note_type : NoteType;
  target_start : float;
  target_x : float;
  target_y : float;
  actual_entry : float;
  min_dist : float;
  target_end : float;
  actual_exit : float
}.

Record PlayState : Type := {
  total_score : float;
  max_possible_score : float;
  current_combo : Z;
  max_combo : Z;
  fever_gauge : Z;
  fever_active_notes : Z
}.

(** [PlayState()] *)
Definition PlayState_new : PlayState :=
  {| total_score := 0.0; max_possible_score := 0.0; current_combo := 0;
     max_combo := 0; fever_gauge := 0; fever_active_notes := 0 |}.

Definition is_fever_active (s : PlayState) : bool := 0 <? fever_active_notes s.

(** ** 4. Helper functions *)

Definition calc_excess (diff_ms window : float) : float :=
  let abs_diff := PrimFloat.abs diff_ms in
  if Py.gt abs_diff window then (abs_diff - window)%float else 0.0%float.

Definition get_excess_ratio (excess_ms max_excess : float) : result float :=
  match Py.div excess_ms max_excess with
  | Ok q => Ok (Py.min q 1.0%float)
  | Raise e => Raise e
  end.

(** ** 5. Scoring logic *)

Definition calculate_base_score (note : NoteEvent) (t_cfg : TimingConfig)
    (s_cfg : SpatialConfig) : result (float * Judgement) :=
  if Py.eq (actual_entry note) (-1)%float then Ok (0.0%float, MISS)
  else if Py.gt (min_dist note) (target_radius s_cfg) then Ok (0.0%float, BAD)
  else
    let diff := (actual_entry note - target_start note)%float in
    let abs_diff := PrimFloat.abs diff in
    let W := window_perfect t_cfg in
    if Py.le abs_diff W then Ok (100.0%float, PERFECT)
    else
      let excess := (abs_diff - W)%float in
      match get_excess_ratio excess (excess_max t_cfg) with
      | Raise e => Raise e
      | Ok penalty_ratio =>
        if Py.ge penalty_ratio 1.0%float then Ok (0.0%float, BAD)
        else
          let score := (100.0 * (1.0 - penalty_ratio))%float in
          if Py.le score 0.0%float then Ok (0.0%float, BAD)
          else if Py.ge score (cut_great t_cfg) then Ok (score, GREAT)
          else Ok (score, GOOD)
      end.

(** *** [int ** float]

    [state.current_combo ** c_cfg.growth_p] converts the integer to a float
    and calls the float power.  CPython's float power answers two cases
    before it reaches the C library: [v ** 0.0] is [1.0] for every [v], and
    [1.0 ** w] is [1.0] for every [w].  Every other case is left to
    [libm_pow], the platform's power function together with CPython's error
    mapping; a complex result (negative base, fractional exponent) makes the
    next [min] raise [TypeError] before the state is touched again, so it is
    an error here too. *)

Section Engine.

Variable libm_pow : float -> float -> result float.

Definition float_pow (v w : float) : result float :=
  if Py.eq w 0%float then Ok 1.0%float
  else if Py.eq v 1.0%float then Ok 1.0%float
  else libm_pow v w.

Definition int_pow_float (n : Z) (w : float) : result float :=
  match Py.float_of_int n with
  | Ok v => float_pow v w
  | Raise e => Raise e
  end.

(** *** The result dictionary

    [round(x, 1)] and the [.1f] format are kept symbolic: [Round1 x] stands
    for the float Python's [round(x, 1)] returns. *)

Inductive Rounded : Type := Round1 (x : float).

Inductive DebugIn : Type :=
  | Fmt1f (diff : float)
  | DebugMISS.

Record NoteResult : Type := {
  r_judgement : string;
  r_base_score : Rounded;
  r_final_score : Rounded;
  r_combo : Z;
  r_fever_active : bool;
  r_fever_gauge : Z;
  r_fever_max : Z;
  r_fever_active_notes : Z;
  r_fever_duration : Z;
  r_total_score : Rounded;
  r_rank : string;
  r_debug_in : DebugIn
}.

(** *** In-place mutation of the [PlayState] object

    [process_note_result] mutates the state it is handed and may raise half
    way: a computation takes the state and returns the state as it is left,
    with a value or the exception. *)

Definition M (A : Type) : Type := PlayState -> PlayState * result A.

Definition ret {A} (a : A) : M A := fun s => (s, Ok a).

Definition bind {A B} (m : M A) (k : A -> M B) : M B :=
  fun s =>
    match m s with
    | (s', Ok a) => k a s'
    | (s', Raise e) => (s', Raise e)
    end.

Definition lift {A} (r : result A) : M A := fun s => (s, r).

Definition get : M PlayState := fun s => (s, Ok s).

Definition modify (f : PlayState -> PlayState) : M unit := fun s => (f s, Ok tt).

Notation "x <- m ;; k" := (bind m (fun x => k))
  (at level 61, m at next level, right associativity).
Notation "m ;;; k" := (bind m (fun _ => k))
  (at level 61, right associativity).

Definition set_total_score (v : float) (s : PlayState) : PlayState :=
  {| total_score := v; max_possible_score := max_possible_score s;
     current_combo := current_combo s; max_combo := max_combo s;
     fever_gauge := fever_gauge s; fever_active_notes := fever_active_notes s |}.

Definition set_max_possible_score (v : float) (s : PlayState) : PlayState :=
  {| total_score := total_score s; max_possible_score := v;
     current_combo := current_combo s; max_combo := max_combo s;
     fever_gauge := fever_gauge s; fever_active_notes := fever_active_notes s |}.

Definition set_current_combo (v : Z) (s : PlayState) : PlayState :=
  {| total_score := total_score s; max_possible_score := max_possible_score s;
     current_combo := v; max_combo := max_combo s;
     fever_gauge := fever_gauge s; fever_active_notes := fever_active_notes s |}.

Definition set_max_combo (v : Z) (s : PlayState) : PlayState :=
  {| total_score := total_score s; max_possible_score := max_possible_score s;
     current_combo := current_combo s; max_combo := v;
     fever_gauge := fever_gauge s; fever_active_notes := fever_active_notes s |}.

Definition set_fever_gauge (v : Z) (s : PlayState) : PlayState :=
  {| total_score := total_score s; max_possible_score := max_possible_score s;
     current_combo := current_combo s; max_combo := max_combo s;
     fever_gauge := v; fever_active_notes := fever_active_notes s |}.

Definition set_fever_active_notes (v : Z) (s : PlayState) : PlayState :=
  {| total_score := total_score s; max_possible_score := max_possible_score s;
     current_combo := current_combo s; max_combo := max_combo s;
     fever_gauge := fever_gauge s; fever_active_notes := v |}.

(** The dictionary lookup of the fill amount. *)
Definition fill_amt (f_cfg : FeverConfig) (j : Judgement) : Z :=
  match j with
  | PERFECT => fill_perfect f_cfg
  | GREAT => fill_great f_cfg
  | GOOD => fill_good f_cfg
  | BAD => fill_bad f_cfg
  | MISS => fill_miss f_cfg
  end.

(** Lines 190-195: the rank shown with every note. *)
Definition live_rank (total max_possible : float) : string :=
  let rank_ratio :=
    if Py.gt max_possible 0%float then (total / max_possible)%float
    else 0.0%float in
  if Py.ge rank_ratio 0.90%float then "S"
  else if Py.ge rank_ratio 0.80%float then "A"
  else if Py.ge rank_ratio 0.70%float then "B"
  else if Py.ge rank_ratio 0.60%float then "C"
  else "F".

(** Lines 142-160: combo, bonus and the fever multiplier. *)
Definition score_note (base_score : float) (judgement : Judgement)
    (c_cfg : ComboConfig) (f_cfg : FeverConfig) : M float :=
  if in_BAD_MISS judgement then
    modify (set_current_combo 0) ;;;
    ret 0.0%float
  else
    modify (fun s => set_current_combo (current_combo s + 1) s) ;;;
    modify (fun s => set_max_combo (Z.max (max_combo s) (current_combo s)) s) ;;;
    s <- get ;;
    p <- lift (int_pow_float (current_combo s) (growth_p c_cfg)) ;;
    let bonus_ratio := (growth_a c_cfg * p)%float in
    let bonus_score := (base_score * bonus_ratio)%float in
    let max_bonus := (base_score * bonus_cap_multiplier c_cfg)%float in
    let bonus_score := Py.min bonus_score max_bonus in
    let current_note_total := (base_score + bonus_score)%float in
    s <- get ;;
    if is_fever_active s then
      modify (fun s => set_fever_active_notes (fever_active_notes s - 1) s) ;;;
      ret (current_note_total * score_multiplier f_cfg)%float
    else ret current_note_total.

(** Lines 163-175: charging the fever gauge. *)
Definition charge_gauge (judgement : Judgement) (f_cfg : FeverConfig) : M unit :=
  s <- get ;;
  if negb (is_fever_active s) then
    modify (fun s => set_fever_gauge (fever_gauge s + fill_amt f_cfg judgement) s) ;;;
    s <- get ;;
    if gauge_max f_cfg <=? fever_gauge s then
      modify (set_fever_gauge 0) ;;;
      modify (set_fever_active_notes (fever_duration_notes f_cfg))
    else ret tt
  else ret tt.

(** Lines 179-188: the best score this note could have brought. *)
Definition possible_score (judgement : Judgement) (c_cfg : ComboConfig)
    (f_cfg : FeverConfig) : M float :=
  s <- get ;;
  let simulated_max_combo :=
    if in_BAD_MISS judgement then max_combo s + 1 else current_combo s in
  let max_base := 100.0%float in
  p <- lift (int_pow_float simulated_max_combo (growth_p c_cfg)) ;;
  let max_bonus_ratio := (growth_a c_cfg * p)%float in
  let max_bonus_val :=
    Py.min (max_base * max_bonus_ratio)%float
           (max_base * bonus_cap_multiplier c_cfg)%float in
  let mult := if is_fever_active s then score_multiplier f_cfg else 1.0%float in
  ret ((max_base + max_bonus_val) * mult)%float.

Definition process_note_result (note : NoteEvent) (t_cfg : TimingConfig)
    (s_cfg : SpatialConfig) (c_cfg : ComboConfig) (f_cfg : FeverConfig)
    : M NoteResult :=
  bj <- lift (calculate_base_score note t_cfg s_cfg) ;;
  let base_score := fst bj in
  let judgement := snd bj in
  final_score <- score_note base_score judgement c_cfg f_cfg ;;
  charge_gauge judgement f_cfg ;;;
  modify (fun s => set_total_score (total_score s + final_score)%float s) ;;;
  possible <- possible_score judgement c_cfg f_cfg ;;
  modify (fun s => set_max_possible_score (max_possible_score s + possible)%float s) ;;;
  s <- get ;;
  let rank := live_rank (total_score s) (max_possible_score s) in
  ret {| r_judgement := Judgement_name judgement;
         r_base_score := Round1 base_score;
         r_final_score := Round1 final_score;
         r_combo := current_combo s;
         r_fever_active := is_fever_active s;
         r_fever_gauge := fever_gauge s;
         r_fever_max := gauge_max f_cfg;
         r_fever_active_notes := fever_active_notes s;
         r_fever_duration := fever_duration_notes f_cfg;
         r_total_score := Round1 (total_score s);
         r_rank := rank;
         r_debug_in :=
           if Py.ne (actual_entry note) (-1)%float
           then Fmt1f (actual_entry note - target_start note)%float
           else DebugMISS |}.

(** ** The session handler ([consumers.py])

    One [RhythmGameConsumer] per connection.  Its attributes after [connect]
    are the session state, the schedule cursor and the current target time.
    [time.time()] is an input of the handler ([now], in seconds).  A decoded
    message is its [action] and the two optional numeric fields the handler
    reads. *)

Definition NOTE_INTERVALS : list float := [
  0.209; 1.858; 1.835; 1.835; 0.928; 1.254; 1.347; 1.324; 0.348; 0.464;
  1.022; 1.858; 1.347; 1.161; 1.022; 1.858; 2.508; 1.672; 3.46; 0.326;
  2.322; 4.389; 1.254; 1.649; 1.858; 1.347; 0.928; 2.415; 1.812; 1.857;
  1.022; 1.857; 1.254; 0.72; 1.277; 1.138; 1.858; 2.183; 1.138; 1.277;
  1.138; 1.857; 1.254; 0.72; 1.277; 3.692; 1.161; 1.602; 1.277; 2.554;
  1.138; 1.161; 1.649; 1.649; 1.625; 1.161; 1.138; 0.813; 0.882; 1.649
]%float.

Record Consumer : Type := {
  state : PlayState;
  note_index : nat;
  current_target_time : float
}.

Inductive Action : Type :=
  | game_start
  | gesture_complete
  | miss
  | other_action.

Record Data : Type := {
  action : Action;
  entry_time : option float;
  data_min_dist : option float
}.

Inductive Message : Type :=
  | msg_system
  | msg_game_start
  | msg_next_target (target : option float)
  | msg_result (data : NoteResult)
  | msg_game_over (total max_possible : Rounded) (rank : string).

(** [connect] *)
Definition connect : Consumer * list Message :=
  ({| state := PlayState_new; note_index := 0; current_target_time := 0.0 |},
   [msg_system]).

Definition get_next_note_time (now : float) (c : Consumer)
    : Consumer * option float :=
  if (note_index c <? List.length NOTE_INTERVALS)%nat then
    let interval := nth (note_index c) NOTE_INTERVALS 0%float in
    let t :=
      if (note_index c =? 0)%nat
      then (now * 1000 + interval * 1000)%float
      else (current_target_time c + interval * 1000)%float in
    ({| state := state c; note_index := note_index c;
        current_target_time := t |}, Some t)
  else (c, None).

Definition calculate_final_rank (c : Consumer) : string :=
  if Py.le (max_possible_score (state c)) 0%float then "F"
  else
    let ratio := (total_score (state c) / max_possible_score (state c))%float in
    if Py.ge ratio 0.90%float then "S"
    else if Py.ge ratio 0.80%float then "A"
    else if Py.ge ratio 0.70%float then "B"
    else if Py.ge ratio 0.60%float then "C"
    else "F".

(** [if next_time:] — [None] and a zero float are false. *)
Definition truthy (t : option float) : bool :=
  match t with
  | Some x => Py.ne x 0%float
  | None => false
  end.

(** [data.get(key, default)] *)
Definition get_default (field : option float) (default : float) : float :=
  match field with Some x => x | None => default end.

(** The [NoteEvent] built for a [gesture_complete] or [miss] message. *)
Definition note_event_of (data : Data) (c : Consumer) : NoteEvent :=
  let actual_entry := get_default (entry_time data) (-1)%float in
  let min_dist := get_default (data_min_dist data) 9999%float in
  let actual_entry :=
    match action data with miss => (-1)%float | _ => actual_entry end in
  {| note_type := TAP; target_start := current_target_time c;
     target_x := 100; target_y := 100; actual_entry := actual_entry;
     min_dist := min_dist; target_end := 0.0; actual_exit := 0.0 |}.

(** [receive]: the exception handler around the body keeps whatever the
    body did to the consumer before it raised, and sends nothing more. *)
Definition receive (now : float) (data : Data) (c : Consumer)
    : Consumer * list Message :=
  match action data with
  | game_start =>
      let c1 := {| state := PlayState_new; note_index := 0;
                   current_target_time := current_target_time c |} in
      let '(c2, next_time) := get_next_note_time now c1 in
      (c2, [msg_game_start; msg_next_target next_time])
  | other_action => (c, [])
  | gesture_complete | miss =>
      let note_event := note_event_of data c in
      match process_note_result note_event TimingConfig_default
              SpatialConfig_default ComboConfig_default FeverConfig_default
              (state c) with
      | (st, Raise _) =>
          ({| state := st; note_index := note_index c;
              current_target_time := current_target_time c |}, [])
      | (st, Ok result) =>
          let c1 := {| state := st; note_index := S (note_index c);
                       current_target_time := current_target_time c |} in
          let '(c2, next_time) := get_next_note_time now c1 in
          if truthy next_time then
            (c2, [msg_result result; msg_next_target next_time])
          else
            (c2, [msg_result result;
                  msg_game_over (Round1 (total_score (state c2)))
                                (Round1 (max_possible_score (state c2)))
                                (calculate_final_rank c2)])
      end
  end.

(** A connection's life: the messages of [events] handled in order, each
    at its own clock reading; the messages sent are collected in order. *)
Fixpoint handle_all (events : list (float * Data)) (c : Consumer)
    : Consumer * list Message :=
  match events with
  | [] => (c, [])
  | (now, data) :: rest =>
      let '(c1, out1) := receive now data c in
      let '(c2, out2) := handle_all rest c1 in
      (c2, out1 ++ out2)
  end.

End Engine.

(** ** The engine on the values the handler passes

    The numeric fields of a [NoteEvent] are annotated [float], but nothing
    converts them: the handler stores [data.get('entry_time', -1)] and
    [data.get('min_dist', 9999)] as they were decoded from JSON, so
    [actual_entry] and [min_dist] may hold a Python [int] (a JSON integer,
    the defaults; a JSON boolean behaves as the integer 1 or 0), a [float],
    or a value that is no number (a string, [None], a list, an object).
    [target_start] is the handler's target time, a [float].

    With an [int], [==] and [>] compare exactly, and [-] converts the [int]
    to a float first, which raises [OverflowError] when it is too large.
    With a value that is no number, [== -1] is false and [>] and [-] raise
    [TypeError].  On notes whose two fields are floats the functions of this
    module are those above. *)

Module Dyn.

Inductive Num : Type :=
  | PyInt (n : Z)
  | PyFloat (f : float)
  | PyOther.

Record NoteEvent : Type := {
  note_type : NoteType;
  target_start : float;
  target_x : float;
  target_y : float;
  actual_entry : Num;
  min_dist : Num;
  target_end : float;
  actual_exit : float
}.

(** [v == -1] *)
Definition eq_minus_1 (v : Num) : bool :=
  match v with
  | PyInt n => n =? -1
  | PyFloat f => Py.eq f (-1)%float
  | PyOther => false
  end.

(** [n > r] for an [int] and a float: the two numbers are compared
    exactly. *)
Definition int_gt_float (n : Z) (r : float) : bool :=
  match Prim2SF r with
  | S754_nan => false
  | S754_infinity s => s
  | S754_zero _ => 0 <? n
  | S754_finite s m e =>
      let v := if s then Zneg m else Zpos m in
      if 0 <=? e then v * 2 ^ e <? n else v <? n * 2 ^ (- e)
  end.

(** [v > r] *)
Definition gt (v : Num) (r : float) : result bool :=
  match v with
  | PyInt n => Ok (int_gt_float n r)
  | PyFloat f => Ok (Py.gt f r)
  | PyOther => Raise TypeError
  end.

(** [v - t] *)
Definition sub (v : Num) (t : float) : result float :=
  match v with
  | PyInt n =>
      match Py.float_of_int n with
      | Ok f => Ok (f - t)%float
      | Raise e => Raise e
      end
  | PyFloat f => Ok (f - t)%float
  | PyOther => Raise TypeError
  end.

Definition calculate_base_score (note : NoteEvent) (t_cfg : TimingConfig)
    (s_cfg : SpatialConfig) : result (float * Judgement) :=
  if eq_minus_1 (actual_entry note) then Ok (0.0%float, MISS)
  else
    match gt (min_dist note) (target_radius s_cfg) with
    | Raise e => Raise e
    | Ok true => Ok (0.0%float, BAD)
    | Ok false =>
      match sub (actual_entry note) (target_start note) with
      | Raise e => Raise e
      | Ok diff =>
        let abs_diff := PrimFloat.abs diff in
        let W := window_perfect t_cfg in
        if Py.le abs_diff W then Ok (100.0%float, PERFECT)
        else
          let excess := (abs_diff - W)%float in
          match get_excess_ratio excess (excess_max t_cfg) with
          | Raise e => Raise e
          | Ok penalty_ratio =>
            if Py.ge penalty_ratio 1.0%float then Ok (0.0%float, BAD)
            else
              let score := (100.0 * (1.0 - penalty_ratio))%float in
              if Py.le score 0.0%float then Ok (0.0%float, BAD)
              else if Py.ge score (cut_great t_cfg) then Ok (score, GREAT)
              else Ok (score, GOOD)
          end
      end
    end.

(** The [debug_in] entry of the result dictionary (line 209), the last one
    to be evaluated. *)
Definition debug_in (note : NoteEvent) : result DebugIn :=
  if negb (eq_minus_1 (actual_entry note)) then
    match sub (actual_entry note) (target_start note) with
    | Ok diff => Ok (Fmt1f diff)
    | Raise e => Raise e
    end
  else Ok DebugMISS.

#[local] Notation "x <- m ;; k" := (bind m (fun x => k))
  (at level 61, m at next level, right associativity).
#[local] Notation "m ;;; k" := (bind m (fun _ => k))
  (at level 61, right associativity).

Definition process_note_result (libm_pow : float -> float -> result float)
    (note : NoteEvent) (t_cfg : TimingConfig) (s_cfg : SpatialConfig)
    (c_cfg : ComboConfig) (f_cfg : FeverConfig) : M NoteResult :=
  bj <- lift (calculate_base_score note t_cfg s_cfg) ;;
  let base_score := fst bj in
  let judgement := snd bj in
  final_score <- score_note libm_pow base_score judgement c_cfg f_cfg ;;
  charge_gauge judgement f_cfg ;;;
  modify (fun s => set_total_score (total_score s + final_score)%float s) ;;;
  possible <- possible_score libm_pow judgement c_cfg f_cfg ;;
  modify (fun s => set_max_possible_score (max_possible_score s + possible)%float s) ;;;
  s <- get ;;
  let rank := live_rank (total_score s) (max_possible_score s) in
  debug <- lift (debug_in note) ;;
  ret {| r_judgement := Judgement_name judgement;
         r_base_score := Round1 base_score;
         r_final_score := Round1 final_score;
         r_combo := current_combo s;
         r_fever_active := is_fever_active s;
         r_fever_gauge := fever_gauge s;
         r_fever_max := gauge_max f_cfg;
         r_fever_active_notes := fever_active_notes s;
         r_fever_duration := fever_duration_notes f_cfg;
         r_total_score := Round1 (total_score s);
         r_rank := rank;
         r_debug_in := debug |}.

(** A decoded message: its [action] and the two fields as they were
    decoded. *)
Record Data : Type := {
  action : Action;
  entry_time : option Num;
  data_min_dist : option Num
}.

(** [data.get(key, default)] *)
Definition get_default (field : option Num) (default : Num) : Num :=
  match field with Some x => x | None => default end.

(** The [NoteEvent] built for a [gesture_complete] or [miss] message; the
    defaults [-1] and [9999] are [int]s. *)
Definition note_event_of (data : Data) (c : Consumer) : NoteEvent :=
  let actual_entry := get_default (entry_time data) (PyInt (-1)) in
  let min_dist := get_default (data_min_dist data) (PyInt 9999) in
  let actual_entry :=
    match action data with miss => PyInt (-1) | _ => actual_entry end in
  {| note_type := TAP; target_start := current_target_time c;
     target_x := 100; target_y := 100; actual_entry := actual_entry;
     min_dist := min_dist; target_end := 0.0; actual_exit := 0.0 |}.

(** [receive] *)
Definition receive (libm_pow : float -> float -> result float) (now : float)
    (data : Data) (c : Consumer) : Consumer * list Message :=
  match action data with
  | game_start =>
      let c1 := {| state := PlayState_new; note_index := 0;
                   current_target_time := current_target_time c |} in
      let '(c2, next_time) := get_next_note_time now c1 in
      (c2, [msg_game_start; msg_next_target next_time])
  | other_action => (c, [])
  | gesture_complete | miss =>
      let note_event := note_event_of data c in
      match process_note_result libm_pow note_event TimingConfig_default
              SpatialConfig_default ComboConfig_default FeverConfig_default
              (state c) with
      | (st, Raise _) =>
          ({| state := st; note_index := note_index c;
              current_target_time := current_target_time c |}, [])
      | (st, Ok result) =>
          let c1 := {| state := st; note_index := S (note_index c);
                       current_target_time := current_target_time c |} in
          let '(c2, next_time) := get_next_note_time now c1 in
          if truthy next_time then
            (c2, [msg_result result; msg_next_target next_time])
          else
            (c2, [msg_result result;
                  msg_game_over (Round1 (total_score (state c2)))
                                (Round1 (max_possible_score (state c2)))
                                (calculate_final_rank c2)])
      end
  end.

End Dyn.

(** ** Hand gestures ([gesture/ges.py])

    The recogniser works on what MediaPipe reports for a frame: the hand
    landmarks, each with its normalised image coordinates, and the
    handedness label.  The finger states are the dictionary with the five
    keys [thumb], [index], [middle], [ring] and [pinky].  The exceptions of
    this part are [IndexError] (a landmark that is not there), [ValueError]
    ([min] or [max] of an empty sequence, [int] of a NaN) and [OverflowError]
    ([int] of an infinity, an [int] too large for a float). *)

Module Ges.

Inductive PyError : Type := IndexError | ValueError | OverflowError.

Inductive outcome (A : Type) : Type :=
  | Returns (a : A)
  | Raises (e : PyError).
Arguments Returns {A} a.
Arguments Raises {A} e.

Definition and_then {A B} (m : outcome A) (k : A -> outcome B) : outcome B :=
  match m with
  | Returns a => k a
  | Raises e => Raises e
  end.

#[local] Notation "x <- m ;; k" := (and_then m (fun x => k))
  (at level 61, m at next level, right associativity).

Definition GESTURES : list string :=
  ["OPEN_PALM"; "FIST"; "THUMBS_UP"; "PEACE"; "POINT"]%string.

Record Landmark : Type := { x : float; y : float }.

(** [lm[i]] *)
Definition item (lm : list Landmark) (i : nat) : outcome Landmark :=
  match nth_error lm i with
  | Some p => Returns p
  | None => Raises IndexError
  end.

Record FingerStates : Type := {
  thumb : bool;
  index : bool;
  middle : bool;
  ring : bool;
  pinky : bool
}.

Definition _finger_up_states (lm : list Landmark) (handedness_label : string)
    : outcome FingerStates :=
  let TH_TIP := 4%nat in
  let TH_IP := 3%nat in
  let TH_MCP := 2%nat in
  let IN_TIP := 8%nat in
  let IN_PIP := 6%nat in
  let MI_TIP := 12%nat in
  let MI_PIP := 10%nat in
  let RI_TIP := 16%nat in
  let RI_PIP := 14%nat in
  let PI_TIP := 20%nat in
  let PI_PIP := 18%nat in
  in_tip <- item lm IN_TIP ;;
  in_pip <- item lm IN_PIP ;;
  let index_up := Py.lt (y in_tip) (y in_pip) in
  mi_tip <- item lm MI_TIP ;;
  mi_pip <- item lm MI_PIP ;;
  let middle_up := Py.lt (y mi_tip) (y mi_pip) in
  ri_tip <- item lm RI_TIP ;;
  ri_pip <- item lm RI_PIP ;;
  let ring_up := Py.lt (y ri_tip) (y ri_pip) in
  pi_tip <- item lm PI_TIP ;;
  pi_pip <- item lm PI_PIP ;;
  let pinky_up := Py.lt (y pi_tip) (y pi_pip) in
  th_tip <- item lm TH_TIP ;;
  th_ip <- item lm TH_IP ;;
  let thumb_vertical_up := Py.lt (y th_tip) (y th_ip) in
  th_tip <- item lm TH_TIP ;;
  th_mcp <- item lm TH_MCP ;;
  let thumb_open :=
    if String.eqb handedness_label "Right"
    then Py.lt (x th_tip) (x th_mcp)
    else Py.gt (x th_tip) (x th_mcp) in
  let thumb_up := thumb_vertical_up || thumb_open in
  Returns {| thumb := thumb_up; index := index_up; middle := middle_up;
             ring := ring_up; pinky := pinky_up |}.

(** [sum] of a list of [bool]s: [True] counts 1. *)
Definition sum (bs : list bool) : Z :=
  fold_left (fun acc (b : bool) => acc + Z.b2z b) bs 0.

Definition classify_gesture (states : FingerStates) : string :=
  let t := thumb states in
  let i := index states in
  let m := middle states in
  let r := ring states in
  let p := pinky states in
  let up_count := sum [t; i; m; r; p] in
  if up_count =? 0 then "FIST"
  else if up_count =? 5 then "OPEN_PALM"
  else if t && negb (i || m || r || p) then "THUMBS_UP"
  else if i && m && negb (t || r || p) then "PEACE"
  else if i && negb (t || m || r || p) then "POINT"
  else "UNKNOWN".

(** A [dict] from labels to counts: its items in insertion order. *)
Definition Freq : Type := list (string * Z).

(** [freq.get(k, default)] *)
Fixpoint dict_get (freq : Freq) (k : string) (default : Z) : Z :=
  match freq with
  | [] => default
  | (k', v) :: rest => if String.eqb k' k then v else dict_get rest k default
  end.

(** [freq[k] = v]: a key that is there keeps its place, a new key goes
    last. *)
Fixpoint dict_set (freq : Freq) (k : string) (v : Z) : Freq :=
  match freq with
  | [] => [(k, v)]
  | (k', v') :: rest =>
      if String.eqb k' k then (k', v) :: rest
      else (k', v') :: dict_set rest k v
  end.

(** [max(items, key=lambda kv: kv[1])]: the first item is kept until an item
    with a strictly greater key comes. *)
Definition max_by_count (items : list (string * Z)) : outcome (string * Z) :=
  match items with
  | [] => Raises ValueError
  | first :: rest =>
      Returns (fold_left (fun best kv => if snd best <? snd kv then kv else best)
                 rest first)
  end.

Definition stable_label (label_queue : list string) : outcome string :=
  match label_queue with
  | [] => Returns "UNKNOWN"%string
  | _ =>
      let freq :=
        fold_left (fun freq x => dict_set freq x (dict_get freq x 0 + 1))
          label_queue [] in
      kv <- max_by_count freq ;;
      Returns (fst kv)
  end.

(** [min(xs)] and [max(xs)] on floats: the first element is kept until a
    strictly smaller (greater) one comes. *)
Definition py_min (xs : list float) : outcome float :=
  match xs with
  | [] => Raises ValueError
  | first :: rest =>
      Returns (fold_left (fun m v => if Py.lt v m then v else m) rest first)
  end.

Definition py_max (xs : list float) : outcome float :=
  match xs with
  | [] => Raises ValueError
  | first :: rest =>
      Returns (fold_left (fun m v => if Py.gt v m then v else m) rest first)
  end.

(** [v * n] for a float and an [int]: the [int] is converted first. *)
Definition mul_int (v : float) (n : Z) : outcome float :=
  match Py.float_of_int n with
  | Ok f => Returns (v * f)%float
  | Raise _ => Raises OverflowError
  end.

(** [int(v)]: truncation towards zero. *)
Definition int (v : float) : outcome Z :=
  match Prim2SF v with
  | S754_nan => Raises ValueError
  | S754_infinity _ => Raises OverflowError
  | S754_zero _ => Returns 0
  | S754_finite s m e =>
      let magnitude :=
        if 0 <=? e then Zpos m * 2 ^ e else Zpos m / 2 ^ (- e) in
      Returns (if s then - magnitude else magnitude)
  end.

Definition hand_bbox_px (hand_landmarks : list Landmark) (w h : Z)
    : outcome (Z * Z * Z * Z) :=
  let xs := map x hand_landmarks in
  let ys := map y hand_landmarks in
  x1 <- (v <- py_min xs ;; p <- mul_int v w ;; int p) ;;
  y1 <- (v <- py_min ys ;; p <- mul_int v h ;; int p) ;;
  x2 <- (v <- py_max xs ;; p <- mul_int v w ;; int p) ;;
  y2 <- (v <- py_max ys ;; p <- mul_int v h ;; int p) ;;
  let x1 := Z.max 0 (Z.min (w - 1) x1) in
  let y1 := Z.max 0 (Z.min (h - 1) y1) in
  let x2 := Z.max 0 (Z.min (w - 1) x2) in
  let y2 := Z.max 0 (Z.min (h - 1) y2) in
  Returns (x1, y1, x2 - x1, y2 - y1).

(** The line [log_gesture] prints: the time stamp [ts] is the clock reading
    already formatted. *)
Record LogLine : Type := {
  log_ts : string;
  log_gesture_name : string;
  log_hand : string;
  log_bbox : Z * Z * Z * Z;
  log_center : Z * Z
}.

Definition log_gesture (ts gesture handedness : string) (bbox : Z * Z * Z * Z)
    : LogLine :=
  let '(x, y, bw, bh) := bbox in
  let cx := x + bw / 2 in
  let cy := y + bh / 2 in
  {| log_ts := ts; log_gesture_name := gesture; log_hand := handedness;
     log_bbox := (x, y, bw, bh); log_center := (cx, cy) |}.

(** *** The capture loop of [main]

    What the loop keeps from one frame to the next: the labels of the recent
    frames ([deque(maxlen=10)]) and the last gesture logged.  A frame is
    what the loop reads of it: its size, what the hand detector found, and
    the clock reading used if a line is logged. *)

Record Loop : Type := {
  recent : list string;
  last_logged : option string
}.

Definition Loop_new : Loop := {| recent := []; last_logged := None |}.

(** [recent.append(v)] on a [deque(maxlen=10)]: when full, the oldest label
    is dropped. *)
Definition append (q : list string) (v : string) : list string :=
  if (List.length q <? 10)%nat then q ++ [v] else tl q ++ [v].

Inductive Hands : Type :=
  | no_hand
  | hand_found (hand_landmarks : list Landmark) (handedness : string).

Record Frame : Type := {
  frame_w : Z;
  frame_h : Z;
  detected : Hands;
  clock : string
}.

(** [gesture in GESTURES] *)
Definition in_GESTURES (gesture : string) : bool :=
  existsb (String.eqb gesture) GESTURES.

(** [gesture != last_logged] *)
Definition differs (gesture : string) (last : option string) : bool :=
  match last with
  | Some g => negb (String.eqb gesture g)
  | None => true
  end.

(** One turn of the loop on a frame that was read. *)
Definition frame_step (fr : Frame) (s : Loop) : outcome (Loop * list LogLine) :=
  match detected fr with
  | hand_found hand_landmarks handedness =>
      states <- _finger_up_states hand_landmarks handedness ;;
      let raw_gesture := classify_gesture states in
      let recent := append (recent s) raw_gesture in
      gesture <- stable_label recent ;;
      bbox <- hand_bbox_px hand_landmarks (frame_w fr) (frame_h fr) ;;
      if in_GESTURES gesture && differs gesture (last_logged s) then
        Returns ({| recent := recent; last_logged := Some gesture |},
                 [log_gesture (clock fr) gesture handedness bbox])
      else
        Returns ({| recent := recent; last_logged := last_logged s |}, [])
  | no_hand => Returns (Loop_new, [])
  end.

(** The loop over the frames read before it is left; an exception ends
    the program. *)
Fixpoint main_loop (frames : list Frame) (s : Loop)
    : outcome (Loop * list LogLine) :=
  match frames with
  | [] => Returns (s, [])
  | fr :: rest =>
      r1 <- frame_step fr s ;;
      r2 <- main_loop rest (fst r1) ;;
      Returns (fst r2, snd r1 ++ snd r2)
  end.

End Ges.

(** * Vocabulary of the properties

    Sessions, the blocks of [process_note_result] as functions of the state,
    the spec's own functions, and the concrete configurations, notes, states
    and messages the properties are evaluated on. *)

(** ** Sessions *)

(** Sessions: the states a [PlayState()] can reach by processing notes
    with the default fever configuration (whatever the other configurations,
    and whether or not a note raises half way). *)
Inductive reachable (pow : float -> float -> result float) : PlayState -> Prop :=
  | reachable_new : reachable pow PlayState_new
  | reachable_step st note t_cfg s_cfg c_cfg :
      reachable pow st ->
      reachable pow
        (fst (process_note_result pow note t_cfg s_cfg c_cfg
                FeverConfig_default st)).

(** A session: the states reached from [PlayState()] by processing notes
    with one combo and one fever configuration. *)
Inductive in_session (pow : float -> float -> result float)
    (c_cfg : ComboConfig) (f_cfg : FeverConfig) : PlayState -> Prop :=
  | session_new : in_session pow c_cfg f_cfg PlayState_new
  | session_step st note t_cfg s_cfg :
      in_session pow c_cfg f_cfg st ->
      in_session pow c_cfg f_cfg
        (fst (process_note_result pow note t_cfg s_cfg c_cfg f_cfg st)).

(** Notes played in order on one state, with the default timing, spatial
    and fever configurations. *)
Fixpoint play (pow : float -> float -> result float) (c_cfg : ComboConfig)
    (notes : list NoteEvent) (st : PlayState) : PlayState :=
  match notes with
  | [] => st
  | note :: rest =>
      play pow c_cfg rest
        (fst (process_note_result pow note TimingConfig_default
                SpatialConfig_default c_cfg FeverConfig_default st))
  end.

(** ** The blocks of [process_note_result], as functions of the state *)

Definition bonus_total (c_cfg : ComboConfig) (base_score p : float) : float :=
  (base_score +
   Py.min (base_score * (growth_a c_cfg * p))
          (base_score * bonus_cap_multiplier c_cfg))%float.

Definition combo_up (st : PlayState) : PlayState :=
  set_max_combo (Z.max (max_combo st) (current_combo st + 1))
    (set_current_combo (current_combo st + 1) st).

Definition charged (f_cfg : FeverConfig) (j : Judgement) (st : PlayState)
    : PlayState :=
  if 0 <? fever_active_notes st then st
  else
    let g := fever_gauge st + fill_amt f_cfg j in
    if gauge_max f_cfg <=? g
    then set_fever_active_notes (fever_duration_notes f_cfg)
           (set_fever_gauge 0 (set_fever_gauge g st))
    else set_fever_gauge g st.

Definition sim_combo (j : Judgement) (st : PlayState) : Z :=
  if in_BAD_MISS j then max_combo st + 1 else current_combo st.

Definition possible_of (c_cfg : ComboConfig) (f_cfg : FeverConfig)
    (st : PlayState) (p : float) : float :=
  ((100.0 + Py.min (100.0 * (growth_a c_cfg * p))
                   (100.0 * bonus_cap_multiplier c_cfg))
   * (if (0 <? fever_active_notes st)%Z then score_multiplier f_cfg else 1.0))%float.

(** The record built from the final state. *)
Definition record_of (note : NoteEvent) (f_cfg : FeverConfig) (b final : float)
    (j : Judgement) (s : PlayState) : NoteResult :=
  {| r_judgement := Judgement_name j;
     r_base_score := Round1 b;
     r_final_score := Round1 final;
     r_combo := current_combo s;
     r_fever_active := 0 <? fever_active_notes s;
     r_fever_gauge := fever_gauge s;
     r_fever_max := gauge_max f_cfg;
     r_fever_active_notes := fever_active_notes s;
     r_fever_duration := fever_duration_notes f_cfg;
     r_total_score := Round1 (total_score s);
     r_rank := live_rank (total_score s) (max_possible_score s);
     r_debug_in :=
       if Py.ne (actual_entry note) (-1)%float
       then Fmt1f (actual_entry note - target_start note)%float
       else DebugMISS |}.

(** The fever fields after a note, as a function of the judgement and of
    whether the combo bonus could be computed. *)
Definition fever_after (f_cfg : FeverConfig) (j : Judgement) (bonus_ok : bool)
    (st : PlayState) : Z * Z :=
  let g := fever_gauge st in
  let a := fever_active_notes st in
  if negb (in_BAD_MISS j) && negb bonus_ok then (g, a)
  else
    let a1 := if negb (in_BAD_MISS j) && (0 <? a) then a - 1 else a in
    if 0 <? a1 then (g, a1)
    else if gauge_max f_cfg <=? g + fill_amt f_cfg j
         then (0, fever_duration_notes f_cfg)
         else (g + fill_amt f_cfg j, a1).

(** ** Invariants *)

(** The fever invariant of a session run with the default configuration. *)
Definition fever_inv (st : PlayState) : Prop :=
  0 <= fever_gauge st < gauge_max FeverConfig_default /\
  0 <= fever_active_notes st <= fever_duration_notes FeverConfig_default /\
  (0 < fever_active_notes st -> fever_gauge st = 0).

Definition ledger_inv (st : PlayState) : Prop :=
  0 <= current_combo st /\ 0 <= max_combo st /\
  PrimFloat.leb 0 (max_possible_score st) = true.

(** ** The spec's ComboBonusEngine and rank thresholds *)

(** The combo bonus of the spec's ComboBonusEngine: [combo_pow] is
    [combo ** growth_p]. *)
Definition applyBonus (c_cfg : ComboConfig) (baseScore combo_pow : float)
    : float :=
  let bonusRatio := (growth_a c_cfg * combo_pow)%float in
  Py.min (baseScore * bonusRatio)%float
         (baseScore * bonus_cap_multiplier c_cfg)%float.

(** The threshold function of the ledger. *)
Definition thresholds (ratio : float) : string :=
  if Py.ge ratio 0.90%float then "S"
  else if Py.ge ratio 0.80%float then "A"
  else if Py.ge ratio 0.70%float then "B"
  else if Py.ge ratio 0.60%float then "C"
  else "F".

(** ** Concrete configurations, notes, states and messages *)

(** A platform on which the C library's power is never available: used to
    run the engine on inputs that are answered before the C library is
    reached ([1 ** w]). *)
Definition libm_pow_overflow (v w : float) : result float := Raise OverflowError.

Definition process_default (pow : float -> float -> result float)
    (note : NoteEvent) : M NoteResult :=
  process_note_result pow note TimingConfig_default SpatialConfig_default
    ComboConfig_default FeverConfig_default.

Definition perfect_note : NoteEvent :=
  {| note_type := TAP; target_start := 1000; target_x := 100; target_y := 100;
     actual_entry := 1000; min_dist := 0; target_end := 0; actual_exit := 0 |}.

Definition miss_note : NoteEvent :=
  {| note_type := TAP; target_start := 1000; target_x := 100; target_y := 100;
     actual_entry := (-1); min_dist := 0; target_end := 0; actual_exit := 0 |}.


Definition slightly_late_note : NoteEvent :=
  {| note_type := TAP; target_start := 0; target_x := 100; target_y := 100;
     actual_entry := 1; min_dist := 0; target_end := 0; actual_exit := 0 |}.


Definition ramp_config : TimingConfig :=
  {| window_perfect := 0; excess_max := 1e20; cut_great := 50.0 |}.

(** A combo configuration whose bonus does not grow ([n ** 0.0] is 1.0). *)
Definition flat_growth : ComboConfig :=
  {| growth_a := 0.01; growth_p := 0.0; bonus_cap_multiplier := 2.0 |}.

Definition negative_growth : ComboConfig :=
  {| growth_a := (-2)%float; growth_p := 1.2; bonus_cap_multiplier := 2.0 |}.

(** A state in which one fever credit is left, with the combo and fever
    fields a session has after ten PERFECT notes (the window opens),
    nine more (nine credits consumed) and a MISS (the combo is reset). *)
Definition last_fever_state : PlayState :=
  {| total_score := 0.0; max_possible_score := 0.0; current_combo := 0;
     max_combo := 19; fever_gauge := 0; fever_active_notes := 1 |}.

(** A state whose gauge is one PERFECT note away from full. *)
Definition nearly_full_state : PlayState :=
  {| total_score := 0.0; max_possible_score := 0.0; current_combo := 0;
     max_combo := 9; fever_gauge := 90; fever_active_notes := 0 |}.

Definition with_totals (total max_possible : float) : Consumer :=
  {| state := set_max_possible_score max_possible
                (set_total_score total PlayState_new);
     note_index := 0; current_target_time := 0.0 |}.

Definition miss_data : Data :=
  {| action := miss; entry_time := None; data_min_dist := None |}.

Definition start_data : Data :=
  {| action := game_start; entry_time := None; data_min_dist := None |}.

(** A whole session in which every note is missed: the start signal, then
    sixty [miss] messages. *)
Definition missed_session : list (float * Data) :=
  (1700000000%float, start_data) :: repeat (1700000001%float, miss_data) 60.

(** The consumer at the end of [missed_session]. *)
Definition consumer_after_game_over : Consumer :=
  {| state :=
       {| total_score := 0.0; max_possible_score := 6060.0; current_combo := 0;
          max_combo := 0; fever_gauge := 0; fever_active_notes := 0 |};
     note_index := 60;
     current_target_time := 1700000090588 |}.

(** ** Vocabulary of the combo and schedule properties *)

(** The combo counters of a session: the running combo never exceeds the
    best combo. *)
Definition combo_inv (st : PlayState) : Prop :=
  0 <= current_combo st <= max_combo st.

(** A note whose entry time is not a number, on target. *)
Definition nan_note : NoteEvent :=
  {| note_type := TAP; target_start := 1000; target_x := 100; target_y := 100;
     actual_entry := nan; min_dist := 0; target_end := 0; actual_exit := 0 |}.

(** ** Vocabulary of the gesture properties *)

(** The labels of a queue in the order of their first occurrence. *)
Definition first_seen (q : list string) : list string :=
  fold_left (fun ks k => if in_dec string_dec k ks then ks else ks ++ [k]) q [].

(** The count of a label of a queue, as a dictionary item. *)
Definition tally_item (q : list string) (k : string) : string * Z :=
  (k, Z.of_nat (count_occ string_dec q k)).

(** Logged gestures in which no entry repeats the one before it, [prev]
    being the gesture logged last before them. *)
Fixpoint changes_only (prev : option string) (names : list string) : Prop :=
  match names with
  | [] => True
  | n :: rest => prev <> Some n /\ changes_only (Some n) rest
  end.

(** The landmarks of a hand held still in the middle of the image with all
    fingers folded, and a 640 by 480 frame showing it. *)
Definition still_hand : list Ges.Landmark :=
  repeat {| Ges.x := 0.5; Ges.y := 0.5 |} 21.

Definition fist_frame : Ges.Frame :=
  {| Ges.frame_w := 640; Ges.frame_h := 480;
     Ges.detected := Ges.hand_found still_hand "Right";
     Ges.clock := "12:00:00.000" |}.

(** The target time of schedule entry [k] in a game whose start signal was
    handled when the clock read [start] seconds: the first is
    [start·1000 + schedule[0]·1000], each later one adds its own interval
    to the one before. *)
Fixpoint target_at (start : float) (k : nat) : float :=
  match k with
  | O => (start * 1000 + nth 0%nat NOTE_INTERVALS 0 * 1000)%float
  | S k' => (target_at start k' + nth k NOTE_INTERVALS 0 * 1000)%float
  end.

(** A connection is on the schedule of a game started at [start]: its
    target time is the one of its cursor, the last one once the cursor is
    past the end. *)
Definition on_schedule (start : float) (c : Consumer) : Prop :=
  current_target_time c = target_at start (Nat.min (note_index c) 59).

(** The [next_target] messages of a reply carry target times of the
    schedule, never [null]. *)
Definition scheduled (start : float) (m : Message) : Prop :=
  match m with
  | msg_next_target t =>
      exists k, (k < 60)%nat /\ t = Some (target_at start k)
  | _ => True
  end.

(** A connection waiting for its second note; a connection in the middle
    of a combo; a hit on time and on target; a hit sent with no
    [min_dist]. *)
Definition consumer_waiting : Consumer :=
  {| state := PlayState_new; note_index := 1; current_target_time := 1000 |}.

Definition consumer_in_combo : Consumer :=
  {| state := set_max_combo 1 (set_current_combo 1 PlayState_new);
     note_index := 1; current_target_time := 1000 |}.

Definition hit_data : Data :=
  {| action := gesture_complete; entry_time := Some 1000%float;
     data_min_dist := Some 0%float |}.

Definition hit_without_distance : Data :=
  {| action := gesture_complete; entry_time := Some 1000%float;
     data_min_dist := None |}.

(** A landmark with normalised coordinates; a frame the loop can work on:
    a size of at least one pixel each way (below [2^63]), and, when a hand
    is found, its 21 landmarks or more, all normalised. *)
Definition normalised (p : Ges.Landmark) : Prop :=
  Py.ge (Ges.x p) 0 = true /\ Py.le (Ges.x p) 1 = true /\
  Py.ge (Ges.y p) 0 = true /\ Py.le (Ges.y p) 1 = true.

Definition well_formed (fr : Ges.Frame) : Prop :=
  1 <= Ges.frame_w fr < 2 ^ 63 /\ 1 <= Ges.frame_h fr < 2 ^ 63 /\
  match Ges.detected fr with
  | Ges.no_hand => True
  | Ges.hand_found lm _ => (21 <= List.length lm)%nat /\ Forall normalised lm
  end.

(** A landmark reflected left to right. *)
Definition mirrored (p : Ges.Landmark) : Ges.Landmark :=
  {| Ges.x := (- Ges.x p)%float; Ges.y := Ges.y p |}.

(** ** Vocabulary of the properties on dynamic values *)

(** A note whose two fields are floats, as a note of the handler. *)
Definition of_note (note : NoteEvent) : Dyn.NoteEvent :=
  {| Dyn.note_type := note_type note;
     Dyn.target_start := target_start note;
     Dyn.target_x := target_x note;
     Dyn.target_y := target_y note;
     Dyn.actual_entry := Dyn.PyFloat (actual_entry note);
     Dyn.min_dist := Dyn.PyFloat (min_dist note);
     Dyn.target_end := target_end note;
     Dyn.actual_exit := actual_exit note |}.



(** The record built from the final state and the [debug_in] entry. *)
Definition dyn_record_of (debug : DebugIn) (f_cfg : FeverConfig)
    (b final : float) (j : Judgement) (s : PlayState) : NoteResult :=
  {| r_judgement := Judgement_name j;
     r_base_score := Round1 b;
     r_final_score := Round1 final;
     r_combo := current_combo s;
     r_fever_active := 0 <? fever_active_notes s;
     r_fever_gauge := fever_gauge s;
     r_fever_max := gauge_max f_cfg;
     r_fever_active_notes := fever_active_notes s;
     r_fever_duration := fever_duration_notes f_cfg;
     r_total_score := Round1 (total_score s);
     r_rank := live_rank (total_score s) (max_possible_score s);
     r_debug_in := debug |}.

(** The state a BAD or MISS note leaves before the maximum is credited, and
    the state a note leaves when every step before the record succeeded. *)
Definition missed (f_cfg : FeverConfig) (j : Judgement) (st : PlayState)
    : PlayState :=
  let s2 := charged f_cfg j (set_current_combo 0 st) in
  set_total_score (total_score s2 + 0.0)%float s2.

Definition credited (c_cfg : ComboConfig) (f_cfg : FeverConfig)
    (st : PlayState) (p : float) : PlayState :=
  set_max_possible_score
    (max_possible_score st + possible_of c_cfg f_cfg st p)%float st.



Definition huge_entry_off_target : Dyn.NoteEvent :=
  {| Dyn.note_type := TAP; Dyn.target_start := 1000; Dyn.target_x := 100;
     Dyn.target_y := 100; Dyn.actual_entry := Dyn.PyInt (10 ^ 400);
     Dyn.min_dist := Dyn.PyInt 9999; Dyn.target_end := 0;
     Dyn.actual_exit := 0 |}.

(** A message whose two fields are floats or absent, as a decoded
    message. *)
Definition of_data (data : Data) : Dyn.Data :=
  {| Dyn.action := action data;
     Dyn.entry_time := option_map Dyn.PyFloat (entry_time data);
     Dyn.data_min_dist := option_map Dyn.PyFloat (data_min_dist data) |}.

(** A [gesture_complete] message whose entry time is the integer [10^400],
    without a distance. *)
Definition huge_entry_data : Dyn.Data :=
  {| Dyn.action := gesture_complete;
     Dyn.entry_time := Some (Dyn.PyInt (10 ^ 400));
     Dyn.data_min_dist := None |}.

(** Binary64 numbers read as integers: a finite float is [m·2^e], and its
    value is compared as the integer [m·2^(e + scale)], which is exact
    because every exponent met here is at least [-scale]. *)
Module Binary64.

Definition scale : Z := 2200.
Definition fexp64 (e : Z) : Z := SpecFloat.fexp prec emax e.
Definition digits (p : positive) : Z := Zpos (digits2_pos p).
Definition scaled (m e : Z) : Z := m * 2 ^ (e + scale).

Inductive rounds_to (sx : bool) (v : Z) : spec_float -> Prop :=
  | rt_zero : v = 0 -> rounds_to sx v (S754_zero sx)
  | rt_finite m e :
      - scale <= e -> v = scaled (Zpos m) e -> rounds_to sx v (S754_finite sx m e)
  | rt_inf : 2 ^ (1024 + scale) <= v -> rounds_to sx v (S754_infinity sx).

(** sign of a rounded result, any location *)
Inductive signed (sx : bool) : spec_float -> Prop :=
  | signed_zero : signed sx (S754_zero sx)
  | signed_finite m e : signed sx (S754_finite sx m e)
  | signed_inf : signed sx (S754_infinity sx).

Definition isfinite (x : float) : bool := PrimFloat.ltb (PrimFloat.abs x) infinity.

Inductive nonneg_shape : spec_float -> Prop :=
  | nn_zero s : nonneg_shape (S754_zero s)
  | nn_finite m e : bounded prec emax m e = true ->
      nonneg_shape (S754_finite false m e)
  | nn_inf : nonneg_shape (S754_infinity false).

Inductive pos_shape : spec_float -> Prop :=
  | ps_finite m e : bounded prec emax m e = true ->
      pos_shape (S754_finite false m e)
  | ps_inf : pos_shape (S754_infinity false).

Definition aligned (m : positive) (e ez : Z) : positive := fst (shl_align m e ez).

End Binary64.

(** * Properties *)

(** ** Binary64 arithmetic *)

Module FloatFacts.

Import Binary64.

(** Facts about binary64 arithmetic, proved from the specification of the
    primitive operations ([SpecFloat]): a finite float is [m·2^e]; values
    are compared as the integers [m·2^(e + scale)], which is exact because
    every exponent met here is at least [-scale]. *)

Lemma iter_pos_nat {A} (f : A -> A) (p : positive) (x : A) :
  iter_pos f p x = Nat.iter (Pos.to_nat p) f x.
Proof.
  revert x. induction p as [p IH|p IH|]; intros x; cbn [iter_pos].
  - rewrite !IH, Pos2Nat.inj_xI. cbn [Nat.mul].
    rewrite Nat.add_0_r, Nat.iter_succ_r, Nat.iter_add. reflexivity.
  - rewrite !IH, Pos2Nat.inj_xO. cbn [Nat.mul].
    rewrite Nat.add_0_r, Nat.iter_add. reflexivity.
  - reflexivity.
Qed.

Lemma shr_1_spec (mrs : shr_record) :
  0 <= shr_m mrs ->
  shr_m (shr_1 mrs) = shr_m mrs / 2 /\
  shr_r (shr_1 mrs) = Z.odd (shr_m mrs) /\
  shr_s (shr_1 mrs) = shr_r mrs || shr_s mrs.
Proof.
  destruct mrs as [m r s]. cbn [shr_m shr_r shr_s]. intros Hm.
  destruct m as [|p|p]; [| |lia].
  - cbn. auto.
  - destruct p as [p|p|]; cbn [shr_1 shr_m shr_r shr_s Z.odd];
      repeat split; try reflexivity.
    + rewrite Pos2Z.inj_xI. apply Z.div_unique with 1; lia.
    + rewrite Pos2Z.inj_xO. apply Z.div_unique with 0; lia.
Qed.

Lemma shr_iter_spec (m0 : Z) (k : nat) :
  0 <= m0 ->
  let mrs := Nat.iter k shr_1 (Build_shr_record m0 false false) in
  shr_m mrs = m0 / 2 ^ Z.of_nat k /\
  (m0 mod 2 ^ Z.of_nat k = 0 -> shr_r mrs = false /\ shr_s mrs = false).
Proof.
  intros Hm0. induction k as [|k IH].
  - cbn. rewrite Z.div_1_r. auto.
  - cbv zeta in *. rewrite Nat.iter_succ. destruct IH as [IHm IHx].
    set (mrs := Nat.iter k shr_1 _) in *.
    assert (Hpos : 0 <= shr_m mrs).
    { rewrite IHm. apply Z.div_pos; [lia|]. apply Z.pow_pos_nonneg; lia. }
    destruct (shr_1_spec mrs Hpos) as (Hm & Hr & Hs).
    rewrite Nat2Z.inj_succ, Z.pow_succ_r by lia.
    assert (H2k : 0 < 2 ^ Z.of_nat k) by (apply Z.pow_pos_nonneg; lia).
    split.
    + rewrite Hm, IHm, Z.div_div by lia. f_equal. lia.
    + intros Hmod.
      assert (Hdiv : m0 = 2 * 2 ^ Z.of_nat k * (m0 / (2 * 2 ^ Z.of_nat k))).
      { apply Z.div_exact; lia. }
      assert (Hmodk : m0 mod 2 ^ Z.of_nat k = 0).
      { rewrite Hdiv. rewrite <- Z.mul_assoc, (Z.mul_comm 2), <- Z.mul_assoc.
        rewrite Z.mul_comm. apply Z.mod_mul. lia. }
      destruct (IHx Hmodk) as [Hr0 Hs0].
      rewrite Hr, Hs, Hr0, Hs0, IHm. split; [|reflexivity].
      rewrite Hdiv at 1.
      replace (2 * 2 ^ Z.of_nat k * (m0 / (2 * 2 ^ Z.of_nat k)))
        with ((2 * (m0 / (2 * 2 ^ Z.of_nat k))) * 2 ^ Z.of_nat k) by ring.
      rewrite Z.div_mul by lia. rewrite Z.odd_mul. reflexivity.
Qed.

Lemma fexp64_eq e : fexp64 e = Z.max (e - 53) (-1074).
Proof. reflexivity. Qed.

Lemma digits2_size p : digits2_pos p = Pos.size p.
Proof. induction p; cbn; congruence. Qed.

Lemma digits_bounds p : 2 ^ (digits p - 1) <= Zpos p < 2 ^ digits p.
Proof.
  unfold digits. rewrite digits2_size. split.
  - pose proof (Pos.size_le p) as H.
    assert (H' : 2 ^ Zpos (Pos.size p) <= 2 * Zpos p).
    { change (2 * Zpos p) with (Zpos p~0). rewrite <- Pos2Z.inj_pow. exact H. }
    replace (Zpos (Pos.size p)) with (Z.succ (Zpos (Pos.size p) - 1)) in H' by lia.
    rewrite Z.pow_succ_r in H' by lia. lia.
  - pose proof (Pos.size_gt p) as H.
    rewrite <- Pos2Z.inj_pow. exact H.
Qed.

Lemma digits_pos p : 1 <= digits p.
Proof. unfold digits. lia. Qed.

Lemma pow2_pos e : 0 <= e -> 0 < 2 ^ e.
Proof. intros. apply Z.pow_pos_nonneg; lia. Qed.

Lemma pow2_le a b : 0 <= a <= b -> 2 ^ a <= 2 ^ b.
Proof. intros. apply Z.pow_le_mono_r; lia. Qed.

Lemma pow2_lt a b : 0 <= a < b -> 2 ^ a < 2 ^ b.
Proof. intros. apply Z.pow_lt_mono_r; lia. Qed.

Lemma pow2_split a b : 0 <= a <= b -> 2 ^ b = 2 ^ (b - a) * 2 ^ a.
Proof. intros. rewrite <- Z.pow_add_r by lia. f_equal. lia. Qed.

Lemma pow2_lt_inv a b : 0 <= a -> 0 <= b -> 2 ^ a < 2 ^ b -> a < b.
Proof.
  intros Ha Hb H. destruct (Z_lt_le_dec a b) as [|Hle]; [assumption|].
  pose proof (pow2_le b a ltac:(lia)). lia.
Qed.

Lemma shr_fexp_noshift m e :
  fexp64 (Zdigits2 m + e) - e <= 0 ->
  shr_fexp prec emax m e loc_Exact = (Build_shr_record m false false, e).
Proof.
  intros H. unfold shr_fexp, shr. fold (fexp64 (Zdigits2 m + e)).
  cbn [shr_record_of_loc].
  destruct (fexp64 (Zdigits2 m + e) - e); try reflexivity. lia.
Qed.

Lemma shr_fexp_shift m e :
  0 <= m ->
  0 < fexp64 (Zdigits2 m + e) - e ->
  exists mrs,
    shr_fexp prec emax m e loc_Exact = (mrs, fexp64 (Zdigits2 m + e)) /\
    shr_m mrs = m / 2 ^ (fexp64 (Zdigits2 m + e) - e) /\
    (m mod 2 ^ (fexp64 (Zdigits2 m + e) - e) = 0 ->
     shr_r mrs = false /\ shr_s mrs = false).
Proof.
  intros Hm H. unfold shr_fexp, shr. fold (fexp64 (Zdigits2 m + e)).
  cbn [shr_record_of_loc].
  destruct (fexp64 (Zdigits2 m + e) - e) as [|n|n] eqn:Hn; try lia.
  eexists. split.
  - f_equal. lia.
  - rewrite iter_pos_nat.
    pose proof (shr_iter_spec m (Pos.to_nat n) Hm) as Hs. cbv zeta in Hs.
    rewrite positive_nat_Z in Hs. exact Hs.
Qed.

Lemma round_nearest_even_bounds mrs :
  let m := round_nearest_even (shr_m mrs) (loc_of_shr_record mrs) in
  shr_m mrs <= m <= shr_m mrs + 1 /\
  (shr_r mrs = false -> shr_s mrs = false -> m = shr_m mrs).
Proof.
  destruct mrs as [m r s]. cbn [shr_m shr_r shr_s].
  destruct r, s; cbn [loc_of_shr_record round_nearest_even];
    try destruct (Z.even m); split; try lia; intros; try discriminate; lia.
Qed.

Lemma mul_pow2_le a b e f :
  0 <= a <= b -> 0 <= e <= f -> a * 2 ^ e <= b * 2 ^ f.
Proof.
  intros Hab Hef. pose proof (pow2_le e f Hef). pose proof (pow2_pos e ltac:(lia)).
  nia.
Qed.

Lemma scaled_div_ulp p ex e1 :
  - scale <= ex -> ex <= e1 ->
  scaled (Zpos p) ex / 2 ^ (e1 + scale) = Zpos p / 2 ^ (e1 - ex) /\
  scaled (Zpos p) ex mod 2 ^ (e1 + scale) = (Zpos p mod 2 ^ (e1 - ex)) * 2 ^ (ex + scale).
Proof.
  intros HK Hle. unfold scaled.
  rewrite (pow2_split (ex + scale) (e1 + scale)) by lia.
  replace (e1 + scale - (ex + scale)) with (e1 - ex) by lia.
  assert (0 < 2 ^ (ex + scale)) by (apply pow2_pos; lia).
  assert (0 < 2 ^ (e1 - ex)) by (apply pow2_pos; lia).
  split.
  - apply Z.div_mul_cancel_r; lia.
  - apply Z.mul_mod_distr_r; lia.
Qed.

Lemma binary_round_aux_value sx p ex :
  - scale <= ex -> ex <= fexp64 (digits p + ex) ->
  let x := scaled (Zpos p) ex in
  let u := 2 ^ (fexp64 (digits p + ex) + scale) in
  exists v,
    u * (x / u) <= v <= u * (x / u) + u /\
    (x mod u = 0 -> v = x) /\
    rounds_to sx v (binary_round_aux prec emax sx (Zpos p) ex loc_Exact).
Proof.
  intros HK Hal x u.
  set (e1 := fexp64 (digits p + ex)) in *.
  assert (He1 : -1074 <= e1 /\ digits p + ex - 53 <= e1).
  { unfold e1. rewrite fexp64_eq. lia. }
  assert (He1' : e1 = digits p + ex - 53 \/ e1 = -1074).
  { unfold e1. rewrite fexp64_eq. lia. }
  assert (Hu : 0 < u) by (apply pow2_pos; unfold scale; lia).
  destruct (scaled_div_ulp p ex e1 HK Hal) as [Hdiv Hmod].
  fold x u in Hdiv, Hmod.
  pose proof (digits_bounds p) as Hdg. pose proof (digits_pos p) as Hdg1.
  assert (Hpex : 0 < 2 ^ (ex + scale)) by (apply pow2_pos; lia).
  unfold binary_round_aux.
  destruct (Z.eq_dec e1 ex) as [Heq|Hne].
  - (* no shift *)
    rewrite shr_fexp_noshift
      by (cbn [Zdigits2]; fold (digits p); fold e1; lia).
    cbn [shr_m loc_of_shr_record round_nearest_even].
    rewrite shr_fexp_noshift
      by (cbn [Zdigits2]; fold (digits p); fold e1; lia).
    cbn [shr_m].
    assert (Hx : u * (x / u) = x).
    { rewrite Hdiv, Heq, Z.sub_diag, Z.pow_0_r, Z.div_1_r.
      unfold u, x, scaled. rewrite Heq. ring. }
    exists x. split; [lia|]. split; [reflexivity|].
    destruct (ex <=? emax - prec) eqn:Hov.
    + apply rt_finite; [lia|reflexivity].
    + apply rt_inf. apply Z.leb_gt in Hov. change (emax - prec) with 971 in Hov.
      assert (Hd : digits p = 53) by lia.
      assert (Hp : 2 ^ 52 <= Zpos p) by (rewrite Hd in Hdg; apply Hdg).
      unfold x, scaled.
      replace (1024 + scale) with (52 + (972 + scale)) by lia.
      rewrite (Z.pow_add_r 2 52 (972 + scale)) by (unfold scale; lia).
      apply mul_pow2_le; [lia | unfold scale; lia].
  - (* shift by n > 0 *)
    assert (Hn : 0 < e1 - ex) by lia.
    assert (Hsh : 0 < fexp64 (Zdigits2 (Zpos p) + ex) - ex).
    { cbn [Zdigits2]. fold (digits p). fold e1. lia. }
    destruct (shr_fexp_shift (Zpos p) ex ltac:(lia) Hsh) as (mrs & Hs & Hm & Hex).
    cbn [Zdigits2] in Hs, Hm, Hex. fold (digits p) in Hs, Hm, Hex.
    fold e1 in Hs, Hm, Hex.
    rewrite Hs.
    destruct (round_nearest_even_bounds mrs) as [Hrb Hrx]. cbv zeta in Hrb, Hrx.
    set (m2 := round_nearest_even (shr_m mrs) (loc_of_shr_record mrs)) in *.
    set (m1 := Zpos p / 2 ^ (e1 - ex)) in *.
    rewrite Hm in Hrb, Hrx.
    assert (H2n : 0 < 2 ^ (e1 - ex)) by (apply pow2_pos; lia).
    assert (Hm1 : 0 <= m1 < 2 ^ 53).
    { split; [apply Z.div_pos; lia|].
      apply Z.div_lt_upper_bound; [lia|].
      rewrite <- Z.pow_add_r by lia.
      apply Z.lt_le_trans with (2 ^ digits p); [apply Hdg|].
      apply pow2_le. lia. }
    assert (Hm1n : e1 = digits p + ex - 53 -> 2 ^ 52 <= m1).
    { intros He. apply Z.div_le_lower_bound; [lia|].
      rewrite <- Z.pow_add_r by lia.
      replace (e1 - ex + 52) with (digits p - 1) by lia. apply Hdg. }
    exists (m2 * u). split; [|split].
    + rewrite Hdiv. nia.
    + intros Hx0. rewrite Hmod in Hx0.
      assert (Hp0 : Zpos p mod 2 ^ (e1 - ex) = 0) by nia.
      destruct (Hex Hp0) as [Hr Hs0]. rewrite (Hrx Hr Hs0).
      pose proof (Z.div_mod x u ltac:(lia)) as Hdm.
      rewrite Hmod, Hp0 in Hdm. rewrite Hdiv in Hdm. lia.
    + destruct (Z.eq_dec m2 0) as [H0|H0].
      * rewrite H0. rewrite shr_fexp_noshift
          by (cbn [Zdigits2]; rewrite fexp64_eq; lia).
        cbn [shr_m]. apply rt_zero. lia.
      * destruct m2 as [|q|q] eqn:Hq; try lia.
        pose proof (digits_bounds q) as Hdq. pose proof (digits_pos q) as Hdq1.
        destruct (Z.eq_dec (Zpos q) (2 ^ 53)) as [Htop|Htop].
        -- assert (Hd54 : digits q = 54).
           { assert (digits q - 1 < 54) by (apply pow2_lt_inv; lia).
             assert (53 < digits q) by (apply pow2_lt_inv; lia).
             lia. }
           assert (Hsh2 : 0 < fexp64 (Zdigits2 (Zpos q) + e1) - e1).
           { cbn [Zdigits2]. fold (digits q). rewrite Hd54, fexp64_eq. lia. }
           destruct (shr_fexp_shift (Zpos q) e1 ltac:(lia) Hsh2)
             as (mrs2 & Hs2 & Hm2 & _).
           cbn [Zdigits2] in Hs2, Hm2. fold (digits q) in Hs2, Hm2.
           rewrite Hd54 in Hs2, Hm2.
           assert (Hfx : fexp64 (54 + e1) = e1 + 1) by (rewrite fexp64_eq; lia).
           rewrite Hfx in Hs2, Hm2. rewrite Hs2, Hm2, Htop.
           replace (e1 + 1 - e1) with 1 by lia.
           change (2 ^ 53 / 2 ^ 1) with (Zpos 4503599627370496).
           assert (Hv : 2 ^ 53 * u = scaled (Zpos 4503599627370496) (e1 + 1)).
           { unfold scaled, u. replace (e1 + 1 + scale) with (1 + (e1 + scale)) by lia.
             rewrite (Z.pow_add_r 2 1 (e1 + scale)) by (unfold scale; lia).
             change (2 ^ 53) with (4503599627370496 * 2 ^ 1). ring. }
           destruct (e1 + 1 <=? emax - prec) eqn:Hov.
           ++ apply rt_finite; [lia|exact Hv].
           ++ apply rt_inf. apply Z.leb_gt in Hov.
              change (emax - prec) with 971 in Hov.
              unfold u. rewrite <- Z.pow_add_r by (unfold scale; lia).
              apply pow2_le. unfold scale; lia.
        -- assert (Hd53 : digits q <= 53).
           { assert (digits q - 1 < 53) by (apply pow2_lt_inv; lia). lia. }
           rewrite shr_fexp_noshift
             by (cbn [Zdigits2]; fold (digits q); rewrite fexp64_eq; lia).
           cbn [shr_m].
           destruct (e1 <=? emax - prec) eqn:Hov.
           ++ apply rt_finite; [lia|]. unfold scaled, u. reflexivity.
           ++ apply rt_inf. apply Z.leb_gt in Hov.
              change (emax - prec) with 971 in Hov.
              assert (H52 : 2 ^ 52 <= Zpos q) by (specialize (Hm1n ltac:(lia)); lia).
              unfold u.
              replace (1024 + scale) with (52 + (972 + scale)) by lia.
              rewrite (Z.pow_add_r 2 52 (972 + scale)) by (unfold scale; lia).
              apply mul_pow2_le; [lia | unfold scale; lia].
Qed.

Lemma bounded_spec m e :
  bounded prec emax m e = true ->
  e = fexp64 (digits m + e) /\ -1074 <= e <= 971 /\ digits m <= 53 /\
  (-1074 < e -> digits m = 53).
Proof.
  unfold bounded, canonical_mantissa. intros H.
  apply andb_true_iff in H. destruct H as [Hc He].
  apply Z.eqb_eq in Hc. apply Z.leb_le in He.
  change (emax - prec) with 971 in He.
  fold (digits m) in Hc. fold (fexp64 (digits m + e)) in Hc.
  rewrite fexp64_eq in *. lia.
Qed.

Lemma scaled_pos p e : - scale <= e -> 0 < scaled (Zpos p) e.
Proof. intros. unfold scaled. pose proof (pow2_pos (e + scale) ltac:(lia)). nia. Qed.

Lemma scaled_bounds p e :
  - scale <= e ->
  2 ^ (digits p - 1 + e + scale) <= scaled (Zpos p) e < 2 ^ (digits p + e + scale).
Proof.
  intros HK. unfold scaled. pose proof (digits_bounds p) as Hd.
  pose proof (digits_pos p).
  pose proof (pow2_pos (e + scale) ltac:(lia)).
  replace (digits p - 1 + e + scale) with ((digits p - 1) + (e + scale)) by lia.
  replace (digits p + e + scale) with (digits p + (e + scale)) by lia.
  rewrite (Z.pow_add_r 2 (digits p - 1) (e + scale)), (Z.pow_add_r 2 (digits p) (e + scale))
    by lia.
  nia.
Qed.

Lemma scaled_magnitude p ep q eq :
  - scale <= ep -> - scale <= eq ->
  scaled (Zpos p) ep <= scaled (Zpos q) eq -> digits p + ep <= digits q + eq.
Proof.
  intros Hp Hq Hle.
  pose proof (scaled_bounds p ep Hp). pose proof (scaled_bounds q eq Hq).
  pose proof (digits_pos p). pose proof (digits_pos q).
  assert (digits p - 1 + ep + scale < digits q + eq + scale); [|lia].
  apply pow2_lt_inv; lia.
Qed.

Lemma scaled_lt_overflow m e :
  bounded prec emax m e = true -> scaled (Zpos m) e < 2 ^ (1024 + scale).
Proof.
  intros Hb. destruct (bounded_spec m e Hb) as (_ & He & Hd & _).
  pose proof (scaled_bounds m e ltac:(unfold scale; lia)) as [_ Hv].
  apply Z.lt_le_trans with (1 := Hv). apply pow2_le.
  pose proof (digits_pos m). unfold scale. lia.
Qed.

Lemma round_le_bound sx p ex mb eb :
  - scale <= ex -> ex <= fexp64 (digits p + ex) ->
  bounded prec emax mb eb = true ->
  scaled (Zpos p) ex <= scaled (Zpos mb) eb ->
  let r := binary_round_aux prec emax sx (Zpos p) ex loc_Exact in
  r = S754_zero sx \/
  exists m e, r = S754_finite sx m e /\ - scale <= e /\
              scaled (Zpos m) e <= scaled (Zpos mb) eb.
Proof.
  intros HK Hal Hb Hle r.
  destruct (bounded_spec mb eb Hb) as (Hcb & Heb & Hdb & _).
  assert (HKb : - scale <= eb) by (unfold scale; lia).
  destruct (binary_round_aux_value sx p ex HK Hal) as (v & Hv & Hex & Hr).
  cbv zeta in Hv, Hex. fold r in Hr.
  set (e1 := fexp64 (digits p + ex)) in *.
  set (u := 2 ^ (e1 + scale)) in *. set (x := scaled (Zpos p) ex) in *.
  set (B := scaled (Zpos mb) eb) in *.
  assert (He1 : -1074 <= e1) by (unfold e1; rewrite fexp64_eq; lia).
  assert (Hu : 0 < u) by (apply pow2_pos; unfold scale; lia).
  assert (Hmag : e1 <= eb).
  { pose proof (scaled_magnitude p ex mb eb HK HKb Hle) as Hm.
    rewrite Hcb. unfold e1. rewrite !fexp64_eq. lia. }
  assert (HB : B = (Zpos mb * 2 ^ (eb - e1)) * u).
  { unfold B, scaled, u. rewrite (pow2_split (e1 + scale) (eb + scale)) by lia.
    replace (eb + scale - (e1 + scale)) with (eb - e1) by lia. ring. }
  set (q := Zpos mb * 2 ^ (eb - e1)) in *.
  assert (HvB : v <= B).
  { destruct (Z.eq_dec (x mod u) 0) as [H0|H0].
    - rewrite (Hex H0). exact Hle.
    - assert (Hlt : x < q * u).
      { destruct (Z.eq_dec x (q * u)) as [E|E]; [|lia].
        exfalso. apply H0. rewrite E. apply Z.mod_mul. lia. }
      assert (x / u < q) by (apply Z.div_lt_upper_bound; lia).
      nia. }
  inversion Hr as [H0 Hz | m e He Hvv Hz | Hinf Hz].
  - left. reflexivity.
  - right. exists m, e. repeat split; try assumption. lia.
  - exfalso. pose proof (scaled_lt_overflow mb eb Hb). fold B in H. lia.
Qed.

Lemma round_ge_bound sx p ex mb eb :
  - scale <= ex -> ex <= fexp64 (digits p + ex) ->
  bounded prec emax mb eb = true ->
  scaled (Zpos mb) eb <= scaled (Zpos p) ex ->
  let r := binary_round_aux prec emax sx (Zpos p) ex loc_Exact in
  r = S754_infinity sx \/
  exists m e, r = S754_finite sx m e /\ - scale <= e /\
              scaled (Zpos mb) eb <= scaled (Zpos m) e.
Proof.
  intros HK Hal Hb Hle r.
  destruct (bounded_spec mb eb Hb) as (Hcb & Heb & Hdb & _).
  assert (HKb : - scale <= eb) by (unfold scale; lia).
  destruct (binary_round_aux_value sx p ex HK Hal) as (v & Hv & Hex & Hr).
  cbv zeta in Hv, Hex. fold r in Hr.
  set (e1 := fexp64 (digits p + ex)) in *.
  set (u := 2 ^ (e1 + scale)) in *. set (x := scaled (Zpos p) ex) in *.
  set (B := scaled (Zpos mb) eb) in *.
  assert (He1 : -1074 <= e1) by (unfold e1; rewrite fexp64_eq; lia).
  assert (Hu : 0 < u) by (apply pow2_pos; unfold scale; lia).
  assert (HBpos : 0 < B) by (apply scaled_pos; lia).
  assert (Hmag : eb <= e1).
  { pose proof (scaled_magnitude mb eb p ex HKb HK Hle) as Hm.
    rewrite Hcb. unfold e1. rewrite !fexp64_eq. lia. }
  assert (HvB : B <= v).
  { destruct (Z.eq_dec eb e1) as [E|E].
    - assert (HB : B = Zpos mb * u) by (unfold B, scaled, u; rewrite E; reflexivity).
      assert (Zpos mb <= x / u) by (apply Z.div_le_lower_bound; lia).
      nia.
    - assert (He1' : e1 = digits p + ex - 53) by (unfold e1 in *; rewrite fexp64_eq in *; lia).
      pose proof (scaled_bounds p ex HK) as [Hxl _]. fold x in Hxl.
      assert (Hxu : 2 ^ 52 * u <= x).
      { unfold u. rewrite <- Z.pow_add_r by (unfold scale; lia).
        replace (52 + (e1 + scale)) with (digits p - 1 + ex + scale) by lia. exact Hxl. }
      assert (2 ^ 52 <= x / u) by (apply Z.div_le_lower_bound; lia).
      pose proof (scaled_bounds mb eb HKb) as [_ HBu]. fold B in HBu.
      assert (2 ^ (digits mb + eb + scale) <= 2 ^ 52 * u).
      { unfold u. rewrite <- Z.pow_add_r by (unfold scale; lia).
        apply pow2_le. pose proof (digits_pos mb). unfold scale. lia. }
      nia. }
  inversion Hr as [H0 Hz | m e He Hvv Hz | Hinf Hz].
  - exfalso. lia.
  - right. exists m, e. repeat split; try assumption. lia.
  - left. reflexivity.
Qed.

Lemma SFcompare_valid ma ea mb eb :
  bounded prec emax ma ea = true -> bounded prec emax mb eb = true ->
  SFcompare (S754_finite false ma ea) (S754_finite false mb eb)
  = Some (scaled (Zpos ma) ea ?= scaled (Zpos mb) eb).
Proof.
  intros Ha Hb.
  destruct (bounded_spec ma ea Ha) as (_ & Hea & Hda & Hna).
  destruct (bounded_spec mb eb Hb) as (_ & Heb & Hdb & Hnb).
  pose proof (scaled_bounds ma ea ltac:(unfold scale; lia)) as Hva.
  pose proof (scaled_bounds mb eb ltac:(unfold scale; lia)) as Hvb.
  pose proof (digits_pos ma). pose proof (digits_pos mb).
  cbn [SFcompare]. f_equal.
  destruct (Z.compare_spec ea eb) as [E|L|G].
  - subst eb. unfold scaled.
    pose proof (pow2_pos (ea + scale) ltac:(unfold scale; lia)) as H2.
    change (Pos.compare_cont Eq ma mb) with (Pos.compare ma mb).
    destruct (Pos.compare_spec ma mb) as [E|L|G]; symmetry.
    + subst mb. apply Z.compare_refl.
    + apply Z.compare_lt_iff. apply Pos2Z.pos_lt_pos in L. nia.
    + apply Z.compare_gt_iff. apply Pos2Z.pos_lt_pos in G. nia.
  - symmetry. apply Z.compare_lt_iff.
    apply Z.lt_le_trans with (1 := proj2 Hva).
    apply Z.le_trans with (2 := proj1 Hvb).
    apply pow2_le. unfold scale. lia.
  - symmetry. apply Z.compare_gt_iff.
    apply Z.lt_le_trans with (1 := proj2 Hvb).
    apply Z.le_trans with (2 := proj1 Hva).
    apply pow2_le. unfold scale. lia.
Qed.

Lemma shr_iter_nonneg (k : nat) (mrs : shr_record) :
  0 <= shr_m mrs -> 0 <= shr_m (Nat.iter k shr_1 mrs).
Proof.
  intros H. induction k as [|k IH]; [exact H|].
  rewrite Nat.iter_succ.
  destruct (shr_1_spec _ IH) as (Hm & _). rewrite Hm.
  apply Z.div_pos; lia.
Qed.

Lemma shr_fexp_nonneg m e l :
  0 <= m -> 0 <= shr_m (fst (shr_fexp prec emax m e l)).
Proof.
  intros Hm. unfold shr_fexp, shr.
  assert (H0 : 0 <= shr_m (shr_record_of_loc m l)).
  { destruct l as [|[]]; exact Hm. }
  destruct (SpecFloat.fexp prec emax (Zdigits2 m + e) - e); cbn [fst];
    try exact H0.
  rewrite iter_pos_nat. apply shr_iter_nonneg, H0.
Qed.

Lemma round_nearest_even_nonneg m l : 0 <= m -> 0 <= round_nearest_even m l.
Proof.
  intros. destruct l as [|[]]; cbn [round_nearest_even]; try lia.
  destruct (Z.even m); lia.
Qed.

Lemma binary_round_aux_signed sx m e l :
  0 <= m -> signed sx (binary_round_aux prec emax sx m e l).
Proof.
  intros Hm. unfold binary_round_aux.
  pose proof (shr_fexp_nonneg m e l Hm) as H1.
  destruct (shr_fexp prec emax m e l) as [mrs1 e1]. cbn [fst] in H1.
  pose proof (round_nearest_even_nonneg _ (loc_of_shr_record mrs1) H1) as H2.
  pose proof (shr_fexp_nonneg _ e1 loc_Exact H2) as H3.
  destruct (shr_fexp prec emax _ e1 loc_Exact) as [mrs2 e2]. cbn [fst] in H3.
  destruct (shr_m mrs2) as [|q|q]; [constructor| |lia].
  destruct (e2 <=? emax - prec); constructor.
Qed.

(** shl_align and binary_round *)
Lemma iter_xO_shift p d :
  Zpos (Pos.iter xO p d) = Zpos p * 2 ^ Zpos d /\
  digits (Pos.iter xO p d) = digits p + Zpos d.
Proof.
  induction d as [|d IH] using Pos.peano_ind.
  - cbn [Pos.iter]. unfold digits. cbn [digits2_pos]. split; lia.
  - rewrite Pos.iter_succ. destruct IH as [IHv IHd].
    unfold digits in *. cbn [digits2_pos]. rewrite Pos2Z.inj_xO, IHv.
    rewrite Pos2Z.inj_succ, Z.pow_succ_r by lia. split; lia.
Qed.

Lemma shl_align_spec p e e' :
  let '(p', e2) := shl_align p e e' in
  e2 <= e /\ (e' <= e -> e2 = e') /\ (e <= e' -> e2 = e) /\
  Zpos p' = Zpos p * 2 ^ (e - e2) /\ digits p' = digits p + (e - e2).
Proof.
  unfold shl_align. destruct (e' - e) as [|d|d] eqn:Hd.
  - replace (e - e) with 0 by lia. rewrite Z.pow_0_r. repeat split; lia.
  - replace (e - e) with 0 by lia. rewrite Z.pow_0_r. repeat split; lia.
  - destruct (iter_xO_shift p d) as [Hv Hg].
    replace (e - e') with (Zpos d) by lia. repeat split; try lia; assumption.
Qed.

Lemma scaled_shl p e e2 p' :
  - scale <= e2 -> e2 <= e -> Zpos p' = Zpos p * 2 ^ (e - e2) ->
  scaled (Zpos p') e2 = scaled (Zpos p) e.
Proof.
  intros HK Hle Hp. unfold scaled. rewrite Hp.
  rewrite (pow2_split (e2 + scale) (e + scale)) by lia.
  replace (e + scale - (e2 + scale)) with (e - e2) by lia. ring.
Qed.

Lemma binary_round_as_aux sx p e :
  -1074 <= e ->
  exists p' e',
    binary_round prec emax sx p e
      = binary_round_aux prec emax sx (Zpos p') e' loc_Exact /\
    - scale <= e' /\ e' <= fexp64 (digits p' + e') /\ scaled (Zpos p') e' = scaled (Zpos p) e.
Proof.
  intros He. unfold binary_round.
  fold (digits p). fold (fexp64 (digits p + e)).
  pose proof (shl_align_spec p e (fexp64 (digits p + e))) as H.
  destruct (shl_align p e (fexp64 (digits p + e))) as [p' e2].
  destruct H as (Hle & H1 & H2 & Hv & Hd).
  exists p', e2. split; [reflexivity|].
  assert (Hf : -1074 <= fexp64 (digits p + e)) by (rewrite fexp64_eq; lia).
  assert (He2 : -1074 <= e2).
  { destruct (Z_le_gt_dec (fexp64 (digits p + e)) e); [rewrite H1; lia | rewrite H2; lia]. }
  split; [unfold scale; lia|]. split.
  - rewrite Hd. replace (digits p + (e - e2) + e2) with (digits p + e) by lia.
    destruct (Z_le_gt_dec (fexp64 (digits p + e)) e); [rewrite H1; lia | rewrite H2; lia].
  - apply scaled_shl; [unfold scale; lia | lia | exact Hv].
Qed.

(** product alignment *)
Lemma digits_mul p q : digits p + digits q - 1 <= digits (p * q).
Proof.
  pose proof (digits_bounds p) as Hp. pose proof (digits_bounds q) as Hq.
  pose proof (digits_bounds (p * q)) as Hpq.
  pose proof (digits_pos p). pose proof (digits_pos q). pose proof (digits_pos (p * q)).
  rewrite Pos2Z.inj_mul in Hpq.
  assert (2 ^ (digits p - 1 + (digits q - 1)) < 2 ^ digits (p * q)).
  { rewrite Z.pow_add_r by lia.
    pose proof (pow2_pos (digits p - 1) ltac:(lia)).
    pose proof (pow2_pos (digits q - 1) ltac:(lia)). nia. }
  assert (digits p - 1 + (digits q - 1) < digits (p * q)) by (apply pow2_lt_inv; lia).
  lia.
Qed.

Lemma mul_aligned ma ea mb eb :
  bounded prec emax ma ea = true -> bounded prec emax mb eb = true ->
  ea + eb <= fexp64 (digits (ma * mb) + (ea + eb)) /\ - scale <= ea + eb.
Proof.
  intros Ha Hb.
  destruct (bounded_spec ma ea Ha) as (_ & Hea & Hda & Hna).
  destruct (bounded_spec mb eb Hb) as (_ & Heb & Hdb & Hnb).
  pose proof (digits_mul ma mb). pose proof (digits_pos ma). pose proof (digits_pos mb).
  split; [|unfold scale; lia].
  rewrite fexp64_eq.
  destruct (Z.eq_dec ea (-1074)), (Z.eq_dec eb (-1074)); lia.
Qed.

Lemma scaled_mul ma ea mb eb :
  - scale <= ea -> - scale <= eb -> - scale <= ea + eb ->
  scaled (Zpos (ma * mb)) (ea + eb) * 2 ^ scale = scaled (Zpos ma) ea * scaled (Zpos mb) eb.
Proof.
  intros. unfold scaled. rewrite Pos2Z.inj_mul.
  replace (Z.pos ma * Z.pos mb * 2 ^ (ea + eb + scale) * 2 ^ scale)
    with (Z.pos ma * Z.pos mb * (2 ^ (ea + eb + scale) * 2 ^ scale)) by ring.
  rewrite <- Z.pow_add_r by (unfold scale in *; lia).
  replace (ea + eb + scale + scale) with ((ea + scale) + (eb + scale)) by lia.
  rewrite Z.pow_add_r by lia. ring.
Qed.

Lemma scaled_one : scaled (Zpos 4503599627370496) (-52) = 2 ^ scale.
Proof. reflexivity. Qed.

Lemma Prim2SF_one : Prim2SF 1 = S754_finite false 4503599627370496 (-52).
Proof. reflexivity. Qed.

Lemma scale_pos : 0 < 2 ^ scale.
Proof. apply pow2_pos. unfold scale. lia. Qed.

(** Reading comparisons *)

Lemma SFleb_valid ma ea mb eb :
  bounded prec emax ma ea = true -> bounded prec emax mb eb = true ->
  SFleb (S754_finite false ma ea) (S754_finite false mb eb)
  = (scaled (Zpos ma) ea <=? scaled (Zpos mb) eb).
Proof.
  intros Ha Hb. unfold SFleb. rewrite (SFcompare_valid _ _ _ _ Ha Hb).
  unfold Z.leb. destruct (_ ?= _); reflexivity.
Qed.

Lemma SFltb_valid ma ea mb eb :
  bounded prec emax ma ea = true -> bounded prec emax mb eb = true ->
  SFltb (S754_finite false ma ea) (S754_finite false mb eb)
  = (scaled (Zpos ma) ea <? scaled (Zpos mb) eb).
Proof.
  intros Ha Hb. unfold SFltb. rewrite (SFcompare_valid _ _ _ _ Ha Hb).
  unfold Z.ltb. destruct (_ ?= _); reflexivity.
Qed.

(** The shapes of a float under a comparison with zero, one or infinity. *)

Lemma leb0_shape x : PrimFloat.leb 0 x = true -> nonneg_shape (Prim2SF x).
Proof.
  rewrite leb_spec. change (Prim2SF 0) with (S754_zero false).
  pose proof (Prim2SF_valid x) as Hv.
  destruct (Prim2SF x) as [s|[]| |[] m e]; cbn; try discriminate; intros _;
    constructor. exact Hv.
Qed.

Lemma shape_leb0 x : nonneg_shape (Prim2SF x) -> PrimFloat.leb 0 x = true.
Proof.
  rewrite leb_spec. change (Prim2SF 0) with (S754_zero false).
  intros H. inversion H; reflexivity.
Qed.

Lemma ltb0_shape x : PrimFloat.ltb 0 x = true -> pos_shape (Prim2SF x).
Proof.
  rewrite ltb_spec. change (Prim2SF 0) with (S754_zero false).
  pose proof (Prim2SF_valid x) as Hv.
  destruct (Prim2SF x) as [s|[]| |[] m e]; cbn; try discriminate; intros _;
    constructor. exact Hv.
Qed.

Lemma shape_ltb0 x : pos_shape (Prim2SF x) -> PrimFloat.ltb 0 x = true.
Proof.
  rewrite ltb_spec. change (Prim2SF 0) with (S754_zero false).
  intros H. inversion H; reflexivity.
Qed.

Lemma pos_nonneg s : pos_shape s -> nonneg_shape s.
Proof. intros H. inversion H; constructor; assumption. Qed.

Lemma posfin_shape x :
  PrimFloat.ltb 0 x = true -> PrimFloat.ltb x infinity = true ->
  exists m e, Prim2SF x = S754_finite false m e /\ bounded prec emax m e = true.
Proof.
  intros H0 Hi. pose proof (ltb0_shape x H0) as Hs.
  rewrite ltb_spec in Hi. change (Prim2SF infinity) with (S754_infinity false) in Hi.
  inversion Hs as [m e Hb E | E].
  - eauto.
  - rewrite <- E in Hi. discriminate.
Qed.

(** c <= x for a positive finite c *)
Lemma leb_from_posfin c x mc ec :
  Prim2SF c = S754_finite false mc ec ->
  PrimFloat.leb c x = true ->
  Prim2SF x = S754_infinity false \/
  exists m e, Prim2SF x = S754_finite false m e /\
    bounded prec emax m e = true /\ scaled (Zpos mc) ec <= scaled (Zpos m) e.
Proof.
  intros Hc. rewrite leb_spec, Hc.
  pose proof (Prim2SF_valid x) as Hv. pose proof (Prim2SF_valid c) as Hvc.
  rewrite Hc in Hvc. cbn in Hvc.
  destruct (Prim2SF x) as [s|[]| |[] m e]; cbn; try discriminate; intros H.
  - left. reflexivity.
  - right. exists m, e. cbn in Hv. repeat split; try assumption.
    change (SFleb (S754_finite false mc ec) (S754_finite false m e) = true) in H.
    rewrite (SFleb_valid _ _ _ _ Hvc Hv) in H. apply Z.leb_le. exact H.
Qed.

Lemma leb_to_posfin c x mc ec :
  Prim2SF c = S754_finite false mc ec ->
  (Prim2SF x = S754_infinity false \/
   exists m e, Prim2SF x = S754_finite false m e /\
     scaled (Zpos mc) ec <= scaled (Zpos m) e) ->
  PrimFloat.leb c x = true.
Proof.
  intros Hc H. rewrite leb_spec, Hc.
  pose proof (Prim2SF_valid x) as Hv. pose proof (Prim2SF_valid c) as Hvc.
  rewrite Hc in Hvc. cbn in Hvc.
  destruct H as [E | (m & e & E & Hle)]; rewrite E in *; [reflexivity|].
  cbn in Hv. rewrite (SFleb_valid _ _ _ _ Hvc Hv). apply Z.leb_le. exact Hle.
Qed.

(** x <= c for a positive finite c and a non-negative x *)
Lemma nonneg_leb_posfin x c mc ec :
  Prim2SF c = S754_finite false mc ec ->
  nonneg_shape (Prim2SF x) ->
  PrimFloat.leb x c = true ->
  (exists s, Prim2SF x = S754_zero s) \/
  exists m e, Prim2SF x = S754_finite false m e /\
    bounded prec emax m e = true /\ scaled (Zpos m) e <= scaled (Zpos mc) ec.
Proof.
  intros Hc Hs. rewrite leb_spec, Hc.
  pose proof (Prim2SF_valid c) as Hvc. rewrite Hc in Hvc. cbn in Hvc.
  inversion Hs as [s E | m e Hb E | E]; intros H.
  - left. eauto.
  - right. exists m, e. repeat split; try assumption.
    rewrite (SFleb_valid _ _ _ _ Hb Hvc) in H. apply Z.leb_le. exact H.
  - discriminate.
Qed.

Lemma leb_posfin_intro x c mc ec :
  Prim2SF c = S754_finite false mc ec ->
  ((exists s, Prim2SF x = S754_zero s) \/
   exists m e, Prim2SF x = S754_finite false m e /\
     scaled (Zpos m) e <= scaled (Zpos mc) ec) ->
  PrimFloat.leb x c = true.
Proof.
  intros Hc H. rewrite leb_spec, Hc.
  pose proof (Prim2SF_valid x) as Hv. pose proof (Prim2SF_valid c) as Hvc.
  rewrite Hc in Hvc. cbn in Hvc.
  destruct H as [(s & E) | (m & e & E & Hle)]; rewrite E in *; [reflexivity|].
  cbn in Hv. rewrite (SFleb_valid _ _ _ _ Hv Hvc). apply Z.leb_le. exact Hle.
Qed.

(** x < c for a positive finite c and a non-negative x *)
Lemma nonneg_ltb_posfin x c mc ec :
  Prim2SF c = S754_finite false mc ec ->
  nonneg_shape (Prim2SF x) ->
  PrimFloat.ltb x c = true ->
  (exists s, Prim2SF x = S754_zero s) \/
  exists m e, Prim2SF x = S754_finite false m e /\
    bounded prec emax m e = true /\ scaled (Zpos m) e < scaled (Zpos mc) ec.
Proof.
  intros Hc Hs. rewrite ltb_spec, Hc.
  pose proof (Prim2SF_valid c) as Hvc. rewrite Hc in Hvc. cbn in Hvc.
  inversion Hs as [s E | m e Hb E | E]; intros H.
  - left. eauto.
  - right. exists m, e. repeat split; try assumption.
    rewrite (SFltb_valid _ _ _ _ Hb Hvc) in H. apply Z.ltb_lt. exact H.
  - discriminate.
Qed.

Lemma mul_finite_spec x y mx ex my ey :
  Prim2SF x = S754_finite false mx ex ->
  Prim2SF y = S754_finite false my ey ->
  Prim2SF (x * y)%float
  = binary_round_aux prec emax false (Zpos (mx * my)) (ex + ey) loc_Exact.
Proof. intros Hx Hy. rewrite mul_spec, Hx, Hy. reflexivity. Qed.

Lemma valid_finite x s m e :
  Prim2SF x = S754_finite s m e -> bounded prec emax m e = true.
Proof. intros H. pose proof (Prim2SF_valid x) as Hv. rewrite H in Hv. exact Hv. Qed.

(** c * t <= c and 0 < c * t, for 0 < t <= 1 *)
Lemma mul_le_const (c t : float) :
  PrimFloat.ltb 0 c = true -> PrimFloat.ltb c infinity = true ->
  PrimFloat.ltb 0 t = true -> PrimFloat.leb t 1 = true ->
  PrimFloat.leb (c * t) c = true.
Proof.
  intros Hc0 Hci Ht0 Ht1.
  destruct (posfin_shape c Hc0 Hci) as (mc & ec & Ec & Hbc).
  destruct (nonneg_leb_posfin t 1 _ _ Prim2SF_one
              (pos_nonneg _ (ltb0_shape t Ht0)) Ht1)
    as [(s & Et) | (mt & et & Et & Hbt & Hle)].
  { pose proof (ltb0_shape t Ht0) as Hs. rewrite Et in Hs. inversion Hs. }
  rewrite scaled_one in Hle.
  destruct (mul_aligned mc ec mt et Hbc Hbt) as [Hal HK].
  destruct (bounded_spec mc ec Hbc) as (_ & Hec & _).
  destruct (bounded_spec mt et Hbt) as (_ & Het & _).
  pose proof (scaled_mul mc ec mt et ltac:(unfold scale; lia) ltac:(unfold scale; lia) HK) as Hm.
  pose proof (scaled_pos mc ec ltac:(unfold scale; lia)) as Hpc.
  pose proof scale_pos as HKp.
  assert (Hv : scaled (Zpos (mc * mt)) (ec + et) <= scaled (Zpos mc) ec) by nia.
  pose proof (round_le_bound false (mc * mt) (ec + et) mc ec HK Hal Hbc Hv) as Hr.
  cbv zeta in Hr. rewrite <- (mul_finite_spec c t _ _ _ _ Ec Et) in Hr.
  apply (leb_posfin_intro _ c mc ec Ec).
  destruct Hr as [E | (m & e & E & _ & Hle')]; [left; eauto | right; eauto].
Qed.

Lemma mul_pos_const (c t : float) :
  PrimFloat.leb 1 c = true -> PrimFloat.ltb c infinity = true ->
  PrimFloat.ltb 0 t = true -> PrimFloat.leb t 1 = true ->
  PrimFloat.ltb 0 (c * t) = true.
Proof.
  intros Hc1 Hci Ht0 Ht1.
  destruct (leb_from_posfin 1 c _ _ Prim2SF_one Hc1)
    as [E | (mc & ec & Ec & Hbc & Hlec)].
  { rewrite ltb_spec, E in Hci. discriminate. }
  rewrite scaled_one in Hlec.
  destruct (nonneg_leb_posfin t 1 _ _ Prim2SF_one
              (pos_nonneg _ (ltb0_shape t Ht0)) Ht1)
    as [(s & Et) | (mt & et & Et & Hbt & Hle)].
  { pose proof (ltb0_shape t Ht0) as Hs. rewrite Et in Hs. inversion Hs. }
  destruct (mul_aligned mc ec mt et Hbc Hbt) as [Hal HK].
  destruct (bounded_spec mc ec Hbc) as (_ & Hec & _).
  destruct (bounded_spec mt et Hbt) as (_ & Het & _).
  pose proof (scaled_mul mc ec mt et ltac:(unfold scale; lia) ltac:(unfold scale; lia) HK) as Hm.
  pose proof (scaled_pos mt et ltac:(unfold scale; lia)) as Hpt.
  pose proof scale_pos as HKp.
  assert (Hv : scaled (Zpos mt) et <= scaled (Zpos (mc * mt)) (ec + et)) by nia.
  pose proof (round_ge_bound false (mc * mt) (ec + et) mt et HK Hal Hbt Hv) as Hr.
  cbv zeta in Hr. rewrite <- (mul_finite_spec c t _ _ _ _ Ec Et) in Hr.
  apply shape_ltb0.
  destruct Hr as [E | (m & e & E & _ & _)]; rewrite E.
  - constructor.
  - constructor. exact (valid_finite _ _ _ _ E).
Qed.

(** c <= y * k for c <= y and 1 <= k *)
Lemma mul_ge (c y k : float) :
  PrimFloat.ltb 0 c = true -> PrimFloat.ltb c infinity = true ->
  PrimFloat.leb c y = true -> PrimFloat.leb 1 k = true ->
  PrimFloat.leb c (y * k) = true.
Proof.
  intros Hc0 Hci Hy Hk.
  destruct (posfin_shape c Hc0 Hci) as (mc & ec & Ec & Hbc).
  apply (leb_to_posfin c _ mc ec Ec).
  destruct (leb_from_posfin c y _ _ Ec Hy) as [Ey | (my & ey & Ey & Hby & Hley)];
    destruct (leb_from_posfin 1 k _ _ Prim2SF_one Hk)
      as [Ek | (mk & ek & Ek & Hbk & Hlek)].
  - left. rewrite mul_spec, Ey, Ek. reflexivity.
  - left. rewrite mul_spec, Ey, Ek. reflexivity.
  - left. rewrite mul_spec, Ey, Ek. reflexivity.
  - rewrite scaled_one in Hlek.
    destruct (mul_aligned my ey mk ek Hby Hbk) as [Hal HK].
    destruct (bounded_spec my ey Hby) as (_ & Hey & _).
    destruct (bounded_spec mk ek Hbk) as (_ & Hek & _).
    pose proof (scaled_mul my ey mk ek ltac:(unfold scale; lia) ltac:(unfold scale; lia) HK)
      as Hm.
    pose proof (scaled_pos my ey ltac:(unfold scale; lia)) as Hpy.
    pose proof scale_pos as HKp.
    assert (Hv : scaled (Zpos mc) ec <= scaled (Zpos (my * mk)) (ey + ek)) by nia.
    pose proof (round_ge_bound false (my * mk) (ey + ek) mc ec HK Hal Hbc Hv) as Hr.
    cbv zeta in Hr. rewrite <- (mul_finite_spec y k _ _ _ _ Ey Ek) in Hr.
    destruct Hr as [E | (m & e & E & _ & Hle')]; [left; assumption | right; eauto].
Qed.

(** 0 <= c * p for a positive finite c and 0 <= p *)
Lemma mul_const_nonneg (c p : float) :
  PrimFloat.ltb 0 c = true -> PrimFloat.ltb c infinity = true ->
  PrimFloat.leb 0 p = true ->
  PrimFloat.leb 0 (c * p) = true.
Proof.
  intros Hc0 Hci Hp.
  destruct (posfin_shape c Hc0 Hci) as (mc & ec & Ec & Hbc).
  apply shape_leb0.
  pose proof (Prim2SF_valid (c * p)) as Hv.
  pose proof (leb0_shape p Hp) as Hs.
  rewrite mul_spec, Ec in *.
  inversion Hs as [s E | m e Hb E | E]; rewrite <- E in *; cbn in *.
  - constructor.
  - pose proof (binary_round_aux_signed false (Zpos (mc * m)) (ec + e) loc_Exact
                  ltac:(lia)) as Hsg.
    change (SF64mul (S754_finite false mc ec) (S754_finite false m e))
      with (binary_round_aux prec emax false (Zpos (mc * m)) (ec + e) loc_Exact)
      in *.
    inversion Hsg as [E' | m' e' E' | E']; rewrite <- E' in *; constructor.
    exact Hv.
  - constructor.
Qed.

Lemma aligned_scaled m e ez :
  - scale <= ez -> ez <= e -> scaled (Zpos (aligned m e ez)) ez = scaled (Zpos m) e.
Proof.
  intros HK Hle. unfold aligned.
  pose proof (shl_align_spec m e ez) as H.
  destruct (shl_align m e ez) as [p' e2]. cbn [fst].
  destruct H as (_ & H1 & _ & Hv & _). specialize (H1 Hle). subst e2.
  apply scaled_shl; assumption.
Qed.

Lemma normalize_pos_ge M e mb eb :
  -1074 <= e -> bounded prec emax mb eb = true ->
  scaled (Zpos mb) eb <= scaled (Zpos M) e ->
  let r := binary_normalize prec emax (Zpos M) e false in
  r = S754_infinity false \/
  exists m e', r = S754_finite false m e' /\
               scaled (Zpos mb) eb <= scaled (Zpos m) e'.
Proof.
  intros He Hb Hle r. unfold r, binary_normalize.
  destruct (binary_round_as_aux false M e He) as (p' & e' & Hr & HK & Hal & Hv).
  rewrite Hr. rewrite <- Hv in Hle.
  destruct (round_ge_bound false p' e' mb eb HK Hal Hb Hle)
    as [E | (m & e2 & E & _ & Hle')]; [left; exact E | right; eauto].
Qed.

Lemma normalize_pos_le M e mb eb :
  -1074 <= e -> bounded prec emax mb eb = true ->
  scaled (Zpos M) e <= scaled (Zpos mb) eb ->
  let r := binary_normalize prec emax (Zpos M) e false in
  r = S754_zero false \/
  exists m e', r = S754_finite false m e' /\
               scaled (Zpos m) e' <= scaled (Zpos mb) eb.
Proof.
  intros He Hb Hle r. unfold r, binary_normalize.
  destruct (binary_round_as_aux false M e He) as (p' & e' & Hr & HK & Hal & Hv).
  rewrite Hr. rewrite <- Hv in Hle.
  destruct (round_le_bound false p' e' mb eb HK Hal Hb Hle)
    as [E | (m & e2 & E & _ & Hle')]; [left; exact E | right; eauto].
Qed.

Lemma normalize_signed M e :
  M <> 0 ->
  signed (M <? 0) (binary_normalize prec emax M e false).
Proof.
  intros HM. unfold binary_normalize, binary_round.
  destruct M as [|p|p]; [congruence| |];
    destruct (shl_align p e _) as [mz ez];
    apply binary_round_aux_signed; lia.
Qed.

Lemma normalize_not_nan M e sz :
  binary_normalize prec emax M e sz <> S754_nan.
Proof.
  unfold binary_normalize, binary_round.
  destruct M as [|p|p]; [discriminate| |];
    destruct (shl_align p e _) as [mz ez];
    match goal with
    | |- binary_round_aux _ _ ?s ?m ?e' ?l <> _ =>
        pose proof (binary_round_aux_signed s m e' l ltac:(lia)) as H
    end; inversion H; congruence.
Qed.

Lemma add_finite_spec x y mx ex my ey :
  Prim2SF x = S754_finite false mx ex ->
  Prim2SF y = S754_finite false my ey ->
  Prim2SF (x + y)%float
  = binary_normalize prec emax
      (Zpos (aligned mx ex (Z.min ex ey) + aligned my ey (Z.min ex ey)))
      (Z.min ex ey) false.
Proof. intros Hx Hy. rewrite add_spec, Hx, Hy. reflexivity. Qed.

Lemma sub_finite_spec x y mx ex my ey :
  Prim2SF x = S754_finite false mx ex ->
  Prim2SF y = S754_finite false my ey ->
  Prim2SF (x - y)%float
  = binary_normalize prec emax
      (Zpos (aligned mx ex (Z.min ex ey)) - Zpos (aligned my ey (Z.min ex ey)))
      (Z.min ex ey) false.
Proof. intros Hx Hy. rewrite sub_spec, Hx, Hy. reflexivity. Qed.

Lemma scaled_add a b e : scaled (a + b) e = scaled a e + scaled b e.
Proof. unfold scaled. ring. Qed.

Lemma scaled_sub a b e : scaled (a - b) e = scaled a e - scaled b e.
Proof. unfold scaled. ring. Qed.

(** c <= a + b for 0 <= a and c <= b *)
Lemma add_ge (c a b : float) :
  PrimFloat.ltb 0 c = true -> PrimFloat.ltb c infinity = true ->
  PrimFloat.leb 0 a = true -> PrimFloat.leb c b = true ->
  PrimFloat.leb c (a + b) = true.
Proof.
  intros Hc0 Hci Ha Hb.
  destruct (posfin_shape c Hc0 Hci) as (mc & ec & Ec & Hbc).
  apply (leb_to_posfin c _ mc ec Ec).
  pose proof (leb0_shape a Ha) as Hsa.
  destruct (leb_from_posfin c b _ _ Ec Hb) as [Eb | (mb & eb & Eb & Hbb & Hleb)];
    inversion Hsa as [s Ea | ma ea Hba Ea | Ea]; symmetry in Ea.
  - left. rewrite add_spec, Ea, Eb. reflexivity.
  - left. rewrite add_spec, Ea, Eb. reflexivity.
  - left. rewrite add_spec, Ea, Eb. reflexivity.
  - right. exists mb, eb. split; [|exact Hleb].
    rewrite add_spec, Ea, Eb. reflexivity.
  - destruct (bounded_spec ma ea Hba) as (_ & Hea & _).
    destruct (bounded_spec mb eb Hbb) as (_ & Heb & _).
    set (ez := Z.min ea eb).
    assert (Hez : -1074 <= ez /\ ez <= ea /\ ez <= eb) by (unfold ez; lia).
    pose proof (aligned_scaled ma ea ez ltac:(unfold scale; lia) ltac:(lia)) as Hva.
    pose proof (aligned_scaled mb eb ez ltac:(unfold scale; lia) ltac:(lia)) as Hvb.
    pose proof (scaled_pos ma ea ltac:(unfold scale; lia)) as Hpa.
    assert (Hv : scaled (Zpos mc) ec
                 <= scaled (Zpos (aligned ma ea ez + aligned mb eb ez)) ez).
    { rewrite Pos2Z.inj_add, scaled_add, Hva, Hvb. lia. }
    pose proof (normalize_pos_ge _ ez mc ec ltac:(lia) Hbc Hv) as Hr.
    cbv zeta in Hr. unfold ez in Hr.
    rewrite <- (add_finite_spec a b _ _ _ _ Ea Eb) in Hr.
    destruct Hr as [E | (m & e & E & Hle')]; [left; exact E | right; eauto].
  - left. rewrite add_spec, Ea, Eb. reflexivity.
Qed.

(** 0 < 1 - q <= 1 for 0 <= q < 1 *)
Lemma one_minus_bounds (q : float) :
  PrimFloat.leb 0 q = true -> PrimFloat.ltb q 1 = true ->
  PrimFloat.ltb 0 (1 - q) = true /\ PrimFloat.leb (1 - q) 1 = true.
Proof.
  intros Hq0 Hq1.
  destruct (nonneg_ltb_posfin q 1 _ _ Prim2SF_one (leb0_shape q Hq0) Hq1)
    as [(s & Eq) | (mq & eq & Eq & Hbq & Hlt)].
  - assert (E : Prim2SF (1 - q) = Prim2SF 1).
    { rewrite sub_spec, Eq, Prim2SF_one. reflexivity. }
    apply Prim2SF_inj in E. rewrite E. split; reflexivity.
  - rewrite scaled_one in Hlt.
    destruct (bounded_spec mq eq Hbq) as (_ & Heq & _).
    set (m1 := 4503599627370496%positive) in *.
    set (ez := Z.min (-52) eq).
    assert (Hez : -1074 <= ez /\ ez <= -52 /\ ez <= eq) by (unfold ez; lia).
    pose proof (aligned_scaled m1 (-52) ez ltac:(unfold scale; lia) ltac:(lia)) as Hv1.
    pose proof (aligned_scaled mq eq ez ltac:(unfold scale; lia) ltac:(lia)) as Hvq.
    fold m1 in Hv1. change (scaled (Zpos m1) (-52)) with (2 ^ scale) in Hv1.
    pose proof (pow2_pos (ez + scale) ltac:(unfold scale; lia)) as Hp.
    pose proof (scaled_pos mq eq ltac:(unfold scale; lia)) as Hpq.
    assert (HM : 0 < Zpos (aligned m1 (-52) ez) - Zpos (aligned mq eq ez)).
    { apply Z.lt_0_sub. apply Z.mul_lt_mono_pos_r with (2 ^ (ez + scale)); [exact Hp|].
      fold (scaled (Zpos (aligned mq eq ez)) ez). fold (scaled (Zpos (aligned m1 (-52) ez)) ez).
      rewrite Hv1, Hvq. exact Hlt. }
    destruct (Zpos (aligned m1 (-52) ez) - Zpos (aligned mq eq ez)) as [|M|M] eqn:EM;
      try lia.
    assert (HvM : scaled (Zpos M) ez = 2 ^ scale - scaled (Zpos mq) eq).
    { rewrite <- EM, scaled_sub, Hv1, Hvq. reflexivity. }
    assert (Hb1 : bounded prec emax m1 (-52) = true) by reflexivity.
    assert (Hbmin : bounded prec emax 1 (-1074) = true) by reflexivity.
    assert (Hle1 : scaled (Zpos M) ez <= scaled (Zpos m1) (-52)).
    { change (scaled (Zpos m1) (-52)) with (2 ^ scale). lia. }
    assert (Hgemin : scaled 1 (-1074) <= scaled (Zpos M) ez).
    { unfold scaled. rewrite Z.mul_1_l.
      pose proof (pow2_le (-1074 + scale) (ez + scale) ltac:(unfold scale; lia)). nia. }
    pose proof (normalize_pos_le M ez m1 (-52) ltac:(lia) Hb1 Hle1) as Hle.
    pose proof (normalize_pos_ge M ez 1 (-1074) ltac:(lia) Hbmin Hgemin) as Hge.
    cbv zeta in Hle, Hge.
    assert (Hspec : Prim2SF (1 - q)
                    = binary_normalize prec emax (Zpos M) ez false).
    { rewrite (sub_finite_spec 1 q _ _ _ _ Prim2SF_one Eq). fold m1.
      fold ez. rewrite EM. reflexivity. }
    rewrite <- Hspec in Hle, Hge.
    destruct Hge as [Ei | (m & e & E & Hge)].
    { destruct Hle as [Ez | (m' & e' & E' & _)]; congruence. }
    split.
    + apply shape_ltb0. rewrite E. constructor. exact (valid_finite _ _ _ _ E).
    + apply (leb_posfin_intro _ 1 _ _ Prim2SF_one). right.
      destruct Hle as [Ez | (m' & e' & E' & Hle)]; [congruence|].
      exists m', e'. split; [exact E'|]. exact Hle.
Qed.

Lemma SFcompare_antisym x y :
  SFcompare y x =
    match SFcompare x y with Some c => Some (CompOpp c) | None => None end.
Proof.
  destruct x as [sx|sx| |sx mx ex], y as [sy|sy| |sy my ey];
    try destruct sx; try destruct sy; try reflexivity; cbn [SFcompare];
    f_equal; rewrite (Z.compare_antisym ex ey);
    destruct (ex ?= ey); cbn [CompOpp]; try reflexivity;
    change (Pos.compare_cont Eq my mx) with (Pos.compare my mx);
    change (Pos.compare_cont Eq mx my) with (Pos.compare mx my);
    rewrite (Pos.compare_antisym mx my); try reflexivity;
    rewrite ?CompOpp_involutive; reflexivity.
Qed.

Lemma SFcompare_not_nan x y :
  x <> S754_nan -> y <> S754_nan -> SFcompare x y <> None.
Proof.
  destruct x as [sx|sx| |sx mx ex], y as [sy|sy| |sy my ey];
    try congruence; intros _ _; cbn [SFcompare];
    try destruct sx; try destruct sy; discriminate.
Qed.

Lemma not_leb_ltb (a b : float) :
  Prim2SF a <> S754_nan -> Prim2SF b <> S754_nan ->
  PrimFloat.leb a b = false -> PrimFloat.ltb b a = true.
Proof.
  intros Ha Hb. rewrite leb_spec, ltb_spec. unfold SFleb, SFltb.
  rewrite (SFcompare_antisym (Prim2SF a) (Prim2SF b)).
  pose proof (SFcompare_not_nan _ _ Ha Hb) as Hn.
  destruct (SFcompare (Prim2SF a) (Prim2SF b)) as [[]|]; cbn;
    congruence.
Qed.

Lemma nonneg_not_nan s : nonneg_shape s -> s <> S754_nan.
Proof. intros H. inversion H; discriminate. Qed.

Lemma pos_not_nan s : pos_shape s -> s <> S754_nan.
Proof. intros H. inversion H; discriminate. Qed.

Lemma eqb_self_not_nan x : PrimFloat.eqb x x = true -> Prim2SF x <> S754_nan.
Proof. rewrite FloatAxioms.eqb_spec. intros H E. rewrite E in H. discriminate. Qed.

(** |x| for a number *)
Lemma abs_shape x :
  Prim2SF x <> S754_nan ->
  signed false (Prim2SF (PrimFloat.abs x)) /\
  nonneg_shape (Prim2SF (PrimFloat.abs x)).
Proof.
  intros Hn. pose proof (Prim2SF_valid (PrimFloat.abs x)) as Hv.
  rewrite abs_spec in *.
  destruct (Prim2SF x) as [s|s| |s m e]; [| |congruence|]; cbn in *; split;
    constructor. exact Hv.
Qed.

(** finite - finite is a number *)
Lemma isfinite_shape x :
  isfinite x = true ->
  (exists s, Prim2SF x = S754_zero s) \/
  (exists s m e, Prim2SF x = S754_finite s m e).
Proof.
  unfold isfinite. rewrite ltb_spec, abs_spec.
  change (Prim2SF infinity) with (S754_infinity false).
  destruct (Prim2SF x) as [s|s| |s m e]; cbn; try discriminate; eauto.
Qed.

Lemma sub_finite_not_nan a b :
  isfinite a = true -> isfinite b = true -> Prim2SF (a - b) <> S754_nan.
Proof.
  intros Ha Hb. rewrite sub_spec.
  destruct (isfinite_shape a Ha) as [(sa & Ea) | (sa & ma & ea & Ea)];
    destruct (isfinite_shape b Hb) as [(sb & Eb) | (sb & mb & eb & Eb)];
    rewrite Ea, Eb.
  - destruct sa, sb; discriminate.
  - discriminate.
  - discriminate.
  - unfold SF64sub, SFsub. apply normalize_not_nan.
Qed.

(** a - b >= 0 when a > b >= 0 *)
Lemma sub_nonneg (a b : float) :
  signed false (Prim2SF a) ->
  PrimFloat.leb 0 b = true -> PrimFloat.leb a b = false ->
  PrimFloat.leb 0 (a - b) = true.
Proof.
  intros Hsa Hb Hab. apply shape_leb0.
  pose proof (leb0_shape b Hb) as Hsb.
  pose proof (Prim2SF_valid (a - b)) as Hv.
  pose proof (Prim2SF_valid a) as Hva.
  rewrite leb_spec in Hab. rewrite sub_spec in *.
  inversion Hsa as [Ea | ma ea Ea | Ea]; symmetry in Ea; rewrite Ea in *;
    inversion Hsb as [s Eb | mb eb Hbb Eb | Eb]; symmetry in Eb;
    rewrite Eb in *; try discriminate Hab.
  - constructor. exact Hva.
  - cbn in Hva. rewrite (SFleb_valid _ _ _ _ Hva Hbb) in Hab.
    apply Z.leb_gt in Hab.
    destruct (bounded_spec ma ea Hva) as (_ & Hea & _).
    destruct (bounded_spec mb eb Hbb) as (_ & Heb & _).
    set (ez := Z.min ea eb) in *.
    assert (Hez : -1074 <= ez /\ ez <= ea /\ ez <= eb) by (unfold ez; lia).
    pose proof (aligned_scaled ma ea ez ltac:(unfold scale; lia) ltac:(lia)) as Hv1.
    pose proof (aligned_scaled mb eb ez ltac:(unfold scale; lia) ltac:(lia)) as Hv2.
    pose proof (pow2_pos (ez + scale) ltac:(unfold scale; lia)) as Hp.
    assert (HM : 0 < Zpos (aligned ma ea ez) - Zpos (aligned mb eb ez)).
    { apply Z.lt_0_sub. apply Z.mul_lt_mono_pos_r with (2 ^ (ez + scale)); [exact Hp|].
      fold (scaled (Zpos (aligned mb eb ez)) ez). fold (scaled (Zpos (aligned ma ea ez)) ez).
      rewrite Hv1, Hv2. exact Hab. }
    change (SF64sub (S754_finite false ma ea) (S754_finite false mb eb))
      with (binary_normalize prec emax
              (Zpos (aligned ma ea ez) - Zpos (aligned mb eb ez)) ez false) in *.
    pose proof (normalize_signed (Zpos (aligned ma ea ez) - Zpos (aligned mb eb ez)) ez
                  ltac:(lia)) as Hsg.
    replace (Zpos (aligned ma ea ez) - Zpos (aligned mb eb ez) <? 0) with false in Hsg
      by (symmetry; apply Z.ltb_ge; lia).
    remember (binary_normalize prec emax
                (Zpos (aligned ma ea ez) - Zpos (aligned mb eb ez)) ez false) as r.
    destruct Hsg; constructor. exact Hv.
  - constructor.
  - constructor.
Qed.

(** x / y >= 0 for x >= 0 and a positive finite y *)
Lemma div_nonneg (x y : float) :
  PrimFloat.leb 0 x = true ->
  PrimFloat.ltb 0 y = true -> PrimFloat.ltb y infinity = true ->
  PrimFloat.leb 0 (x / y) = true.
Proof.
  intros Hx Hy0 Hyi. apply shape_leb0.
  destruct (posfin_shape y Hy0 Hyi) as (my & ey & Ey & Hby).
  pose proof (leb0_shape x Hx) as Hsx.
  pose proof (Prim2SF_valid (x / y)) as Hv.
  rewrite div_spec, Ey in *.
  inversion Hsx as [s Ex | mx ex Hbx Ex | Ex]; symmetry in Ex; rewrite Ex in *.
  - constructor.
  - unfold SF64div, SFdiv in *.
    destruct (SFdiv_core_binary prec emax (Zpos mx) ex (Zpos my) ey)
      as [[mz ez] lz] eqn:Hcore.
    assert (Hmz : 0 <= mz).
    { unfold SFdiv_core_binary in Hcore.
      match type of Hcore with
      | (let '(q, r) := Z.div_eucl ?a ?b in _) = _ =>
          assert (Ha : 0 <= a);
          [| pose proof (Z.div_pos a b Ha ltac:(lia)) as Hq;
             unfold Z.div in Hq; destruct (Z.div_eucl a b) as [q r];
             cbn [fst] in Hq; injection Hcore as <- _ _; exact Hq]
      end.
      destruct (ex - ey - _); try lia.
      apply Z.shiftl_nonneg. lia. }
    pose proof (binary_round_aux_signed (xorb false false) mz ez lz Hmz) as Hsg.
    remember (binary_round_aux prec emax (xorb false false) mz ez lz) as r.
    cbn [xorb] in Hsg. destruct Hsg; constructor. exact Hv.
  - constructor.
Qed.

(** transitivity facts on shapes *)
Lemma pos_leb_pos (c b : float) :
  PrimFloat.ltb 0 c = true -> PrimFloat.leb c b = true ->
  PrimFloat.ltb 0 b = true.
Proof.
  intros Hc Hcb. apply shape_ltb0.
  pose proof (ltb0_shape c Hc) as Hs. pose proof (Prim2SF_valid b) as Hv.
  rewrite leb_spec in Hcb.
  inversion Hs as [m e Hbd E | E]; rewrite <- E in Hcb;
    destruct (Prim2SF b) as [s|[]| |[] mb eb]; cbn in Hcb; try discriminate;
    constructor; exact Hv.
Qed.

Lemma pos_eqb_zero (b : float) :
  PrimFloat.ltb 0 b = true -> PrimFloat.eqb b 0 = false.
Proof.
  intros Hb. pose proof (ltb0_shape b Hb) as Hs. rewrite FloatAxioms.eqb_spec.
  change (Prim2SF 0) with (S754_zero false).
  inversion Hs; reflexivity.
Qed.

Lemma pos_leb_zero (b : float) :
  PrimFloat.ltb 0 b = true -> PrimFloat.leb b 0 = false.
Proof.
  intros Hb. pose proof (ltb0_shape b Hb) as Hs. rewrite leb_spec.
  change (Prim2SF 0) with (S754_zero false).
  inversion Hs; reflexivity.
Qed.

Lemma add_comm (a b : float) : (a + b = b + a)%float.
Proof.
  apply Prim2SF_inj. rewrite !add_spec. unfold SF64add, SFadd.
  destruct (Prim2SF a) as [sa|sa| |sa ma ea], (Prim2SF b) as [sb|sb| |sb mb eb];
    try destruct sa; try destruct sb; try reflexivity;
    rewrite (Z.min_comm eb ea), Z.add_comm; reflexivity.
Qed.

(** c <= a + b for c <= a and 0 <= b *)
Lemma add_ge_l (c a b : float) :
  PrimFloat.ltb 0 c = true -> PrimFloat.ltb c infinity = true ->
  PrimFloat.leb c a = true -> PrimFloat.leb 0 b = true ->
  PrimFloat.leb c (a + b) = true.
Proof. intros. rewrite add_comm. apply add_ge; assumption. Qed.

(** min(b, cap) of two non-negative numbers *)
Lemma min_nonneg (b cap : float) :
  PrimFloat.leb 0 b = true -> PrimFloat.leb 0 cap = true ->
  PrimFloat.leb 0 (if PrimFloat.ltb cap b then cap else b) = true.
Proof. intros Hb Hc. destruct (PrimFloat.ltb cap b); assumption. Qed.

Lemma pos_nonneg_leb (x : float) :
  PrimFloat.ltb 0 x = true -> PrimFloat.leb 0 x = true.
Proof. intros H. apply shape_leb0, pos_nonneg, ltb0_shape, H. Qed.

(** Comparisons and division around zero and NaN. *)

Lemma ltb_zero_leb_zero (m : float) :
  PrimFloat.ltb 0 m = true -> PrimFloat.leb m 0 = false.
Proof.
  rewrite ltb_spec, leb_spec.
  change (Prim2SF 0) with (S754_zero false).
  destruct (Prim2SF m) as [s|s| |s mm e]; try destruct s; cbn;
    congruence.
Qed.

Lemma incomparable_with_zero_is_nan (m : float) :
  PrimFloat.ltb 0 m = false -> PrimFloat.leb m 0 = false ->
  Prim2SF m = S754_nan.
Proof.
  rewrite ltb_spec, leb_spec.
  change (Prim2SF 0) with (S754_zero false).
  destruct (Prim2SF m) as [s|s| |s mm e]; try destruct s; cbn;
    congruence.
Qed.

Lemma div_nan_r (t m : float) :
  Prim2SF m = S754_nan -> Prim2SF (t / m) = S754_nan.
Proof.
  intros H. rewrite div_spec, H. unfold SF64div, SFdiv.
  destruct (Prim2SF t); reflexivity.
Qed.

Lemma leb_nan_r (c x : float) :
  Prim2SF x = S754_nan -> PrimFloat.leb c x = false.
Proof.
  intros H. rewrite leb_spec, H. unfold SFleb, SFcompare.
  destruct (Prim2SF c); reflexivity.
Qed.

End FloatFacts.

(** ** The state computation, block by block *)

Ltac Zbool :=
  repeat match goal with
  | H : (_ <? _) = true |- _ => apply Z.ltb_lt in H
  | H : (_ <? _) = false |- _ => apply Z.ltb_ge in H
  | H : (_ <=? _) = true |- _ => apply Z.leb_le in H
  | H : (_ <=? _) = false |- _ => apply Z.leb_gt in H
  | H : negb _ = true |- _ => apply negb_true_iff in H
  | H : negb _ = false |- _ => apply negb_false_iff in H
  end.

Section EngineFacts.

Variable pow : float -> float -> result float.

(** What each block of [process_note_result] does to the state. *)

Lemma score_note_run b j c_cfg f_cfg st :
  score_note pow b j c_cfg f_cfg st =
    if in_BAD_MISS j then (set_current_combo 0 st, Ok 0.0%float)
    else
      match int_pow_float pow (current_combo st + 1) (growth_p c_cfg) with
      | Raise e => (combo_up st, Raise e)
      | Ok p =>
          if 0 <? fever_active_notes st
          then (set_fever_active_notes (fever_active_notes st - 1) (combo_up st),
                Ok (bonus_total c_cfg b p * score_multiplier f_cfg)%float)
          else (combo_up st, Ok (bonus_total c_cfg b p))
      end.
Proof.
  unfold score_note, bind, lift, get, modify, ret, is_fever_active, combo_up,
    bonus_total.
  destruct (in_BAD_MISS j); [reflexivity|]. cbn.
  destruct (int_pow_float pow (current_combo st + 1) (growth_p c_cfg));
    [|reflexivity].
  destruct (0 <? fever_active_notes st); reflexivity.
Qed.

Lemma charge_gauge_run j f_cfg st :
  charge_gauge j f_cfg st = (charged f_cfg j st, Ok tt).
Proof.
  unfold charge_gauge, charged, bind, lift, get, modify, ret, is_fever_active.
  destruct (0 <? fever_active_notes st); cbn; [reflexivity|].
  destruct (gauge_max f_cfg <=? fever_gauge st + fill_amt f_cfg j); reflexivity.
Qed.

Lemma possible_score_run j c_cfg f_cfg st :
  possible_score pow j c_cfg f_cfg st =
    (st, match int_pow_float pow (sim_combo j st) (growth_p c_cfg) with
         | Ok p => Ok (possible_of c_cfg f_cfg st p)
         | Raise e => Raise e
         end).
Proof.
  unfold possible_score, possible_of, sim_combo, bind, lift, get, ret,
    is_fever_active.
  destruct (int_pow_float pow _ (growth_p c_cfg)); reflexivity.
Qed.

Lemma process_note_result_run note t_cfg s_cfg c_cfg f_cfg st :
  process_note_result pow note t_cfg s_cfg c_cfg f_cfg st =
    match calculate_base_score note t_cfg s_cfg with
    | Raise e => (st, Raise e)
    | Ok (b, j) =>
        match score_note pow b j c_cfg f_cfg st with
        | (s1, Raise e) => (s1, Raise e)
        | (s1, Ok final) =>
            let s2 := charged f_cfg j s1 in
            let s3 := set_total_score (total_score s2 + final)%float s2 in
            match int_pow_float pow (sim_combo j s3) (growth_p c_cfg) with
            | Raise e => (s3, Raise e)
            | Ok p =>
                let s4 :=
                  set_max_possible_score
                    (max_possible_score s3 + possible_of c_cfg f_cfg s3 p)%float
                    s3 in
                (s4, Ok (record_of note f_cfg b final j s4))
            end
        end
    end.
Proof.
  unfold process_note_result.
  unfold bind at 1. unfold lift at 1.
  destruct (calculate_base_score note t_cfg s_cfg) as [[b j]|e]; [|reflexivity].
  cbn [fst snd]. unfold bind at 1.
  destruct (score_note pow b j c_cfg f_cfg st) as [s1 [final|e]]; [|reflexivity].
  unfold bind at 1. rewrite charge_gauge_run.
  unfold bind at 1. unfold modify at 1.
  unfold bind at 1. rewrite possible_score_run.
  cbv zeta.
  destruct (int_pow_float pow _ (growth_p c_cfg)); reflexivity.
Qed.

Lemma charged_fever f_cfg j s :
  (fever_gauge (charged f_cfg j s), fever_active_notes (charged f_cfg j s)) =
    if 0 <? fever_active_notes s then (fever_gauge s, fever_active_notes s)
    else if gauge_max f_cfg <=? fever_gauge s + fill_amt f_cfg j
         then (0, fever_duration_notes f_cfg)
         else (fever_gauge s + fill_amt f_cfg j, fever_active_notes s).
Proof.
  unfold charged. destruct (0 <? fever_active_notes s); [reflexivity|].
  cbv zeta.
  destruct (gauge_max f_cfg <=? fever_gauge s + fill_amt f_cfg j); reflexivity.
Qed.

Lemma process_note_result_fever note t_cfg s_cfg c_cfg f_cfg st b j :
  calculate_base_score note t_cfg s_cfg = Ok (b, j) ->
  let st' := fst (process_note_result pow note t_cfg s_cfg c_cfg f_cfg st) in
  (fever_gauge st', fever_active_notes st') =
    fever_after f_cfg j
      (is_ok (int_pow_float pow (current_combo st + 1) (growth_p c_cfg))) st.
Proof.
  intros H. cbv zeta. rewrite process_note_result_run, H, score_note_run.
  unfold fever_after.
  assert (Hkeep : forall s2 final,
    let s3 := set_total_score (total_score s2 + final)%float s2 in
    let out :=
      match int_pow_float pow (sim_combo j s3) (growth_p c_cfg) with
      | Ok p =>
          let s4 :=
            set_max_possible_score
              (max_possible_score s3 + possible_of c_cfg f_cfg s3 p)%float s3 in
          (s4, Ok (record_of note f_cfg b final j s4))
      | Raise e => (s3, Raise e)
      end in
    (fever_gauge (fst out), fever_active_notes (fst out)) =
    (fever_gauge s2, fever_active_notes s2)).
  { intros s2 final. cbv zeta.
    destruct (int_pow_float pow _ (growth_p c_cfg)); reflexivity. }
  destruct (in_BAD_MISS j) eqn:Hj; cbn [negb andb].
  - cbv zeta. rewrite Hkeep, charged_fever. reflexivity.
  - destruct (int_pow_float pow (current_combo st + 1) (growth_p c_cfg))
      as [p|e]; cbn [is_ok negb]; [|reflexivity].
    destruct (0 <? fever_active_notes st) eqn:Hact; cbv zeta;
      rewrite Hkeep, charged_fever;
      cbn [fever_active_notes fever_gauge set_fever_active_notes combo_up
           set_max_combo set_current_combo];
      [reflexivity | rewrite Hact; reflexivity].
Qed.

Ltac fever_cases H :=
  unfold fever_after in H; cbv zeta in H;
  repeat match type of H with
  | context [in_BAD_MISS ?j] => destruct (in_BAD_MISS j) eqn:?
  | context [is_ok ?x] => destruct (is_ok x) eqn:?
  end;
  cbn [negb andb] in H;
  repeat (match type of H with
          | context [if ?c then _ else _] =>
              lazymatch c with
              | context [if _ then _ else _] => fail
              | _ => destruct c eqn:?
              end
          end; cbn [negb andb] in H);
  injection H as ? ?; Zbool.

Lemma process_note_result_raises note t_cfg s_cfg c_cfg f_cfg st e :
  calculate_base_score note t_cfg s_cfg = Raise e ->
  process_note_result pow note t_cfg s_cfg c_cfg f_cfg st = (st, Raise e).
Proof. intros H. rewrite process_note_result_run, H. reflexivity. Qed.

Lemma process_note_result_ok_bonus note t_cfg s_cfg c_cfg f_cfg st st' r b j :
  calculate_base_score note t_cfg s_cfg = Ok (b, j) ->
  in_BAD_MISS j = false ->
  process_note_result pow note t_cfg s_cfg c_cfg f_cfg st = (st', Ok r) ->
  is_ok (int_pow_float pow (current_combo st + 1) (growth_p c_cfg)) = true.
Proof.
  intros H Hj. rewrite process_note_result_run, H, score_note_run, Hj.
  destruct (int_pow_float pow (current_combo st + 1) (growth_p c_cfg));
    [reflexivity | discriminate].
Qed.

Lemma process_note_result_record note t_cfg s_cfg c_cfg f_cfg st st' r :
  process_note_result pow note t_cfg s_cfg c_cfg f_cfg st = (st', Ok r) ->
  exists b final j,
    calculate_base_score note t_cfg s_cfg = Ok (b, j) /\
    r = record_of note f_cfg b final j st'.
Proof.
  rewrite process_note_result_run.
  destruct (calculate_base_score note t_cfg s_cfg) as [[b j]|e];
    [|discriminate].
  destruct (score_note pow b j c_cfg f_cfg st) as [s1 [final|e]];
    [|discriminate].
  cbv zeta. destruct (int_pow_float pow _ (growth_p c_cfg)); [|discriminate].
  intros [= <- <-]. exists b, final, j. split; reflexivity.
Qed.


Lemma fill_amt_default j :
  0 <= fill_amt FeverConfig_default j <= 10 /\
  (in_BAD_MISS j = true -> fill_amt FeverConfig_default j = 0).
Proof. destruct j; cbn; split; (lia || discriminate || reflexivity). Qed.

Lemma fever_inv_step note t_cfg s_cfg c_cfg st :
  fever_inv st ->
  fever_inv (fst (process_note_result pow note t_cfg s_cfg c_cfg
                    FeverConfig_default st)).
Proof.
  unfold fever_inv. cbn [gauge_max fever_duration_notes FeverConfig_default].
  intros (Hg & Ha & Hz).
  destruct (calculate_base_score note t_cfg s_cfg) as [[b j]|e] eqn:Hc.
  - pose proof (process_note_result_fever note t_cfg s_cfg c_cfg
                  FeverConfig_default st b j Hc) as Hf.
    cbv zeta in Hf. destruct (fill_amt_default j) as [Hfill Hbad].
    fever_cases Hf;
      cbn [gauge_max fever_duration_notes FeverConfig_default] in *; lia.
  - rewrite (process_note_result_raises _ _ _ _ _ _ _ Hc). cbn [fst]. auto.
Qed.

Lemma reachable_fever_inv st : reachable pow st -> fever_inv st.
Proof.
  induction 1 as [|st note t_cfg s_cfg c_cfg _ IH].
  - unfold fever_inv. cbn. lia.
  - apply fever_inv_step, IH.
Qed.

(** C5.  In a session run with the default fever configuration the gauge
    stays in [[0, gauge_max)]; the credit counter goes up only from 0, on a
    note whose fill takes the gauge to [gauge_max] or beyond, and then the
    gauge is reset to 0 and the counter set to [fever_duration_notes]; the
    counter goes down by at most one per note, only on a note judged neither
    BAD nor MISS, and a BAD/MISS note leaves it as it is. *)
Theorem fever_invariants_of_session note t_cfg s_cfg c_cfg st :
  reachable pow st ->
  let f := FeverConfig_default in
  let st' := fst (process_note_result pow note t_cfg s_cfg c_cfg f st) in
  0 <= fever_gauge st < gauge_max f /\
  0 <= fever_gauge st' < gauge_max f /\
  0 <= fever_active_notes st /\
  (fever_active_notes st < fever_active_notes st' ->
     fever_active_notes st = 0 /\
     (exists b j, calculate_base_score note t_cfg s_cfg = Ok (b, j) /\
        gauge_max f <= fever_gauge st + fill_amt f j) /\
     fever_gauge st' = 0 /\
     fever_active_notes st' = fever_duration_notes f) /\
  fever_active_notes st - 1 <= fever_active_notes st' /\
  (fever_active_notes st' < fever_active_notes st ->
     exists b j, calculate_base_score note t_cfg s_cfg = Ok (b, j) /\
       in_BAD_MISS j = false) /\
  (forall b j, calculate_base_score note t_cfg s_cfg = Ok (b, j) ->
     in_BAD_MISS j = true ->
     fever_active_notes st' = fever_active_notes st).
Proof.
  intros Hreach f st'.
  pose proof (reachable_fever_inv st Hreach) as Hinv.
  pose proof (fever_inv_step note t_cfg s_cfg c_cfg st Hinv) as Hinv'.
  fold f st' in Hinv'. unfold fever_inv in Hinv, Hinv'. fold f in Hinv, Hinv'.
  destruct Hinv as (Hg & Ha & Hz). destruct Hinv' as (Hg' & Ha' & Hz').
  assert (Hmax : gauge_max f = 100) by reflexivity.
  assert (Hdur : fever_duration_notes f = 10) by reflexivity.
  destruct (calculate_base_score note t_cfg s_cfg) as [[b j]|e] eqn:Hc.
  - pose proof (process_note_result_fever note t_cfg s_cfg c_cfg f st b j Hc)
      as Hf.
    cbv zeta in Hf. fold st' in Hf.
    destruct (fill_amt_default j) as [Hfill Hbad]. fold f in Hfill, Hbad.
    split; [lia|]. split; [lia|]. split; [lia|].
    split; [|split; [|split]].
    + intros Hup. split; [|split; [|split]].
      * fever_cases Hf; lia.
      * exists b, j. split; [reflexivity|]. fever_cases Hf; lia.
      * fever_cases Hf; lia.
      * fever_cases Hf; lia.
    + fever_cases Hf; lia.
    + intros Hdec. exists b, j. split; [reflexivity|].
      fever_cases Hf; try reflexivity; lia.
    + intros b' j' [= <- <-] Hj. fever_cases Hf; try discriminate; lia.
  - assert (Hst : st' = st).
    { unfold st'. rewrite (process_note_result_raises _ _ _ _ _ _ _ Hc).
      reflexivity. }
    rewrite Hst. repeat split; try lia; intros; try lia; discriminate.
Qed.

Lemma charged_keeps f_cfg j s :
  current_combo (charged f_cfg j s) = current_combo s /\
  max_combo (charged f_cfg j s) = max_combo s /\
  total_score (charged f_cfg j s) = total_score s /\
  max_possible_score (charged f_cfg j s) = max_possible_score s.
Proof.
  unfold charged. destruct (0 <? fever_active_notes s); [auto|]. cbv zeta.
  destruct (gauge_max f_cfg <=? _); cbn; auto.
Qed.

(** What a processed note does to the two totals. *)
Lemma process_note_result_totals note t_cfg s_cfg c_cfg f_cfg st st' r b j :
  calculate_base_score note t_cfg s_cfg = Ok (b, j) ->
  process_note_result pow note t_cfg s_cfg c_cfg f_cfg st = (st', Ok r) ->
  exists final p,
    snd (score_note pow b j c_cfg f_cfg st) = Ok final /\
    r_final_score r = Round1 final /\
    r_combo r = current_combo st' /\
    current_combo st' = (if in_BAD_MISS j then 0 else current_combo st + 1) /\
    max_combo st' =
      (if in_BAD_MISS j then max_combo st
       else Z.max (max_combo st) (current_combo st + 1)) /\
    total_score st' = (total_score st + final)%float /\
    int_pow_float pow (sim_combo j st') (growth_p c_cfg) = Ok p /\
    max_possible_score st' =
      (max_possible_score st + possible_of c_cfg f_cfg st' p)%float.
Proof.
  intros Hc. rewrite process_note_result_run, Hc.
  destruct (score_note pow b j c_cfg f_cfg st) as [s1 [final|e]] eqn:Hs;
    [|discriminate].
  cbv zeta.
  destruct (int_pow_float pow _ (growth_p c_cfg)) as [p|e] eqn:Hp;
    [|discriminate].
  intros [= <- <-]. exists final, p.
  rewrite score_note_run in Hs.
  assert (Hs1 : current_combo s1 = (if in_BAD_MISS j then 0 else current_combo st + 1)
          /\ max_combo s1 = (if in_BAD_MISS j then max_combo st
                             else Z.max (max_combo st) (current_combo st + 1))
          /\ total_score s1 = total_score st
          /\ max_possible_score s1 = max_possible_score st).
  { destruct (in_BAD_MISS j).
    - injection Hs as <- _. cbn. auto.
    - destruct (int_pow_float pow (current_combo st + 1) (growth_p c_cfg));
        [|discriminate].
      destruct (0 <? fever_active_notes st); injection Hs as <- _; cbn; auto. }
  destruct Hs1 as (Hcc & Hmc & Hts & Hmp).
  assert (Hch : current_combo (charged f_cfg j s1) = current_combo s1
          /\ max_combo (charged f_cfg j s1) = max_combo s1
          /\ total_score (charged f_cfg j s1) = total_score s1
          /\ max_possible_score (charged f_cfg j s1) = max_possible_score s1).
  { unfold charged. destruct (0 <? fever_active_notes s1); [auto|]. cbv zeta.
    destruct (gauge_max f_cfg <=? _); cbn; auto. }
  destruct Hch as (Hcc' & Hmc' & Hts' & Hmp').
  cbn [fst snd r_final_score r_combo record_of current_combo max_combo
       total_score max_possible_score set_max_possible_score set_total_score].
  rewrite Hcc', Hmc', Hts', Hmp', Hcc, Hmc, Hts, Hmp.
  split; [|repeat split; try reflexivity].
  { destruct (in_BAD_MISS j); [injection Hs as _ <-; reflexivity|].
    destruct (int_pow_float pow (current_combo st + 1) (growth_p c_cfg));
      [|discriminate].
    destruct (0 <? fever_active_notes st); injection Hs as _ <-; reflexivity. }
  unfold sim_combo in *.
  cbn [current_combo max_combo set_max_possible_score set_total_score] in *.
  exact Hp.
Qed.

Lemma calculate_base_score_PERFECT note t_cfg s_cfg b :
  calculate_base_score note t_cfg s_cfg = Ok (b, PERFECT) -> b = 100.0%float.
Proof.
  unfold calculate_base_score, get_excess_ratio.
  repeat match goal with
  | |- context [if ?c then _ else _] => destruct c
  | |- context [match ?c with Ok _ => _ | Raise _ => _ end] => destruct c
  end; cbv zeta; intros [= ]; try discriminate; congruence.
Qed.

(** C4 (as amended).  The fever-active flag of the record is true exactly
    when [fever_active_notes > 0] in the state the note leaves behind, the
    same state whose [fever_active_notes] the record reports.  It agrees
    with [fever_active_notes > 0] before the note when more than one credit
    was left, when a BAD or MISS note found fever active (flag true, score
    0.0), and when fever was inactive and the gauge did not fill (flag
    false).  It differs on two notes.  A note judged neither BAD nor MISS
    that consumes the last credit without refilling the gauge gets the
    multiplier (its final score is [(base + bonus)·score_multiplier]) and
    has the flag false.  A note that fills the gauge while fever is
    inactive, with [fever_duration_notes > 0], gets no multiplier (its final
    score is [base + bonus], or 0.0 when it is BAD or MISS) and has the
    flag true. *)
Theorem fever_flag_reports_state_after_note
    note t_cfg s_cfg c_cfg f_cfg st st' r :
  process_note_result pow note t_cfg s_cfg c_cfg f_cfg st = (st', Ok r) ->
  r_fever_active r = (0 <? fever_active_notes st') /\
  r_fever_active r = (0 <? r_fever_active_notes r) /\
  (1 < fever_active_notes st -> r_fever_active r = true) /\
  (forall b j, calculate_base_score note t_cfg s_cfg = Ok (b, j) ->
     fever_active_notes st <= 0 ->
     fever_gauge st + fill_amt f_cfg j < gauge_max f_cfg ->
     r_fever_active r = false) /\
  (forall b j, calculate_base_score note t_cfg s_cfg = Ok (b, j) ->
     in_BAD_MISS j = true ->
     0 < fever_active_notes st ->
     r_fever_active r = true /\ r_final_score r = Round1 0.0) /\
  (forall b j, calculate_base_score note t_cfg s_cfg = Ok (b, j) ->
     in_BAD_MISS j = false ->
     fever_active_notes st = 1 ->
     fever_gauge st + fill_amt f_cfg j < gauge_max f_cfg ->
     r_fever_active r = false /\
     exists p,
       int_pow_float pow (current_combo st + 1) (growth_p c_cfg) = Ok p /\
       r_final_score r
         = Round1 (bonus_total c_cfg b p * score_multiplier f_cfg)%float) /\
  (forall b j, calculate_base_score note t_cfg s_cfg = Ok (b, j) ->
     fever_active_notes st <= 0 ->
     gauge_max f_cfg <= fever_gauge st + fill_amt f_cfg j ->
     0 < fever_duration_notes f_cfg ->
     r_fever_active r = true /\
     if in_BAD_MISS j then r_final_score r = Round1 0.0
     else exists p,
       int_pow_float pow (current_combo st + 1) (growth_p c_cfg) = Ok p /\
       r_final_score r = Round1 (bonus_total c_cfg b p)).
Proof.
  intros Hrun.
  destruct (process_note_result_record _ _ _ _ _ _ _ _ Hrun)
    as (b & final & j & Hc & Hr).
  pose proof (process_note_result_fever note t_cfg s_cfg c_cfg f_cfg st b j Hc)
    as Hf.
  cbv zeta in Hf. rewrite Hrun in Hf. cbn [fst] in Hf.
  destruct (process_note_result_totals _ _ _ _ _ _ _ _ _ _ Hc Hrun)
    as (final' & p' & Hs & Hfin & _).
  rewrite score_note_run in Hs.
  assert (Hflag : r_fever_active r = (0 <? fever_active_notes st')).
  { rewrite Hr. reflexivity. }
  assert (Hnotes : r_fever_active_notes r = fever_active_notes st').
  { rewrite Hr. reflexivity. }
  assert (Hok : in_BAD_MISS j = false ->
                is_ok (int_pow_float pow (current_combo st + 1)
                         (growth_p c_cfg)) = true).
  { intros Hj. exact (process_note_result_ok_bonus _ _ _ _ _ _ _ _ _ _ Hc Hj Hrun). }
  split; [exact Hflag|]. split; [rewrite Hnotes; exact Hflag|].
  rewrite Hflag. clear Hr.
  split; [|split; [|split; [|split]]].
  - intros H1. apply Z.ltb_lt. fever_cases Hf; lia.
  - intros b' j' Hc' H0 Hg. rewrite Hc in Hc'. injection Hc' as <- <-.
    apply Z.ltb_ge. fever_cases Hf; lia.
  - intros b' j' Hc' Hj H0. rewrite Hc in Hc'. injection Hc' as <- <-.
    split.
    + apply Z.ltb_lt. fever_cases Hf; try discriminate; lia.
    + rewrite Hj in Hs. cbn [snd] in Hs. injection Hs as <-. exact Hfin.
  - intros b' j' Hc' Hj H1 Hg. rewrite Hc in Hc'. injection Hc' as <- <-.
    specialize (Hok Hj). rewrite Hok in Hf.
    split.
    + apply Z.ltb_ge. fever_cases Hf; try discriminate; lia.
    + rewrite Hj in Hs.
      destruct (int_pow_float pow (current_combo st + 1) (growth_p c_cfg))
        as [p|e]; [|discriminate].
      replace (0 <? fever_active_notes st) with true in Hs
        by (symmetry; apply Z.ltb_lt; lia).
      cbn [snd] in Hs. injection Hs as <-.
      exists p. split; [reflexivity | exact Hfin].
  - intros b' j' Hc' H0 Hg Hd. rewrite Hc in Hc'. injection Hc' as <- <-.
    split.
    + apply Z.ltb_lt.
      destruct (in_BAD_MISS j) eqn:Hj.
      * fever_cases Hf; try discriminate; lia.
      * specialize (Hok eq_refl). rewrite Hok in Hf.
        fever_cases Hf; try discriminate; lia.
    + destruct (in_BAD_MISS j) eqn:Hj.
      * cbn [snd] in Hs. injection Hs as <-. exact Hfin.
      * destruct (int_pow_float pow (current_combo st + 1) (growth_p c_cfg))
          as [p|e]; [|discriminate].
        replace (0 <? fever_active_notes st) with false in Hs
          by (symmetry; apply Z.ltb_ge; lia).
        cbn [snd] in Hs. injection Hs as <-.
        exists p. split; [reflexivity | exact Hfin].
Qed.

(** C8.  On a note judged neither BAD nor MISS the combo is incremented
    first and the bonus is [min(base·(growth_a·combo^growth_p), base·cap)]
    at the incremented combo; the note's score is base plus bonus, times the
    fever multiplier when fever was active.  With the default
    configurations a PERFECT note on a state with combo 0 and fever inactive
    (the first note of a session) gives combo 1, bonus ratio 0.01, bonus 1.0
    and final score 101.0. *)
Theorem combo_bonus_uses_incremented_combo :
  (forall note t_cfg s_cfg c_cfg f_cfg st st' r b j,
     calculate_base_score note t_cfg s_cfg = Ok (b, j) ->
     in_BAD_MISS j = false ->
     process_note_result pow note t_cfg s_cfg c_cfg f_cfg st = (st', Ok r) ->
     exists combo_pow,
       int_pow_float pow (current_combo st + 1) (growth_p c_cfg) = Ok combo_pow /\
       r_combo r = current_combo st + 1 /\
       let bonus := applyBonus c_cfg b combo_pow in
       let final :=
         if 0 <? fever_active_notes st
         then ((b + bonus) * score_multiplier f_cfg)%float
         else (b + bonus)%float in
       r_final_score r = Round1 final /\
       total_score st' = (total_score st + final)%float) /\
  (forall note t_cfg s_cfg st b,
     calculate_base_score note t_cfg s_cfg = Ok (b, PERFECT) ->
     current_combo st = 0 ->
     fever_active_notes st <= 0 ->
     exists st' r,
       process_note_result pow note t_cfg s_cfg ComboConfig_default
         FeverConfig_default st = (st', Ok r) /\
       r_combo r = 1 /\
       int_pow_float pow 1 (growth_p ComboConfig_default) = Ok 1.0%float /\
       (growth_a ComboConfig_default * 1.0 = 0.01)%float /\
       applyBonus ComboConfig_default b 1.0 = 1.0%float /\
       r_final_score r = Round1 101.0 /\
       total_score st' = (total_score st + 101.0)%float).
Proof.
  split.
  - intros note t_cfg s_cfg c_cfg f_cfg st st' r b j Hc Hj Hrun.
    destruct (process_note_result_totals _ _ _ _ _ _ _ _ _ _ Hc Hrun)
      as (final & p & Hs & Hf & Hcombo & Hcc & _ & Htot & _).
    rewrite score_note_run, Hj in Hs.
    destruct (int_pow_float pow (current_combo st + 1) (growth_p c_cfg))
      as [cp|e]; [|discriminate].
    exists cp. split; [reflexivity|]. rewrite Hj in Hcc.
    split; [congruence|]. cbv zeta.
    unfold bonus_total in Hs. unfold applyBonus.
    destruct (0 <? fever_active_notes st); cbn [snd] in Hs;
      injection Hs as <-; split; assumption.
  - intros note t_cfg s_cfg st b Hc H0 Hact.
    pose proof (calculate_base_score_PERFECT _ _ _ _ Hc) as ->.
    assert (Hpow : int_pow_float pow 1 (growth_p ComboConfig_default)
                   = Ok 1.0%float) by reflexivity.
    rewrite process_note_result_run, Hc, score_note_run.
    cbn [in_BAD_MISS]. rewrite H0. cbn [Z.add]. rewrite Hpow.
    replace (0 <? fever_active_notes st) with false
      by (symmetry; apply Z.ltb_ge; lia).
    cbv zeta. unfold sim_combo. cbn [in_BAD_MISS].
    destruct (charged_keeps FeverConfig_default PERFECT (combo_up st))
      as (Hcc & _ & Htot & _).
    cbn [current_combo set_total_score]. rewrite Hcc.
    unfold combo_up at 1. cbn [current_combo set_max_combo set_current_combo].
    rewrite H0. cbn [Z.add]. rewrite Hpow.
    eexists; eexists. split; [reflexivity|].
    cbn [r_combo r_final_score record_of current_combo total_score
         set_max_possible_score set_total_score].
    rewrite Hcc, Htot.
    unfold combo_up. cbn [current_combo total_score set_max_combo set_current_combo].
    rewrite H0.
    repeat split; reflexivity.
Qed.

End EngineFacts.

(** ** The note evaluator *)

(** C1.  [calculate_base_score] follows the ordered algorithm of the
    evaluator: the no-input sentinel gives (0, MISS); else a miss distance
    above the radius gives (0, BAD) whatever the timing; else a time offset
    within the perfect window gives (100.0, PERFECT); else, with
    [ratio = min(excess / excess_max, 1.0)], a ratio of 1.0 or more gives
    (0, BAD), and otherwise [score = 100·(1 − ratio)] gives (0, BAD) when
    [score <= 0], (score, GREAT) when [score >= cut_great] and (score, GOOD)
    in the remaining case. *)
Theorem calculate_base_score_follows_algorithm
    (note : NoteEvent) (t_cfg : TimingConfig) (s_cfg : SpatialConfig) :
  let sentinel := Py.eq (actual_entry note) (-1)%float in
  let off_target := Py.gt (min_dist note) (target_radius s_cfg) in
  let abs_diff := PrimFloat.abs (actual_entry note - target_start note)%float in
  let in_window := Py.le abs_diff (window_perfect t_cfg) in
  (sentinel = true ->
     calculate_base_score note t_cfg s_cfg = Ok (0.0%float, MISS)) /\
  (sentinel = false -> off_target = true ->
     calculate_base_score note t_cfg s_cfg = Ok (0.0%float, BAD)) /\
  (sentinel = false -> off_target = false -> in_window = true ->
     calculate_base_score note t_cfg s_cfg = Ok (100.0%float, PERFECT)) /\
  (forall q,
     sentinel = false -> off_target = false -> in_window = false ->
     Py.div (abs_diff - window_perfect t_cfg)%float (excess_max t_cfg) = Ok q ->
     let ratio := Py.min q 1.0%float in
     let score := (100.0 * (1.0 - ratio))%float in
     calculate_base_score note t_cfg s_cfg =
       if Py.ge ratio 1.0%float then Ok (0.0%float, BAD)
       else if Py.le score 0.0%float then Ok (0.0%float, BAD)
       else if Py.ge score (cut_great t_cfg) then Ok (score, GREAT)
       else Ok (score, GOOD)).
Proof.
  cbv zeta. unfold calculate_base_score, get_excess_ratio.
  repeat split.
  - intros ->. reflexivity.
  - intros -> ->. reflexivity.
  - intros -> -> ->. reflexivity.
  - intros q -> -> -> ->. reflexivity.
Qed.

(** ** Fever: the note that consumes the last credit, the note that opens
    the window *)


Lemma reachable_play pow c_cfg notes st :
  reachable pow st -> reachable pow (play pow c_cfg notes st).
Proof.
  revert st. induction notes as [|note rest IH]; intros st H; cbn [play].
  - exact H.
  - apply IH. apply reachable_step. exact H.
Qed.

(** The situation of the counterexample arises in a session: nineteen
    PERFECT notes from [PlayState()] leave one fever credit and an empty
    gauge, and the twentieth charges the gauge to 10. *)
Lemma last_credit_reached_in_session pow :
  let st := play pow flat_growth (repeat perfect_note 19) PlayState_new in
  reachable pow st /\
  fever_active_notes st = 1 /\ fever_gauge st = 0 /\
  fever_gauge (play pow flat_growth [perfect_note] st) = 10 /\
  fever_active_notes (play pow flat_growth [perfect_note] st) = 0.
Proof.
  cbv zeta. split; [apply reachable_play, reachable_new|].
  repeat split; vm_compute; reflexivity.
Qed.


(** C4, counterexample.  On the note that consumes the last credit the
    multiplier applies (the PERFECT note scores 202.0) and the record's flag
    is false; on the note that fills the gauge the multiplier does not apply
    (the PERFECT note scores 101.0) and the record's flag is true. *)
Lemma fever_flag_differs_from_multiplier :
  is_fever_active last_fever_state = true /\
  is_fever_active nearly_full_state = false /\
  forall pow,
    match snd (process_default pow perfect_note last_fever_state),
          snd (process_default pow perfect_note nearly_full_state) with
    | Ok r1, Ok r2 =>
        r_fever_active r1 = false /\ r_final_score r1 = Round1 202.0 /\
        r_fever_active r2 = true /\ r_final_score r2 = Round1 101.0
    | _, _ => False
    end.
Proof. repeat split. Qed.

Lemma fever_flag_reports_state_after_note_witness :
  let st' := fst (process_default libm_pow_overflow perfect_note PlayState_new) in
  let r := record_of perfect_note FeverConfig_default 100.0 101.0 PERFECT st' in
  process_default libm_pow_overflow perfect_note PlayState_new = (st', Ok r) /\
  r_fever_active r = (0 <? fever_active_notes st').
Proof.
  intros st' r.
  assert (H : process_default libm_pow_overflow perfect_note PlayState_new
              = (st', Ok r)) by reflexivity.
  split; [exact H|].
  exact (proj1 (fever_flag_reports_state_after_note libm_pow_overflow _ _ _ _ _
                  _ _ _ H)).
Defined.

Lemma fever_invariants_of_session_witness :
  reachable libm_pow_overflow PlayState_new /\
  0 <= fever_gauge
         (fst (process_default libm_pow_overflow perfect_note PlayState_new))
    < gauge_max FeverConfig_default.
Proof.
  split; [apply reachable_new|].
  exact (proj1 (proj2 (fever_invariants_of_session libm_pow_overflow perfect_note
                         TimingConfig_default SpatialConfig_default
                         ComboConfig_default PlayState_new
                         (reachable_new libm_pow_overflow)))).
Defined.

(** ** Totality *)


(** ** The engine on dynamic values *)

Section DynFacts.

Variable pow : float -> float -> result float.

Lemma dyn_process_note_result_run note t_cfg s_cfg c_cfg f_cfg st :
  Dyn.process_note_result pow note t_cfg s_cfg c_cfg f_cfg st =
    match Dyn.calculate_base_score note t_cfg s_cfg with
    | Raise e => (st, Raise e)
    | Ok (b, j) =>
        match score_note pow b j c_cfg f_cfg st with
        | (s1, Raise e) => (s1, Raise e)
        | (s1, Ok final) =>
            let s2 := charged f_cfg j s1 in
            let s3 := set_total_score (total_score s2 + final)%float s2 in
            match int_pow_float pow (sim_combo j s3) (growth_p c_cfg) with
            | Raise e => (s3, Raise e)
            | Ok p =>
                let s4 := credited c_cfg f_cfg s3 p in
                match Dyn.debug_in note with
                | Ok d => (s4, Ok (dyn_record_of d f_cfg b final j s4))
                | Raise e => (s4, Raise e)
                end
            end
        end
    end.
Proof.
  unfold Dyn.process_note_result.
  unfold bind at 1. unfold lift at 1.
  destruct (Dyn.calculate_base_score note t_cfg s_cfg) as [[b j]|e];
    [|reflexivity].
  cbn [fst snd]. unfold bind at 1.
  destruct (score_note pow b j c_cfg f_cfg st) as [s1 [final|e]]; [|reflexivity].
  unfold bind at 1. rewrite charge_gauge_run.
  unfold bind at 1. unfold modify at 1.
  unfold bind at 1. rewrite possible_score_run.
  cbv zeta.
  destruct (int_pow_float pow _ (growth_p c_cfg)); [|reflexivity].
  unfold bind at 1. unfold modify at 1.
  unfold bind at 1. unfold get at 1.
  unfold bind at 1. unfold lift at 1.
  destruct (Dyn.debug_in note); reflexivity.
Qed.

Lemma dyn_calculate_base_score_of_note note t_cfg s_cfg :
  Dyn.calculate_base_score (of_note note) t_cfg s_cfg
  = calculate_base_score note t_cfg s_cfg.
Proof.
  unfold Dyn.calculate_base_score, calculate_base_score, of_note.
  cbn [Dyn.actual_entry Dyn.min_dist Dyn.target_start Dyn.eq_minus_1 Dyn.gt
       Dyn.sub].
  destruct (Py.eq (actual_entry note) (-1)); [reflexivity|].
  destruct (Py.gt (min_dist note) (target_radius s_cfg)); reflexivity.
Qed.

Lemma dyn_process_note_result_of_note note t_cfg s_cfg c_cfg f_cfg st :
  Dyn.process_note_result pow (of_note note) t_cfg s_cfg c_cfg f_cfg st
  = process_note_result pow note t_cfg s_cfg c_cfg f_cfg st.
Proof.
  rewrite dyn_process_note_result_run, process_note_result_run,
    dyn_calculate_base_score_of_note.
  destruct (calculate_base_score note t_cfg s_cfg) as [[b j]|e]; [|reflexivity].
  destruct (score_note pow b j c_cfg f_cfg st) as [s1 [final|e]]; [|reflexivity].
  cbv zeta.
  destruct (int_pow_float pow _ (growth_p c_cfg)); [|reflexivity].
  unfold Dyn.debug_in, of_note, Py.ne.
  cbn [Dyn.actual_entry Dyn.target_start Dyn.eq_minus_1 Dyn.sub].
  unfold dyn_record_of, record_of, credited, Py.ne, Py.eq.
  destruct (PrimFloat.eqb (actual_entry note) (-1)); reflexivity.
Qed.



Lemma huge_int_is_not_sentinel n e :
  Py.float_of_int n = Raise e -> (n =? -1) = false.
Proof.
  intros H. destruct (n =? -1) eqn:E; [|reflexivity].
  apply Z.eqb_eq in E. subst n. discriminate H.
Qed.

End DynFacts.



(** ** Base score and judgement *)

(** C10, counterexample.  With [window_perfect = 0], [excess_max = 1e20]
    and [cut_great = 50] (all within the assumptions), a hit one millisecond
    late has penalty ratio [1e-20]; [1.0 - 1e-20] rounds to [1.0], so the
    note is judged GREAT with a base score of exactly 100.0, outside
    [[cut_great, 100)]. *)
Lemma great_can_score_100 :
  Py.ge (window_perfect ramp_config) 0 = true /\
  Py.gt (excess_max ramp_config) 0 = true /\
  Py.gt (cut_great ramp_config) 0 = true /\
  Py.le (cut_great ramp_config) 100 = true /\
  calculate_base_score slightly_late_note ramp_config SpatialConfig_default
    = Ok (100.0%float, GREAT) /\
  Py.lt 100.0 100.0 = false.
Proof. repeat split. Qed.

(** C10 (as amended).  With [window_perfect >= 0], [0 < excess_max < inf],
    [0 < cut_great <= 100] and a note whose entry and target times are
    finite, the base score is exactly 100.0 for PERFECT, lies in
    [[cut_great, 100]] for GREAT, lies strictly between 0 and [cut_great]
    for GOOD, and is 0 exactly when the judgement is BAD or MISS; a score
    computed from a ratio below 1.0 is never [<= 0]. *)
Theorem base_score_bounded_by_judgement
    (note : NoteEvent) (t_cfg : TimingConfig) (s_cfg : SpatialConfig)
    (b : float) (j : Judgement) :
  Py.ge (window_perfect t_cfg) 0 = true ->
  Py.gt (excess_max t_cfg) 0 = true ->
  Py.lt (excess_max t_cfg) infinity = true ->
  Py.gt (cut_great t_cfg) 0 = true ->
  Py.le (cut_great t_cfg) 100 = true ->
  Binary64.isfinite (actual_entry note) = true ->
  Binary64.isfinite (target_start note) = true ->
  calculate_base_score note t_cfg s_cfg = Ok (b, j) ->
  match j with
  | PERFECT => b = 100.0%float
  | GREAT => Py.ge b (cut_great t_cfg) = true /\ Py.le b 100 = true
  | GOOD => Py.gt b 0 = true /\ Py.lt b (cut_great t_cfg) = true
  | BAD | MISS => b = 0.0%float
  end /\
  in_BAD_MISS j = Py.eq b 0 /\
  (forall q,
     Py.div (PrimFloat.abs (actual_entry note - target_start note)
             - window_perfect t_cfg)%float (excess_max t_cfg) = Ok q ->
     Py.le (PrimFloat.abs (actual_entry note - target_start note))
           (window_perfect t_cfg) = false ->
     Py.ge (Py.min q 1.0) 1.0 = false ->
     Py.le (100.0 * (1.0 - Py.min q 1.0))%float 0 = false).
Proof.
  unfold Py.ge, Py.gt, Py.lt, Py.le.
  intros HW Hem0 Hemi Hcut0 Hcut100 Hentry Htarget Hc.
  set (A := PrimFloat.abs (actual_entry note - target_start note)) in *.
  assert (HAshape : Binary64.signed false (Prim2SF A)
                    /\ Binary64.nonneg_shape (Prim2SF A)).
  { apply FloatFacts.abs_shape.
    apply FloatFacts.sub_finite_not_nan; assumption. }
  assert (Hramp : forall q,
            Py.div (A - window_perfect t_cfg)%float (excess_max t_cfg) = Ok q ->
            PrimFloat.leb A (window_perfect t_cfg) = false ->
            PrimFloat.leb 1.0 (Py.min q 1.0) = false ->
            let score := (100.0 * (1.0 - Py.min q 1.0))%float in
            PrimFloat.ltb 0 score = true /\ PrimFloat.leb score 100 = true).
  { intros q Hq Hout Hlt1. cbv zeta.
    unfold Py.div in Hq. destruct (Py.eq (excess_max t_cfg) 0); [discriminate|].
    injection Hq as <-.
    set (q := ((A - window_perfect t_cfg) / excess_max t_cfg)%float) in *.
    assert (Hq0 : PrimFloat.leb 0 q = true).
    { apply FloatFacts.div_nonneg; try assumption.
      apply FloatFacts.sub_nonneg; [apply HAshape | assumption | assumption]. }
    assert (Hmin : Py.min q 1.0 = q /\ PrimFloat.ltb q 1 = true).
    { unfold Py.min, Py.lt in *. destruct (PrimFloat.ltb 1 q).
      - discriminate Hlt1.
      - split; [reflexivity|].
        apply FloatFacts.not_leb_ltb; try assumption.
        + rewrite FloatFacts.Prim2SF_one. discriminate.
        + apply FloatFacts.nonneg_not_nan, FloatFacts.leb0_shape, Hq0. }
    destruct Hmin as [-> Hq1].
    destruct (FloatFacts.one_minus_bounds q Hq0 Hq1) as [Ht0 Ht1].
    split.
    - apply FloatFacts.mul_pos_const; try assumption; reflexivity.
    - apply FloatFacts.mul_le_const; try assumption; reflexivity. }
  split; [|split].
  - unfold calculate_base_score, get_excess_ratio in Hc.
    unfold Py.ge, Py.gt, Py.lt, Py.le in Hc. fold A in Hc.
    destruct (Py.eq (actual_entry note) (-1)); [injection Hc as <- <-; reflexivity|].
    destruct (PrimFloat.ltb (target_radius s_cfg) (min_dist note));
      [injection Hc as <- <-; reflexivity|].
    destruct (PrimFloat.leb A (window_perfect t_cfg)) eqn:Hout;
      [injection Hc as <- <-; reflexivity|].
    destruct (Py.div (A - window_perfect t_cfg) (excess_max t_cfg))
      as [q|e] eqn:Hq; [|discriminate].
    destruct (PrimFloat.leb 1 (Py.min q 1)) eqn:Hlt1;
      [injection Hc as <- <-; reflexivity|].
    destruct (Hramp q eq_refl eq_refl Hlt1) as [Hs0 Hs100]. cbv zeta in Hs0, Hs100.
    rewrite (FloatFacts.pos_leb_zero _ Hs0) in Hc.
    destruct (PrimFloat.leb (cut_great t_cfg) (100 * (1 - Py.min q 1)))
      eqn:Hcut; injection Hc as <- <-.
    + split; assumption.
    + split; [assumption|].
      apply FloatFacts.not_leb_ltb; try assumption.
      * apply FloatFacts.pos_not_nan, FloatFacts.ltb0_shape, Hcut0.
      * apply FloatFacts.pos_not_nan, FloatFacts.ltb0_shape, Hs0.
  - unfold calculate_base_score, get_excess_ratio in Hc.
    unfold Py.ge, Py.gt, Py.lt, Py.le in Hc. fold A in Hc.
    destruct (Py.eq (actual_entry note) (-1)); [injection Hc as <- <-; reflexivity|].
    destruct (PrimFloat.ltb (target_radius s_cfg) (min_dist note));
      [injection Hc as <- <-; reflexivity|].
    destruct (PrimFloat.leb A (window_perfect t_cfg)) eqn:Hout;
      [injection Hc as <- <-; reflexivity|].
    destruct (Py.div (A - window_perfect t_cfg) (excess_max t_cfg))
      as [q|e] eqn:Hq; [|discriminate].
    destruct (PrimFloat.leb 1 (Py.min q 1)) eqn:Hlt1;
      [injection Hc as <- <-; reflexivity|].
    destruct (Hramp q eq_refl eq_refl Hlt1) as [Hs0 Hs100]. cbv zeta in Hs0, Hs100.
    rewrite (FloatFacts.pos_leb_zero _ Hs0) in Hc.
    destruct (PrimFloat.leb (cut_great t_cfg) (100 * (1 - Py.min q 1)));
      injection Hc as <- <-; cbn [in_BAD_MISS]; symmetry;
      apply FloatFacts.pos_eqb_zero, Hs0.
  - intros q Hq Hout Hlt1.
    destruct (Hramp q Hq Hout Hlt1) as [Hs0 _]. cbv zeta in Hs0.
    apply FloatFacts.pos_leb_zero, Hs0.
Qed.

Lemma base_score_bounded_by_judgement_witness :
  calculate_base_score
    {| note_type := TAP; target_start := 1000; target_x := 100; target_y := 100;
       actual_entry := 1520; min_dist := 0; target_end := 0; actual_exit := 0 |}
    TimingConfig_default SpatialConfig_default = Ok (75.0%float, GREAT) /\
  (Py.ge 75.0 (cut_great TimingConfig_default) = true /\ Py.le 75.0 100 = true).
Proof.
  split; [reflexivity|].
  exact (proj1 (base_score_bounded_by_judgement
    {| note_type := TAP; target_start := 1000; target_x := 100; target_y := 100;
       actual_entry := 1520; min_dist := 0; target_end := 0; actual_exit := 0 |}
    TimingConfig_default SpatialConfig_default 75.0%float GREAT
    eq_refl eq_refl eq_refl eq_refl eq_refl eq_refl eq_refl eq_refl)).
Defined.

(** ** The theoretical maximum *)

(** C7, counterexample.  With [growth_a = -2] the first note, a MISS, adds
    [(100 + min(100·(-2·1), 200))·1.0 = -100] to [max_possible_score]: the
    increment is below 100, the denominator is negative after the first
    note and the rank is F. *)
Lemma negative_growth_lowers_max_possible :
  max_possible_score PlayState_new = 0.0%float /\
  forall pow,
    match process_note_result pow miss_note TimingConfig_default
            SpatialConfig_default negative_growth FeverConfig_default
            PlayState_new with
    | (st', Ok r) =>
        max_possible_score st' = (-100)%float /\
        Py.ge (max_possible_score st') 100 = false /\
        Py.gt (max_possible_score st') 0 = false /\
        r_rank r = "F"%string
    | (_, Raise _) => False
    end.
Proof. split; [reflexivity|]. intros pow. repeat split. Qed.

Section Maximum.

Variable pow : float -> float -> result float.
Variable c_cfg : ComboConfig.
Variable f_cfg : FeverConfig.

Hypothesis growth_a_positive : Py.gt (growth_a c_cfg) 0 = true.
Hypothesis growth_a_finite : Py.lt (growth_a c_cfg) infinity = true.
Hypothesis cap_nonnegative : Py.ge (bonus_cap_multiplier c_cfg) 0 = true.
Hypothesis multiplier_at_least_1 : Py.ge (score_multiplier f_cfg) 1 = true.

(** A positive integer to the power [growth_p] is a non-negative number. *)
Hypothesis pow_nonneg :
  forall n p, 1 <= n ->
    int_pow_float pow n (growth_p c_cfg) = Ok p -> Py.ge p 0 = true.

Lemma possible_of_ge_100 st p :
  PrimFloat.leb 0 p = true ->
  PrimFloat.leb 100 (possible_of c_cfg f_cfg st p) = true.
Proof.
  intros Hp. unfold possible_of.
  unfold Py.gt, Py.lt, Py.ge in *.
  assert (H1 : PrimFloat.leb 0 (100 * (growth_a c_cfg * p)) = true).
  { apply FloatFacts.mul_const_nonneg; try reflexivity.
    apply FloatFacts.mul_const_nonneg; assumption. }
  assert (H2 : PrimFloat.leb 0 (100 * bonus_cap_multiplier c_cfg) = true).
  { apply FloatFacts.mul_const_nonneg; try reflexivity. assumption. }
  assert (H3 : PrimFloat.leb 0
                 (Py.min (100 * (growth_a c_cfg * p))
                         (100 * bonus_cap_multiplier c_cfg)) = true).
  { unfold Py.min, Py.lt. apply FloatFacts.min_nonneg; assumption. }
  assert (H4 : PrimFloat.leb 100
                 (100 + Py.min (100 * (growth_a c_cfg * p))
                               (100 * bonus_cap_multiplier c_cfg)) = true).
  { apply FloatFacts.add_ge_l; try reflexivity. exact H3. }
  apply FloatFacts.mul_ge; try reflexivity; [exact H4|].
  destruct (0 <? fever_active_notes st); [assumption | reflexivity].
Qed.

Lemma ledger_inv_step note t_cfg s_cfg st :
  ledger_inv st ->
  ledger_inv (fst (process_note_result pow note t_cfg s_cfg c_cfg f_cfg st)).
Proof.
  intros (Hcc & Hmc & Hmp).
  destruct (process_note_result pow note t_cfg s_cfg c_cfg f_cfg st)
    as [st' [r|e]] eqn:Hrun; cbn [fst].
  - destruct (process_note_result_record _ _ _ _ _ _ _ _ _ Hrun)
      as (b & final & j & Hc & _).
    destruct (process_note_result_totals _ _ _ _ _ _ _ _ _ _ _ Hc Hrun)
      as (final' & p & _ & _ & _ & Hcc' & Hmc' & _ & Hp & Hmp').
    assert (Hcc2 : 0 <= current_combo st')
      by (rewrite Hcc'; destruct (in_BAD_MISS j); lia).
    assert (Hmc2 : 0 <= max_combo st')
      by (rewrite Hmc'; destruct (in_BAD_MISS j); lia).
    repeat split; try assumption.
    assert (Hsim : 1 <= sim_combo j st').
    { unfold sim_combo. rewrite Hcc'. destruct (in_BAD_MISS j); lia. }
    pose proof (possible_of_ge_100 st' p (pow_nonneg _ _ Hsim Hp)) as H100.
    rewrite Hmp'.
    apply FloatFacts.pos_nonneg_leb.
    apply FloatFacts.pos_leb_pos with (c := 100%float); [reflexivity|].
    apply FloatFacts.add_ge; try reflexivity; assumption.
  - rewrite process_note_result_run in Hrun.
    destruct (calculate_base_score note t_cfg s_cfg) as [[b j]|e0];
      [|injection Hrun as <- _; repeat split; assumption].
    rewrite score_note_run in Hrun.
    destruct (in_BAD_MISS j).
    + cbv zeta in Hrun.
      destruct (int_pow_float pow _ _); [discriminate|].
      injection Hrun as <- _.
      destruct (charged_keeps f_cfg j (set_current_combo 0 st))
        as (H1 & H2 & _ & H4).
      unfold ledger_inv.
      cbn [current_combo max_combo max_possible_score set_total_score].
      rewrite H1, H2, H4. cbn. repeat split; try lia; assumption.
    + destruct (int_pow_float pow (current_combo st + 1) _) as [p|e1].
      * destruct (0 <? fever_active_notes st); cbv zeta in Hrun;
          (destruct (int_pow_float pow _ _); [discriminate|]);
          injection Hrun as <- _;
          match goal with
          | |- context [charged ?f ?j ?s1] =>
              destruct (charged_keeps f j s1) as (H1 & H2 & _ & H4)
          end;
          unfold ledger_inv;
          cbn [current_combo max_combo max_possible_score set_total_score];
          rewrite H1, H2, H4; cbn; repeat split; try lia; assumption.
      * injection Hrun as <- _. unfold ledger_inv, combo_up. cbn.
        repeat split; try lia; assumption.
Qed.

Lemma in_session_inv st : in_session pow c_cfg f_cfg st -> ledger_inv st.
Proof.
  induction 1 as [|st note t_cfg s_cfg _ IH].
  - repeat split; cbn; try lia; reflexivity.
  - apply ledger_inv_step, IH.
Qed.

(** The bound of a session: under the assumptions of this section every
    increment of [max_possible_score] is at least 100. *)
Lemma session_increment_at_least_100 note t_cfg s_cfg st st' r :
  in_session pow c_cfg f_cfg st ->
  process_note_result pow note t_cfg s_cfg c_cfg f_cfg st = (st', Ok r) ->
  (exists possible,
     max_possible_score st' = (max_possible_score st + possible)%float /\
     Py.ge possible 100 = true) /\
  Py.ge (max_possible_score st') 100 = true /\
  Py.gt (max_possible_score st') 0 = true /\
  r_rank r = thresholds (total_score st' / max_possible_score st')%float.
Proof.
  intros Hsess Hrun.
  destruct (in_session_inv st Hsess) as (Hcc & Hmc & Hmp0).
  destruct (process_note_result_record _ _ _ _ _ _ _ _ _ Hrun)
    as (b & final & j & Hc & Hr).
  destruct (process_note_result_totals _ _ _ _ _ _ _ _ _ _ _ Hc Hrun)
    as (final' & p & _ & _ & _ & Hcc' & Hmc' & _ & Hp & Hmp').
  assert (Hsim : 1 <= sim_combo j st').
  { unfold sim_combo. rewrite Hcc', Hmc'. destruct (in_BAD_MISS j); lia. }
  pose proof (possible_of_ge_100 st' p (pow_nonneg _ _ Hsim Hp)) as H100.
  assert (Hmax : PrimFloat.leb 100 (max_possible_score st') = true).
  { rewrite Hmp'. apply FloatFacts.add_ge; try reflexivity; assumption. }
  assert (Hpos : PrimFloat.ltb 0 (max_possible_score st') = true).
  { apply FloatFacts.pos_leb_pos with (c := 100%float);
      [reflexivity|exact Hmax]. }
  unfold Py.ge, Py.gt. repeat split.
  - eexists. split; [exact Hmp'|exact H100].
  - exact Hmax.
  - exact Hpos.
  - rewrite Hr. cbn [r_rank record_of]. unfold live_rank, Py.gt.
    rewrite Hpos. reflexivity.
Qed.

End Maximum.

(** C7 (as amended).  For every configuration, on every processed note
    [max_possible_score] becomes
    [max_possible_score + (100 + min(100·(growth_a·simCombo^growth_p),
    100·bonus_cap_multiplier))·mult], where [simCombo] is [max_combo + 1]
    on a BAD/MISS note and the (incremented) [current_combo] otherwise, and
    [mult] is [score_multiplier] when fever is active after the note's
    fever update and 1.0 otherwise.  The bound needs assumptions: in a
    session run with a combo and a fever configuration such that
    [0 < growth_a < inf], [bonus_cap_multiplier >= 0] and
    [score_multiplier >= 1] (the defaults are such), and on the assumption
    that every power [n ** growth_p] of an integer [n >= 1] that is computed
    is a number that is not negative, each increment is at least 100, so
    after every processed note [max_possible_score] is at least 100, hence
    positive, and the rank is the threshold of
    [total_score / max_possible_score]. *)
Theorem max_possible_score_increment pow c_cfg f_cfg :
  (forall note t_cfg s_cfg st st' r b j,
     calculate_base_score note t_cfg s_cfg = Ok (b, j) ->
     process_note_result pow note t_cfg s_cfg c_cfg f_cfg st = (st', Ok r) ->
     let simCombo :=
       if in_BAD_MISS j then max_combo st' + 1 else current_combo st' in
     let mult :=
       if 0 <? fever_active_notes st' then score_multiplier f_cfg
       else 1.0%float in
     exists p,
       int_pow_float pow simCombo (growth_p c_cfg) = Ok p /\
       max_possible_score st' =
         (max_possible_score st +
          (100.0 + Py.min (100.0 * (growth_a c_cfg * p))
                          (100.0 * bonus_cap_multiplier c_cfg)) * mult)%float) /\
  (Py.gt (growth_a c_cfg) 0 = true ->
   Py.lt (growth_a c_cfg) infinity = true ->
   Py.ge (bonus_cap_multiplier c_cfg) 0 = true ->
   Py.ge (score_multiplier f_cfg) 1 = true ->
   (forall n p, 1 <= n ->
      int_pow_float pow n (growth_p c_cfg) = Ok p -> Py.ge p 0 = true) ->
   forall note t_cfg s_cfg st st' r,
     in_session pow c_cfg f_cfg st ->
     process_note_result pow note t_cfg s_cfg c_cfg f_cfg st = (st', Ok r) ->
     (exists possible,
        max_possible_score st' = (max_possible_score st + possible)%float /\
        Py.ge possible 100 = true) /\
     Py.ge (max_possible_score st') 100 = true /\
     Py.gt (max_possible_score st') 0 = true /\
     r_rank r = thresholds (total_score st' / max_possible_score st')%float).
Proof.
  split.
  - intros note t_cfg s_cfg st st' r b j Hc Hrun. cbv zeta.
    destruct (process_note_result_totals _ _ _ _ _ _ _ _ _ _ _ Hc Hrun)
      as (final & p & _ & _ & _ & _ & _ & _ & Hp & Hmp).
    exists p. split; [exact Hp|]. exact Hmp.
  - intros Ha0 Hai Hcap Hmult Hpow note t_cfg s_cfg st st' r Hsess Hrun.
    exact (session_increment_at_least_100 pow c_cfg f_cfg Ha0 Hai Hcap Hmult
             Hpow note t_cfg s_cfg st st' r Hsess Hrun).
Qed.

Lemma max_possible_score_increment_witness :
  (Py.gt (growth_a ComboConfig_default) 0 = true /\
   Py.lt (growth_a ComboConfig_default) infinity = true /\
   Py.ge (bonus_cap_multiplier ComboConfig_default) 0 = true /\
   Py.ge (score_multiplier FeverConfig_default) 1 = true) /\
  (forall n p, 1 <= n ->
     int_pow_float libm_pow_overflow n (growth_p ComboConfig_default) = Ok p ->
     Py.ge p 0 = true) /\
  in_session libm_pow_overflow ComboConfig_default FeverConfig_default
    PlayState_new /\
  Py.gt (max_possible_score
           (fst (process_default libm_pow_overflow perfect_note PlayState_new)))
        0 = true.
Proof.
  assert (Hpow : forall n p, 1 <= n ->
     int_pow_float libm_pow_overflow n (growth_p ComboConfig_default) = Ok p ->
     Py.ge p 0 = true).
  { intros n p _. unfold int_pow_float, float_pow, libm_pow_overflow.
    destruct (Py.float_of_int n) as [v|e]; [|discriminate].
    cbn [growth_p ComboConfig_default].
    change (Py.eq 1.2 0) with false. cbv iota.
    destruct (Py.eq v 1); [|discriminate].
    intros [= <-]. reflexivity. }
  split; [repeat split|]. split; [exact Hpow|]. split; [apply session_new|].
  exact (proj1 (proj2 (proj2
    (proj2 (max_possible_score_increment libm_pow_overflow
              ComboConfig_default FeverConfig_default)
       eq_refl eq_refl eq_refl eq_refl Hpow
       perfect_note TimingConfig_default SpatialConfig_default PlayState_new
       (fst (process_default libm_pow_overflow perfect_note PlayState_new))
       (record_of perfect_note FeverConfig_default 100.0 101.0 PERFECT
          (fst (process_default libm_pow_overflow perfect_note PlayState_new)))
       (session_new libm_pow_overflow ComboConfig_default FeverConfig_default)
       eq_refl)))).
Defined.

(** ** Rank *)

Lemma calculate_final_rank_live_rank (c : Consumer) :
  calculate_final_rank c =
    live_rank (total_score (state c)) (max_possible_score (state c)).
Proof.
  unfold calculate_final_rank, live_rank, Py.le, Py.gt, Py.ge.
  set (t := total_score (state c)). set (m := max_possible_score (state c)).
  destruct (PrimFloat.ltb 0 m) eqn:Hgt.
  - rewrite (FloatFacts.ltb_zero_leb_zero m Hgt). reflexivity.
  - destruct (PrimFloat.leb m 0) eqn:Hle; [reflexivity|].
    pose proof (FloatFacts.div_nan_r t m
                  (FloatFacts.incomparable_with_zero_is_nan m Hgt Hle)) as Hn.
    rewrite !(FloatFacts.leb_nan_r _ _ Hn). reflexivity.
Qed.

(** C6.  The rank of [process_note_result] and the rank of
    [calculate_final_rank] are the same function of the two totals: the
    thresholds applied to [total_score / max_possible_score] when
    [max_possible_score > 0], and F when [max_possible_score <= 0]; so the
    rank in the record of a note is the rank a summary computed on the state
    that note leaves would show. *)
Theorem final_rank_agrees_with_live_rank :
  (forall c : Consumer,
     calculate_final_rank c =
       live_rank (total_score (state c)) (max_possible_score (state c))) /\
  (forall total max_possible : float,
     (Py.gt max_possible 0%float = true ->
        live_rank total max_possible = thresholds (total / max_possible)%float /\
        calculate_final_rank (with_totals total max_possible)
          = thresholds (total / max_possible)%float) /\
     (Py.le max_possible 0%float = true ->
        live_rank total max_possible = "F"%string /\
        calculate_final_rank (with_totals total max_possible) = "F"%string)) /\
  (forall pow note t_cfg s_cfg c_cfg f_cfg st st' r idx target,
     process_note_result pow note t_cfg s_cfg c_cfg f_cfg st = (st', Ok r) ->
     r_rank r =
       calculate_final_rank
         {| state := st'; note_index := idx; current_target_time := target |}).
Proof.
  pose proof calculate_final_rank_live_rank as Heq.
  split; [exact Heq|]. split.
  - intros total max_possible. split.
    + intros Hgt. rewrite Heq. cbn [with_totals state total_score
        max_possible_score set_max_possible_score set_total_score].
      unfold live_rank. rewrite Hgt. split; reflexivity.
    + intros Hle. rewrite Heq. cbn [with_totals state total_score
        max_possible_score set_max_possible_score set_total_score].
      unfold live_rank, Py.gt, Py.le in *.
      destruct (PrimFloat.ltb 0 max_possible) eqn:Hgt.
      * rewrite (FloatFacts.ltb_zero_leb_zero _ Hgt) in Hle. discriminate.
      * split; reflexivity.
  - intros pow note t_cfg s_cfg c_cfg f_cfg st st' r idx target Hrun.
    destruct (process_note_result_record _ _ _ _ _ _ _ _ _ Hrun)
      as (b & final & j & _ & ->).
    rewrite Heq. reflexivity.
Qed.

(** ** The session handler after the last note *)

(** C3, counterexample.  The missed session ends with the game-over
    summary and leaves the cursor past the last schedule entry.  One more
    [miss] message is judged all the same: the session state changes
    ([max_possible_score] goes from 6060 to 6161), the cursor moves on, and
    a per-note result record is sent, followed by a second summary. *)
Lemma input_after_game_over_is_judged :
  List.length NOTE_INTERVALS = 60%nat /\
  forall pow,
    fst (handle_all pow missed_session (fst connect)) = consumer_after_game_over /\
    last (snd (handle_all pow missed_session (fst connect))) msg_system
      = msg_game_over (Round1 0.0) (Round1 6060.0) "F" /\
    receive pow 1700000100%float miss_data consumer_after_game_over =
      ({| state :=
            {| total_score := 0.0; max_possible_score := 6161.0;
               current_combo := 0; max_combo := 0; fever_gauge := 0;
               fever_active_notes := 0 |};
          note_index := 61;
          current_target_time := 1700000090588 |},
       [msg_result
          {| r_judgement := "MISS"; r_base_score := Round1 0.0;
             r_final_score := Round1 0.0; r_combo := 0;
             r_fever_active := false; r_fever_gauge := 0; r_fever_max := 100;
             r_fever_active_notes := 0; r_fever_duration := 10;
             r_total_score := Round1 0.0; r_rank := "F";
             r_debug_in := DebugMISS |};
        msg_game_over (Round1 0.0) (Round1 6161.0) "F"]).
Proof.
  split; [reflexivity|]. intros pow. repeat split; vm_compute; reflexivity.
Qed.

Lemma get_next_note_time_past_end now c :
  (List.length NOTE_INTERVALS <= note_index c)%nat ->
  get_next_note_time now c = (c, None).
Proof.
  intros H. unfold get_next_note_time.
  replace (note_index c <? List.length NOTE_INTERVALS)%nat with false;
    [reflexivity|].
  symmetry. apply Nat.ltb_ge. exact H.
Qed.

(** C3 (as amended).  The handler keeps no game-over state.  Once the
    cursor has passed the last schedule entry, a [gesture_complete] or
    [miss] message is still processed: the note built from it is judged by
    [process_note_result] against the last target time on the session state,
    which is updated; when the note is processed a result record is sent,
    followed by a game-over summary of the updated totals, and the cursor
    moves on; when it raises nothing is sent.  A start signal, in every
    state of the connection (whatever the cursor), installs a fresh
    [PlayState()], cursor 0, and the first target time
    [now·1000 + schedule[0]·1000]. *)
Theorem input_past_schedule_end_is_processed pow now data c :
  ((List.length NOTE_INTERVALS <= note_index c)%nat ->
   action data = gesture_complete \/ action data = miss ->
   match process_note_result pow (note_event_of data c) TimingConfig_default
           SpatialConfig_default ComboConfig_default FeverConfig_default
           (state c) with
   | (st, Ok result) =>
       receive pow now data c =
         ({| state := st; note_index := S (note_index c);
             current_target_time := current_target_time c |},
          [msg_result result;
           msg_game_over (Round1 (total_score st))
             (Round1 (max_possible_score st))
             (live_rank (total_score st) (max_possible_score st))])
   | (st, Raise _) =>
       receive pow now data c =
         ({| state := st; note_index := note_index c;
             current_target_time := current_target_time c |}, [])
   end) /\
  (action data = game_start ->
   let first := (now * 1000 + 0.209 * 1000)%float in
   receive pow now data c =
     ({| state := PlayState_new; note_index := 0;
         current_target_time := first |},
      [msg_game_start; msg_next_target (Some first)])).
Proof.
  split.
  - intros Hend Hact. unfold receive.
    destruct (process_note_result pow (note_event_of data c) TimingConfig_default
                SpatialConfig_default ComboConfig_default FeverConfig_default
                (state c)) as [st [result|e]] eqn:Hrun.
    + destruct Hact as [-> | ->]; cbv beta iota zeta;
        rewrite get_next_note_time_past_end by (cbn [note_index]; lia);
        cbn [truthy state];
        rewrite calculate_final_rank_live_rank; reflexivity.
    + destruct Hact as [-> | ->]; reflexivity.
  - intros Ha. unfold receive. rewrite Ha. reflexivity.
Qed.

(** The start signal on a connection that has just been opened (cursor 0),
    and a [miss] message on a connection whose game is over (cursor 60). *)
Lemma input_past_schedule_end_is_processed_witness :
  receive libm_pow_overflow 5%float start_data (fst connect) =
    ({| state := PlayState_new; note_index := 0;
        current_target_time := 5209 |},
     [msg_game_start; msg_next_target (Some 5209%float)]) /\
  (List.length NOTE_INTERVALS <= note_index consumer_after_game_over)%nat /\
  receive libm_pow_overflow 1700000100%float miss_data consumer_after_game_over =
    ({| state :=
          {| total_score := 0.0; max_possible_score := 6161.0;
             current_combo := 0; max_combo := 0; fever_gauge := 0;
             fever_active_notes := 0 |};
        note_index := 61;
        current_target_time := 1700000090588 |},
     [msg_result
        {| r_judgement := "MISS"; r_base_score := Round1 0.0;
           r_final_score := Round1 0.0; r_combo := 0;
           r_fever_active := false; r_fever_gauge := 0; r_fever_max := 100;
           r_fever_active_notes := 0; r_fever_duration := 10;
           r_total_score := Round1 0.0; r_rank := "F";
           r_debug_in := DebugMISS |};
      msg_game_over (Round1 0.0) (Round1 6161.0) "F"]).
Proof.
  assert (H : (List.length NOTE_INTERVALS
               <= note_index consumer_after_game_over)%nat)
    by (apply Nat.leb_le; reflexivity).
  split; [|split; [exact H|]].
  - exact (proj2 (input_past_schedule_end_is_processed libm_pow_overflow
                    5%float start_data (fst connect)) eq_refl).
  - exact (proj1 (input_past_schedule_end_is_processed libm_pow_overflow
                    1700000100%float miss_data consumer_after_game_over)
             H (or_intror eq_refl)).
Defined.

Example calculate_base_score_miss :
  calculate_base_score
    {| note_type := TAP; target_start := 1000; target_x := 100; target_y := 100;
       actual_entry := (-1); min_dist := 0; target_end := 0; actual_exit := 0 |}
    TimingConfig_default SpatialConfig_default = Ok (0.0%float, MISS).
Proof. vm_compute. reflexivity. Qed.

Example calculate_base_score_great :
  calculate_base_score
    {| note_type := TAP; target_start := 1000; target_x := 100; target_y := 100;
       actual_entry := 1520; min_dist := 0; target_end := 0; actual_exit := 0 |}
    TimingConfig_default SpatialConfig_default = Ok (75.0%float, GREAT).
Proof. vm_compute. reflexivity. Qed.

(** ** More binary64 arithmetic: differences, the clamp, NaN *)

Module FloatOrder.

Import Binary64.

(** a - b >= 0 when a is |x| for some x and b < a, whatever the sign of b *)
Lemma sub_gt_nonneg (a b : float) :
  signed false (Prim2SF a) ->
  PrimFloat.ltb b a = true ->
  PrimFloat.leb 0 (a - b) = true.
Proof.
  intros Hsa Hlt. apply FloatFacts.shape_leb0.
  pose proof (Prim2SF_valid (a - b)) as Hv.
  pose proof (Prim2SF_valid a) as Hva.
  pose proof (Prim2SF_valid b) as Hvb.
  rewrite ltb_spec in Hlt. rewrite sub_spec in *.
  inversion Hsa as [Ea | ma ea Ea | Ea]; symmetry in Ea; rewrite Ea in *;
    destruct (Prim2SF b) as [sb|sb| |sb mb eb] eqn:Eb;
    try destruct sb; try discriminate Hlt;
    try solve [cbn in Hv |- *; constructor; assumption].
  - (* finite, b negative *)
    set (ez := Z.min ea eb) in *.
    change (SF64sub (S754_finite false ma ea) (S754_finite true mb eb))
      with (binary_normalize prec emax
              (Zpos (aligned ma ea ez) + Zpos (aligned mb eb ez)) ez false) in *.
    pose proof (FloatFacts.normalize_signed
                  (Zpos (aligned ma ea ez) + Zpos (aligned mb eb ez)) ez
                  ltac:(lia)) as Hsg.
    replace (Zpos (aligned ma ea ez) + Zpos (aligned mb eb ez) <? 0)
      with false in Hsg by (symmetry; apply Z.ltb_ge; lia).
    remember (binary_normalize prec emax
                (Zpos (aligned ma ea ez) + Zpos (aligned mb eb ez)) ez false) as r.
    destruct Hsg; constructor. exact Hv.
  - (* finite, both positive *)
    cbn in Hva, Hvb.
    rewrite (FloatFacts.SFltb_valid _ _ _ _ Hvb Hva) in Hlt.
    apply Z.ltb_lt in Hlt.
    destruct (FloatFacts.bounded_spec ma ea Hva) as (_ & Hea & _).
    destruct (FloatFacts.bounded_spec mb eb Hvb) as (_ & Heb & _).
    set (ez := Z.min ea eb) in *.
    assert (Hez : -1074 <= ez /\ ez <= ea /\ ez <= eb) by (unfold ez; lia).
    pose proof (FloatFacts.aligned_scaled ma ea ez ltac:(unfold scale; lia)
                  ltac:(lia)) as Hv1.
    pose proof (FloatFacts.aligned_scaled mb eb ez ltac:(unfold scale; lia)
                  ltac:(lia)) as Hv2.
    pose proof (FloatFacts.pow2_pos (ez + scale) ltac:(unfold scale; lia)) as Hp.
    assert (HM : 0 < Zpos (aligned ma ea ez) - Zpos (aligned mb eb ez)).
    { apply Z.lt_0_sub.
      apply Z.mul_lt_mono_pos_r with (2 ^ (ez + scale)); [exact Hp|].
      fold (scaled (Zpos (aligned mb eb ez)) ez).
      fold (scaled (Zpos (aligned ma ea ez)) ez).
      rewrite Hv1, Hv2. exact Hlt. }
    change (SF64sub (S754_finite false ma ea) (S754_finite false mb eb))
      with (binary_normalize prec emax
              (Zpos (aligned ma ea ez) - Zpos (aligned mb eb ez)) ez false) in *.
    pose proof (FloatFacts.normalize_signed
                  (Zpos (aligned ma ea ez) - Zpos (aligned mb eb ez)) ez
                  ltac:(lia)) as Hsg.
    replace (Zpos (aligned ma ea ez) - Zpos (aligned mb eb ez) <? 0)
      with false in Hsg by (symmetry; apply Z.ltb_ge; lia).
    remember (binary_normalize prec emax
                (Zpos (aligned ma ea ez) - Zpos (aligned mb eb ez)) ez false) as r.
    destruct Hsg; constructor. exact Hv.
Qed.

Lemma leb_ltb_false (a b : float) :
  PrimFloat.leb a b = true -> PrimFloat.ltb b a = false.
Proof.
  rewrite leb_spec, ltb_spec. unfold SFleb, SFltb.
  rewrite (FloatFacts.SFcompare_antisym (Prim2SF a) (Prim2SF b)).
  destruct (SFcompare (Prim2SF a) (Prim2SF b)) as [[]|]; cbn; congruence.
Qed.

(** min(q, 1.0) <= 1.0 for a number q *)
Lemma min_one_le (q : float) :
  Prim2SF q <> S754_nan ->
  PrimFloat.leb (if PrimFloat.ltb 1 q then 1 else q) 1 = true.
Proof.
  intros Hq. destruct (PrimFloat.ltb 1 q) eqn:E; [reflexivity|].
  destruct (PrimFloat.leb q 1) eqn:E1; [reflexivity|].
  rewrite (FloatFacts.not_leb_ltb q 1 Hq) in E;
    [discriminate | rewrite FloatFacts.Prim2SF_one; discriminate | exact E1].
Qed.

Lemma mul_comm (a b : float) : (a * b = b * a)%float.
Proof.
  apply Prim2SF_inj. rewrite !mul_spec. unfold SF64mul, SFmul.
  destruct (Prim2SF a) as [sa|sa| |sa ma ea], (Prim2SF b) as [sb|sb| |sb mb eb];
    try destruct sa; try destruct sb; try reflexivity;
    rewrite (Pos.mul_comm mb ma), (Z.add_comm eb ea); reflexivity.
Qed.

(** NaN goes through the arithmetic and fails every comparison. *)

Lemma nan_sub_l (b : float) : (nan - b = nan)%float.
Proof. apply Prim2SF_inj. rewrite sub_spec. reflexivity. Qed.

Lemma nan_div_l (b : float) : (nan / b = nan)%float.
Proof. apply Prim2SF_inj. rewrite div_spec. reflexivity. Qed.

Lemma nan_add_r (a : float) : (a + nan = nan)%float.
Proof.
  apply Prim2SF_inj. rewrite add_spec. change (Prim2SF nan) with S754_nan.
  destruct (Prim2SF a); reflexivity.
Qed.

Lemma nan_mul_l (b : float) : (nan * b = nan)%float.
Proof. apply Prim2SF_inj. rewrite mul_spec. reflexivity. Qed.

Lemma nan_leb_l (b : float) : PrimFloat.leb nan b = false.
Proof. rewrite leb_spec. reflexivity. Qed.

Lemma nan_leb_r (a : float) : PrimFloat.leb a nan = false.
Proof. apply FloatFacts.leb_nan_r. reflexivity. Qed.

Lemma nan_ltb_l (b : float) : PrimFloat.ltb nan b = false.
Proof. rewrite ltb_spec. reflexivity. Qed.

Lemma nan_ltb_r (a : float) : PrimFloat.ltb a nan = false.
Proof.
  rewrite ltb_spec. change (Prim2SF nan) with S754_nan.
  unfold SFltb, SFcompare. destruct (Prim2SF a); reflexivity.
Qed.

End FloatOrder.

(** ** The helper functions *)

(** X1.  [calc_excess] is never negative and never NaN, whatever it is given;
    it is 0.0 inside the window, and outside the window, for numbers, it is
    the excess [|diff| - window] that [calculate_base_score] computes. *)
Theorem calc_excess_never_negative (diff_ms window : float) :
  Py.ge (calc_excess diff_ms window) 0 = true /\
  (Py.le (PrimFloat.abs diff_ms) window = true ->
   calc_excess diff_ms window = 0.0%float) /\
  (Py.eq diff_ms diff_ms = true -> Py.eq window window = true ->
   Py.le (PrimFloat.abs diff_ms) window = false ->
   calc_excess diff_ms window = (PrimFloat.abs diff_ms - window)%float).
Proof.
  unfold calc_excess, Py.ge, Py.gt, Py.le, Py.eq. cbv zeta. repeat split.
  - destruct (PrimFloat.ltb window (PrimFloat.abs diff_ms)) eqn:E;
      [|reflexivity].
    apply FloatOrder.sub_gt_nonneg; [|exact E].
    apply FloatFacts.abs_shape. intros Hn.
    rewrite ltb_spec, abs_spec, Hn in E.
    unfold SFltb, SFcompare in E. cbn [SFabs] in E.
    destruct (Prim2SF window); discriminate.
  - intros H. rewrite (FloatOrder.leb_ltb_false _ _ H). reflexivity.
  - intros Hd Hw H.
    assert (Ha : Prim2SF (PrimFloat.abs diff_ms) <> S754_nan).
    { apply FloatFacts.nonneg_not_nan, FloatFacts.abs_shape,
        FloatFacts.eqb_self_not_nan, Hd. }
    rewrite (FloatFacts.not_leb_ltb _ _ Ha
               (FloatFacts.eqb_self_not_nan _ Hw) H).
    reflexivity.
Qed.

(** X2.  For a non-negative excess and a positive, finite [max_excess] the ratio
    is computed (no division by zero) and lies in [[0, 1]]. *)
Theorem get_excess_ratio_in_unit_interval (excess_ms max_excess : float) :
  Py.ge excess_ms 0 = true ->
  Py.gt max_excess 0 = true ->
  Py.lt max_excess infinity = true ->
  exists ratio,
    get_excess_ratio excess_ms max_excess = Ok ratio /\
    Py.ge ratio 0 = true /\ Py.le ratio 1 = true.
Proof.
  unfold Py.ge, Py.gt, Py.lt, Py.le. intros He Hm0 Hmi.
  unfold get_excess_ratio, Py.div, Py.eq.
  rewrite (FloatFacts.pos_eqb_zero _ Hm0).
  pose proof (FloatFacts.div_nonneg _ _ He Hm0 Hmi) as Hq.
  eexists. split; [reflexivity|]. unfold Py.min, Py.lt. split.
  - apply FloatFacts.min_nonneg; [exact Hq | reflexivity].
  - apply FloatOrder.min_one_le.
    apply FloatFacts.nonneg_not_nan, FloatFacts.leb0_shape, Hq.
Qed.

Lemma get_excess_ratio_in_unit_interval_witness :
  exists ratio,
    get_excess_ratio (calc_excess 520 416) 416 = Ok ratio /\
    Py.ge ratio 0 = true /\ Py.le ratio 1 = true.
Proof.
  exact (get_excess_ratio_in_unit_interval (calc_excess 520 416) 416
           eq_refl eq_refl eq_refl).
Defined.

(** ** Not-a-number inputs *)

(** X3.  An entry time that is NaN is not the sentinel and is outside no window:
    on target, with a non-zero [excess_max], the note is judged GOOD and its
    base score is NaN, whatever the timing configuration. *)
Theorem nan_entry_time_is_judged_GOOD (note : NoteEvent) (t_cfg : TimingConfig)
    (s_cfg : SpatialConfig) :
  actual_entry note = nan ->
  Py.gt (min_dist note) (target_radius s_cfg) = false ->
  Py.eq (excess_max t_cfg) 0 = false ->
  calculate_base_score note t_cfg s_cfg = Ok (nan, GOOD).
Proof.
  intros Hn Hd Hm. unfold calculate_base_score, get_excess_ratio, Py.div.
  rewrite Hn, Hd, Hm. cbv zeta.
  change (Py.eq nan (-1)) with false. cbv iota.
  rewrite FloatOrder.nan_sub_l. change (PrimFloat.abs nan) with nan.
  unfold Py.le at 1. rewrite FloatOrder.nan_leb_l.
  rewrite FloatOrder.nan_sub_l, FloatOrder.nan_div_l.
  change (Py.min nan 1) with nan. change (Py.ge nan 1) with false. cbv iota.
  change (100 * (1 - nan))%float with nan.
  change (Py.le nan 0) with false. cbv iota.
  unfold Py.ge. rewrite FloatOrder.nan_leb_r. reflexivity.
Qed.

Lemma nan_entry_time_is_judged_GOOD_witness :
  calculate_base_score nan_note TimingConfig_default SpatialConfig_default
    = Ok (nan, GOOD).
Proof.
  exact (nan_entry_time_is_judged_GOOD nan_note TimingConfig_default
           SpatialConfig_default eq_refl eq_refl eq_refl).
Defined.

(** ** Combo, score and record of one note *)

Section NoteFacts.

Variable pow : float -> float -> result float.

(** The combo counters a note leaves, whether or not it is processed to the
    end. *)
Lemma process_note_result_combo note t_cfg s_cfg c_cfg f_cfg st b j :
  calculate_base_score note t_cfg s_cfg = Ok (b, j) ->
  let st' := fst (process_note_result pow note t_cfg s_cfg c_cfg f_cfg st) in
  current_combo st' = (if in_BAD_MISS j then 0 else current_combo st + 1) /\
  max_combo st' =
    (if in_BAD_MISS j then max_combo st
     else Z.max (max_combo st) (current_combo st + 1)).
Proof.
  intros Hc. cbv zeta.
  rewrite process_note_result_run, Hc, score_note_run.
  destruct (in_BAD_MISS j).
  - cbv zeta.
    destruct (charged_keeps f_cfg j (set_current_combo 0 st)) as (H1 & H2 & _).
    destruct (int_pow_float pow _ _); cbn [fst];
      cbn [current_combo max_combo set_max_possible_score set_total_score];
      rewrite H1, H2; split; reflexivity.
  - destruct (int_pow_float pow (current_combo st + 1) _) as [p|e];
      [|split; reflexivity].
    destruct (0 <? fever_active_notes st); cbv zeta;
      match goal with
      | |- context [charged f_cfg j ?s1] =>
          destruct (charged_keeps f_cfg j s1) as (H1 & H2 & _)
      end;
      (destruct (int_pow_float pow _ _); cbn [fst];
       cbn [current_combo max_combo set_max_possible_score set_total_score];
       rewrite H1, H2; split; reflexivity).
Qed.

Lemma calculate_base_score_BAD_MISS note t_cfg s_cfg b j :
  calculate_base_score note t_cfg s_cfg = Ok (b, j) ->
  in_BAD_MISS j = true -> b = 0.0%float.
Proof.
  unfold calculate_base_score, get_excess_ratio.
  repeat match goal with
  | |- context [if ?c then _ else _] => destruct c
  | |- context [match ?c with Ok _ => _ | Raise _ => _ end] => destruct c
  end; cbv zeta; intros [= <- <-]; (reflexivity || discriminate).
Qed.

Lemma calculate_base_score_MISS note t_cfg s_cfg b j :
  calculate_base_score note t_cfg s_cfg = Ok (b, j) ->
  (j = MISS <-> Py.eq (actual_entry note) (-1) = true).
Proof.
  unfold calculate_base_score, get_excess_ratio.
  destruct (Py.eq (actual_entry note) (-1)).
  - intros [= <- <-]. split; reflexivity.
  - repeat match goal with
    | |- context [if ?c then _ else _] => destruct c
    | |- context [match ?c with Ok _ => _ | Raise _ => _ end] => destruct c
    end; cbv zeta; intros [= <- <-]; split; discriminate.
Qed.

(** X4.  [max_combo] never goes down: whatever the note, the configurations and
    the state, and whether or not the note is processed to the end, the best
    combo after the note is at least the best combo before it. *)
Theorem max_combo_never_decreases note t_cfg s_cfg c_cfg f_cfg st :
  max_combo st
    <= max_combo (fst (process_note_result pow note t_cfg s_cfg c_cfg f_cfg st)).
Proof.
  destruct (calculate_base_score note t_cfg s_cfg) as [[b j]|e] eqn:Hc.
  - destruct (process_note_result_combo note t_cfg s_cfg c_cfg f_cfg st b j Hc)
      as [_ H].
    rewrite H. destruct (in_BAD_MISS j); lia.
  - rewrite (process_note_result_raises pow _ _ _ _ _ _ _ Hc). cbn [fst]. lia.
Qed.

Lemma combo_inv_step note t_cfg s_cfg c_cfg f_cfg st :
  combo_inv st ->
  combo_inv (fst (process_note_result pow note t_cfg s_cfg c_cfg f_cfg st)).
Proof.
  unfold combo_inv. intros H.
  destruct (calculate_base_score note t_cfg s_cfg) as [[b j]|e] eqn:Hc.
  - destruct (process_note_result_combo note t_cfg s_cfg c_cfg f_cfg st b j Hc)
      as [H1 H2].
    rewrite H1, H2. destruct (in_BAD_MISS j); lia.
  - rewrite (process_note_result_raises pow _ _ _ _ _ _ _ Hc). exact H.
Qed.

(** X5.  In a session the running combo is never negative and never above the
    best combo. *)
Theorem combo_bounded_by_max_combo c_cfg f_cfg st :
  in_session pow c_cfg f_cfg st ->
  0 <= current_combo st <= max_combo st.
Proof.
  induction 1 as [|st note t_cfg s_cfg _ IH].
  - cbn. lia.
  - apply combo_inv_step, IH.
Qed.

(** X6.  A note judged BAD or MISS has base score 0.0; it resets the combo to 0
    and leaves the best combo as it is, processed to the end or not; when it
    is processed, its record shows base score 0.0, final score 0.0 and
    combo 0, and 0.0 is what is added to the total. *)
Theorem bad_or_miss_scores_nothing
    note t_cfg s_cfg c_cfg f_cfg st b j :
  calculate_base_score note t_cfg s_cfg = Ok (b, j) ->
  in_BAD_MISS j = true ->
  let out := process_note_result pow note t_cfg s_cfg c_cfg f_cfg st in
  b = 0.0%float /\
  current_combo (fst out) = 0 /\
  max_combo (fst out) = max_combo st /\
  (forall r, snd out = Ok r ->
     r_base_score r = Round1 0.0 /\ r_final_score r = Round1 0.0 /\
     r_combo r = 0 /\
     total_score (fst out) = (total_score st + 0.0)%float).
Proof.
  intros Hc Hj out.
  pose proof (calculate_base_score_BAD_MISS _ _ _ _ _ Hc Hj) as Hb.
  destruct (process_note_result_combo note t_cfg s_cfg c_cfg f_cfg st b j Hc)
    as [H1 H2].
  fold out in H1, H2. rewrite Hj in H1, H2.
  repeat split; try assumption.
  - destruct out as [st' r'] eqn:Ho. cbn [snd] in H. subst r'.
    destruct (process_note_result_record pow _ _ _ _ _ _ _ _ Ho)
      as (b' & final & j' & Hc' & ->).
    rewrite Hc in Hc'. injection Hc' as <- <-. rewrite Hb. reflexivity.
  - destruct out as [st' r'] eqn:Ho. cbn [snd] in H. subst r'.
    destruct (process_note_result_totals pow _ _ _ _ _ _ _ _ _ _ Hc Ho)
      as (final & p & Hs & Hf & _).
    rewrite score_note_run, Hj in Hs. cbn [snd] in Hs.
    injection Hs as <-. exact Hf.
  - destruct out as [st' r'] eqn:Ho. cbn [snd] in H. subst r'.
    destruct (process_note_result_totals pow _ _ _ _ _ _ _ _ _ _ Hc Ho)
      as (final & p & _ & _ & Hcombo & _).
    rewrite Hcombo. exact H1.
  - destruct out as [st' r'] eqn:Ho. cbn [snd] in H. subst r'.
    destruct (process_note_result_totals pow _ _ _ _ _ _ _ _ _ _ Hc Ho)
      as (final & p & Hs & _ & _ & _ & _ & Htot & _).
    rewrite score_note_run, Hj in Hs. cbn [snd] in Hs.
    injection Hs as <-. exact Htot.
Qed.

End NoteFacts.

Lemma combo_bounded_by_max_combo_witness :
  let st := fst (process_default libm_pow_overflow perfect_note PlayState_new) in
  in_session libm_pow_overflow ComboConfig_default FeverConfig_default st /\
  0 <= current_combo st <= max_combo st.
Proof.
  intros st.
  assert (H : in_session libm_pow_overflow ComboConfig_default
                FeverConfig_default st)
    by (apply session_step, session_new).
  split; [exact H|].
  exact (combo_bounded_by_max_combo libm_pow_overflow _ _ _ H).
Defined.

Lemma bad_or_miss_scores_nothing_witness :
  calculate_base_score miss_note TimingConfig_default SpatialConfig_default
    = Ok (0.0%float, MISS) /\
  current_combo
    (fst (process_default libm_pow_overflow miss_note nearly_full_state)) = 0.
Proof.
  assert (H : calculate_base_score miss_note TimingConfig_default
                SpatialConfig_default = Ok (0.0%float, MISS)) by reflexivity.
  split; [exact H|].
  exact (proj1 (proj2 (bad_or_miss_scores_nothing libm_pow_overflow miss_note
                         TimingConfig_default SpatialConfig_default
                         ComboConfig_default FeverConfig_default
                         nearly_full_state 0.0%float MISS H eq_refl))).
Defined.

(** ** Hand gestures *)

(** X7.  The five gestures are told apart by the finger states alone: each is
    returned for exactly one combination of raised fingers, and every other
    combination is UNKNOWN. *)
Theorem classify_gesture_by_fingers (s : Ges.FingerStates) :
  let fingers :=
    (Ges.thumb s, Ges.index s, Ges.middle s, Ges.ring s, Ges.pinky s) in
  (Ges.classify_gesture s = "FIST"%string
     <-> fingers = (false, false, false, false, false)) /\
  (Ges.classify_gesture s = "OPEN_PALM"%string
     <-> fingers = (true, true, true, true, true)) /\
  (Ges.classify_gesture s = "THUMBS_UP"%string
     <-> fingers = (true, false, false, false, false)) /\
  (Ges.classify_gesture s = "PEACE"%string
     <-> fingers = (false, true, true, false, false)) /\
  (Ges.classify_gesture s = "POINT"%string
     <-> fingers = (false, true, false, false, false)) /\
  (In (Ges.classify_gesture s) Ges.GESTURES
     \/ Ges.classify_gesture s = "UNKNOWN"%string).
Proof.
  destruct s as [[] [] [] [] []]; cbv zeta; vm_compute;
    repeat split; try discriminate; try reflexivity; try tauto; intros; discriminate.
Qed.

Lemma item_spec lm i :
  match Ges.item lm i with
  | Ges.Returns _ => (i < List.length lm)%nat
  | Ges.Raises e => e = Ges.IndexError /\ (List.length lm <= i)%nat
  end.
Proof.
  unfold Ges.item. destruct (nth_error lm i) eqn:E.
  - apply nth_error_Some. congruence.
  - split; [reflexivity|]. apply nth_error_None. exact E.
Qed.

Lemma finger_up_states_landmarks lm label :
  match Ges._finger_up_states lm label with
  | Ges.Returns _ => (21 <= List.length lm)%nat
  | Ges.Raises e => e = Ges.IndexError /\ (List.length lm < 21)%nat
  end.
Proof.
  unfold Ges._finger_up_states. cbv zeta.
  repeat match goal with
  | |- context [Ges.item lm ?i] =>
      let H := fresh "H" in
      pose proof (item_spec lm i) as H;
      destruct (Ges.item lm i); cbn [Ges.and_then];
      [| destruct H as [-> H]; split; [reflexivity | lia]]
  end.
  lia.
Qed.

(** X8.  The finger states are computed from landmarks 2 to 20: with the 21
    landmarks of a hand the function returns, and with fewer than 21 it
    raises [IndexError], whatever the handedness label. *)
Theorem finger_up_states_needs_21_landmarks lm label :
  match Ges._finger_up_states lm label with
  | Ges.Returns _ => (21 <= List.length lm)%nat
  | Ges.Raises e => e = Ges.IndexError /\ (List.length lm < 21)%nat
  end.
Proof. exact (finger_up_states_landmarks lm label). Qed.

(** *** The most frequent label *)

Module TallyFacts.

Lemma first_seen_snoc q k :
  first_seen (q ++ [k]) =
    if in_dec string_dec k (first_seen q) then first_seen q
    else first_seen q ++ [k].
Proof. unfold first_seen. rewrite fold_left_app. reflexivity. Qed.

Lemma first_seen_In q k : In k (first_seen q) <-> In k q.
Proof.
  induction q as [|z q IH] using rev_ind; [reflexivity|].
  rewrite first_seen_snoc.
  destruct (in_dec string_dec z (first_seen q)) as [Hin|Hout].
  - rewrite in_app_iff, IH. cbn. split; [tauto|].
    intros [H|[<-|[]]]; [exact H|]. apply IH. exact Hin.
  - rewrite !in_app_iff, IH. reflexivity.
Qed.

Lemma first_seen_NoDup q : NoDup (first_seen q).
Proof.
  induction q as [|z q IH] using rev_ind; [constructor|].
  rewrite first_seen_snoc.
  destruct (in_dec string_dec z (first_seen q)) as [Hin|Hout]; [exact IH|].
  apply NoDup_app; [exact IH | repeat constructor; intros [] |].
  intros a Ha [<-|[]]. contradiction.
Qed.

Lemma dict_get_items (g : string -> Z) ks k d :
  Ges.dict_get (map (fun k => (k, g k)) ks) k d =
    if in_dec string_dec k ks then g k else d.
Proof.
  induction ks as [|k0 ks IH]; [reflexivity|]. cbn [map Ges.dict_get].
  destruct (String.eqb_spec k0 k) as [->|Hne].
  - destruct (in_dec string_dec k (k :: ks)) as [_|Hout]; [reflexivity|].
    exfalso. apply Hout. left. reflexivity.
  - rewrite IH.
    destruct (in_dec string_dec k ks) as [Hin|Hout],
             (in_dec string_dec k (k0 :: ks)) as [Hin'|Hout'];
      try reflexivity; exfalso.
    + apply Hout'. right. exact Hin.
    + destruct Hin' as [E|Hin']; [exact (Hne E) | exact (Hout Hin')].
Qed.

Lemma dict_set_items_there (g : string -> Z) ks k v :
  NoDup ks -> In k ks ->
  Ges.dict_set (map (fun k => (k, g k)) ks) k v =
    map (fun k' => (k', if String.eqb k' k then v else g k')) ks.
Proof.
  induction ks as [|k0 ks IH]; [intros _ []|].
  intros Hnd Hin. inversion Hnd as [|? ? Hk0 Hnd']; subst.
  cbn [map Ges.dict_set].
  destruct (String.eqb_spec k0 k) as [->|Hne].
  - f_equal. apply map_ext_in. intros k' Hk'.
    destruct (String.eqb_spec k' k) as [->|_]; [contradiction | reflexivity].
  - f_equal. apply IH; [exact Hnd'|].
    destruct Hin as [E|Hin]; [contradiction | exact Hin].
Qed.

Lemma dict_set_items_new (g : string -> Z) ks k v :
  ~ In k ks ->
  Ges.dict_set (map (fun k => (k, g k)) ks) k v =
    map (fun k => (k, g k)) ks ++ [(k, v)].
Proof.
  induction ks as [|k0 ks IH]; [reflexivity|].
  intros Hout. cbn [map Ges.dict_set app].
  destruct (String.eqb_spec k0 k) as [->|Hne].
  - exfalso. apply Hout. left. reflexivity.
  - f_equal. apply IH. intros Hin. apply Hout. right. exact Hin.
Qed.

Lemma count_snoc q z k :
  Z.of_nat (count_occ string_dec (q ++ [z]) k) =
    Z.of_nat (count_occ string_dec q k) + (if String.eqb k z then 1 else 0).
Proof.
  rewrite count_occ_app. cbn [count_occ].
  destruct (string_dec z k) as [->|Hne].
  - rewrite String.eqb_refl. lia.
  - destruct (String.eqb_spec k z) as [->|_]; [contradiction | lia].
Qed.

(** The dictionary [stable_label] builds: the labels in the order of their
    first occurrence, each with the number of its occurrences. *)
Lemma tally_items q :
  fold_left (fun freq k => Ges.dict_set freq k (Ges.dict_get freq k 0 + 1)) q []
  = map (tally_item q) (first_seen q).
Proof.
  induction q as [|z q IH] using rev_ind; [reflexivity|].
  rewrite fold_left_app. cbn [fold_left]. rewrite IH, first_seen_snoc.
  unfold tally_item at 1 2.
  rewrite (dict_get_items (fun k => Z.of_nat (count_occ string_dec q k))).
  destruct (in_dec string_dec z (first_seen q)) as [Hin|Hout].
  - rewrite dict_set_items_there by (auto using first_seen_NoDup).
    apply map_ext. intros k. unfold tally_item. rewrite count_snoc.
    destruct (String.eqb k z) eqn:E; [|f_equal; lia].
    apply String.eqb_eq in E. subst k. reflexivity.
  - rewrite dict_set_items_new by exact Hout.
    rewrite map_app. cbn [map]. f_equal.
    + apply map_ext_in. intros k Hk. unfold tally_item. rewrite count_snoc.
      destruct (String.eqb_spec k z) as [->|_]; [contradiction|].
      f_equal. lia.
    + unfold tally_item. rewrite count_snoc, String.eqb_refl.
      assert (Hz : count_occ string_dec q z = 0%nat).
      { apply count_occ_not_In. intros Hq. apply Hout, first_seen_In, Hq. }
      rewrite Hz. reflexivity.
Qed.

(** [max] keeps the first of the items with the greatest count. *)
Lemma first_max_items (g : string -> Z) rest :
  forall pre best mid,
    (forall k, In k pre -> g k < g best) ->
    (forall k, In k mid -> g k <= g best) ->
    exists pre' best' post',
      pre ++ best :: mid ++ rest = pre' ++ best' :: post' /\
      fold_left (fun best kv => if snd best <? snd kv then kv else best)
        (map (fun k => (k, g k)) rest) (best, g best) = (best', g best') /\
      (forall k, In k pre' -> g k < g best') /\
      (forall k, In k post' -> g k <= g best').
Proof.
  induction rest as [|k rest IH]; intros pre best mid Hpre Hmid.
  - exists pre, best, mid. rewrite app_nil_r. auto.
  - cbn [map fold_left snd].
    destruct (g best <? g k) eqn:E.
    + apply Z.ltb_lt in E.
      destruct (IH (pre ++ best :: mid) k []) as (pre' & best' & post' & H).
      * intros k' Hk'. apply in_app_iff in Hk'.
        destruct Hk' as [Hk'|[<-|Hk']];
          [specialize (Hpre _ Hk') | | specialize (Hmid _ Hk')]; lia.
      * intros k' [].
      * exists pre', best', post'. rewrite <- (proj1 H).
        split; [|exact (proj2 H)].
        rewrite <- !app_assoc. reflexivity.
    + apply Z.ltb_ge in E.
      destruct (IH pre best (mid ++ [k])) as (pre' & best' & post' & H).
      * exact Hpre.
      * intros k' Hk'. apply in_app_iff in Hk'.
        destruct Hk' as [Hk'|[<-|[]]]; [exact (Hmid _ Hk') | exact E].
      * exists pre', best', post'. rewrite <- (proj1 H).
        split; [|exact (proj2 H)].
        rewrite <- !app_assoc. reflexivity.
Qed.

Lemma first_seen_nonempty z q : first_seen (z :: q) <> [].
Proof.
  intros E. assert (H : In z (first_seen (z :: q))).
  { apply first_seen_In. left. reflexivity. }
  rewrite E in H. exact H.
Qed.

(** What [stable_label] returns on a queue that is not empty. *)
Lemma stable_label_first_max z q :
  exists pre best post,
    Ges.stable_label (z :: q) = Ges.Returns best /\
    first_seen (z :: q) = pre ++ best :: post /\
    (forall k, In k pre ->
       (count_occ string_dec (z :: q) k < count_occ string_dec (z :: q) best)%nat) /\
    (forall k, In k post ->
       (count_occ string_dec (z :: q) k <= count_occ string_dec (z :: q) best)%nat).
Proof.
  unfold Ges.stable_label. cbv zeta. rewrite tally_items.
  pose proof (first_seen_nonempty z q) as Hne.
  destruct (first_seen (z :: q)) as [|k0 ks]; [congruence|].
  cbn [map Ges.max_by_count Ges.and_then].
  destruct (first_max_items
              (fun k => Z.of_nat (count_occ string_dec (z :: q) k)) ks [] k0 [])
    as (pre & best & post & Hsplit & Hfold & Hpre & Hpost);
    [intros k [] | intros k [] |].
  cbn [app] in Hsplit. unfold tally_item at 2.
  change (map (tally_item (z :: q)) ks)
    with (map (fun k => (k, Z.of_nat (count_occ string_dec (z :: q) k))) ks).
  rewrite Hfold. cbn [fst].
  exists pre, best, post. split; [reflexivity|]. split; [exact Hsplit|].
  split; intros k Hk; [specialize (Hpre k Hk) | specialize (Hpost k Hk)]; lia.
Qed.

Lemma first_occurrence (k : string) q :
  In k q -> exists l1 l2, q = l1 ++ k :: l2 /\ ~ In k l1.
Proof.
  induction q as [|z q IH]; [intros []|].
  intros Hin. destruct (string_dec z k) as [->|Hne].
  - exists [], q. split; [reflexivity | intros []].
  - destruct Hin as [E|Hin]; [contradiction|].
    destruct (IH Hin) as (l1 & l2 & -> & Hout).
    exists (z :: l1), l2. split; [reflexivity|].
    intros [E|H]; [exact (Hne E) | exact (Hout H)].
Qed.

(** The labels first seen before [k] are the labels that occur before the
    first occurrence of [k]. *)
Lemma first_seen_split q :
  forall k l1 l2, q = l1 ++ k :: l2 -> ~ In k l1 ->
  exists k1 k2, first_seen q = k1 ++ k :: k2 /\
    forall k', In k' k1 <-> In k' l1.
Proof.
  induction q as [|z q IH] using rev_ind; intros k l1 l2 Hq Hout.
  - destruct l1; discriminate.
  - rewrite first_seen_snoc.
    destruct l2 as [|y l2] using rev_ind.
    + apply app_inj_tail in Hq. destruct Hq as [-> ->].
      destruct (in_dec string_dec k (first_seen l1)) as [Hin|_].
      * exfalso. apply Hout, first_seen_In, Hin.
      * exists (first_seen l1), []. split; [reflexivity|].
        intros k'. apply first_seen_In.
    + clear IHl2.
      replace (l1 ++ k :: l2 ++ [y]) with ((l1 ++ k :: l2) ++ [y]) in Hq
        by (rewrite <- app_assoc; reflexivity).
      apply app_inj_tail in Hq. destruct Hq as [-> ->].
      destruct (IH k l1 l2 eq_refl Hout) as (k1 & k2 & E & Hiff).
      rewrite E.
      destruct (in_dec string_dec y (k1 ++ k :: k2)) as [_|_].
      * exists k1, k2. split; [reflexivity | exact Hiff].
      * exists k1, (k2 ++ [y]). split; [|exact Hiff].
        rewrite <- app_assoc. reflexivity.
Qed.

Lemma NoDup_split_unique (k : string) a b a' b' :
  NoDup (a ++ k :: b) -> a ++ k :: b = a' ++ k :: b' -> a = a'.
Proof.
  revert a'. induction a as [|z a IH]; intros a' Hnd E.
  - destruct a' as [|z' a']; [reflexivity|].
    cbn in E. injection E as <- E. exfalso.
    inversion Hnd as [|? ? Hk _]; subst. apply Hk.
    apply in_or_app. right. left. reflexivity.
  - destruct a' as [|z' a'].
    + cbn in E. injection E as -> E. exfalso.
      inversion Hnd as [|? ? Hk _]; subst. apply Hk.
      apply in_or_app. right. left. reflexivity.
    + cbn in E. injection E as -> E. f_equal.
      inversion Hnd; subst. apply IH; assumption.
Qed.

End TallyFacts.

(** X9.  The label [stable_label] returns for a queue that is not empty is one of
    the queue's labels and no label occurs more often; for the empty queue
    it is UNKNOWN.  The function never raises. *)
Theorem stable_label_is_most_frequent (q : list string) :
  exists best,
    Ges.stable_label q = Ges.Returns best /\
    match q with
    | [] => best = "UNKNOWN"%string
    | _ :: _ =>
        In best q /\
        forall k, (count_occ string_dec q k <= count_occ string_dec q best)%nat
    end.
Proof.
  destruct q as [|z q]; [exists "UNKNOWN"%string; split; reflexivity|].
  destruct (TallyFacts.stable_label_first_max z q)
    as (pre & best & post & Hret & Hsplit & Hpre & Hpost).
  exists best. split; [exact Hret|].
  assert (Hbest : In best (z :: q)).
  { apply TallyFacts.first_seen_In. rewrite Hsplit.
    apply in_or_app. right. left. reflexivity. }
  split; [exact Hbest|]. intros k.
  destruct (in_dec string_dec k (z :: q)) as [Hin|Hout].
  - apply TallyFacts.first_seen_In in Hin. rewrite Hsplit in Hin.
    apply in_app_iff in Hin. destruct Hin as [Hin|[<-|Hin]].
    + specialize (Hpre k Hin). lia.
    + lia.
    + exact (Hpost k Hin).
  - apply (count_occ_not_In string_dec) in Hout. rewrite Hout. lia.
Qed.

(** X10.  Ties go to the label seen first: every label that occurs in the queue
    before the first occurrence of the returned label occurs strictly less
    often than it. *)
Theorem stable_label_prefers_earliest (z : string) (q : list string) :
  exists best before after,
    Ges.stable_label (z :: q) = Ges.Returns best /\
    z :: q = before ++ best :: after /\
    ~ In best before /\
    forall k, In k before ->
      (count_occ string_dec (z :: q) k
       < count_occ string_dec (z :: q) best)%nat.
Proof.
  destruct (TallyFacts.stable_label_first_max z q)
    as (pre & best & post & Hret & Hsplit & Hpre & _).
  assert (Hin : In best (z :: q)).
  { apply TallyFacts.first_seen_In. rewrite Hsplit.
    apply in_or_app. right. left. reflexivity. }
  destruct (TallyFacts.first_occurrence best (z :: q) Hin)
    as (l1 & l2 & Hq & Hout).
  exists best, l1, l2. split; [exact Hret|]. split; [exact Hq|].
  split; [exact Hout|].
  destruct (TallyFacts.first_seen_split (z :: q) best l1 l2 Hq Hout)
    as (k1 & k2 & Hsplit' & Hiff).
  assert (E : pre = k1).
  { apply (TallyFacts.NoDup_split_unique best pre post k1 k2).
    - rewrite <- Hsplit. apply TallyFacts.first_seen_NoDup.
    - rewrite <- Hsplit. exact Hsplit'. }
  subst k1. intros k Hk. apply Hpre, Hiff, Hk.
Qed.

(** *** The bounding box and the log line *)

Lemma hand_bbox_px_corners lm w h x y bw bh :
  Ges.hand_bbox_px lm w h = Ges.Returns (x, y, bw, bh) ->
  1 <= w -> 1 <= h ->
  0 <= x <= w - 1 /\ 0 <= y <= h - 1 /\
  0 <= x + bw <= w - 1 /\ 0 <= y + bh <= h - 1.
Proof.
  unfold Ges.hand_bbox_px. cbv zeta.
  repeat match goal with
  | |- context [Ges.and_then ?m _] =>
      lazymatch m with
      | context [Ges.and_then _ _] => fail
      | _ => destruct m; cbn [Ges.and_then]; [|discriminate]
      end
  end.
  intros [= <- <- <- <-] Hw Hh. lia.
Qed.

(** X11.  For an image of at least one pixel each way, the box [hand_bbox_px]
    returns has both corners inside the image: [0 <= x <= w - 1],
    [0 <= y <= h - 1], and the same for [x + bw] and [y + bh].  With no
    landmark at all the function raises [ValueError]. *)
Theorem hand_bbox_px_inside_image lm w h x y bw bh :
  Ges.hand_bbox_px lm w h = Ges.Returns (x, y, bw, bh) ->
  1 <= w -> 1 <= h ->
  (0 <= x <= w - 1 /\ 0 <= y <= h - 1 /\
   0 <= x + bw <= w - 1 /\ 0 <= y + bh <= h - 1) /\
  Ges.hand_bbox_px [] w h = Ges.Raises Ges.ValueError.
Proof.
  intros Hb Hw Hh. split; [|reflexivity].
  exact (hand_bbox_px_corners _ _ _ _ _ _ _ Hb Hw Hh).
Qed.

Lemma hand_bbox_px_inside_image_witness :
  Ges.hand_bbox_px still_hand 640 480 = Ges.Returns (320, 240, 0, 0) /\
  (0 <= 320 <= 640 - 1 /\ 0 <= 240 <= 480 - 1 /\
   0 <= 320 + 0 <= 640 - 1 /\ 0 <= 240 + 0 <= 480 - 1).
Proof.
  assert (H : Ges.hand_bbox_px still_hand 640 480
              = Ges.Returns (320, 240, 0, 0)) by (vm_compute; reflexivity).
  split; [exact H|].
  exact (proj1 (hand_bbox_px_inside_image still_hand 640 480 320 240 0 0 H
                  ltac:(lia) ltac:(lia))).
Defined.

(** X12.  The centre [log_gesture] prints for a box that [hand_bbox_px] returned
    lies inside the image as well, and the line shows the box unchanged. *)
Theorem logged_center_inside_image lm w h bbox ts gesture handedness :
  Ges.hand_bbox_px lm w h = Ges.Returns bbox ->
  1 <= w -> 1 <= h ->
  let line := Ges.log_gesture ts gesture handedness bbox in
  Ges.log_bbox line = bbox /\
  0 <= fst (Ges.log_center line) <= w - 1 /\
  0 <= snd (Ges.log_center line) <= h - 1.
Proof.
  intros Hb Hw Hh. destruct bbox as [[[x y] bw] bh].
  destruct (hand_bbox_px_corners lm w h x y bw bh Hb Hw Hh)
    as (Hx & Hy & Hx2 & Hy2).
  cbn. split; [reflexivity|].
  pose proof (Z.div_mod bw 2 ltac:(lia)).
  pose proof (Z.mod_pos_bound bw 2 ltac:(lia)).
  pose proof (Z.div_mod bh 2 ltac:(lia)).
  pose proof (Z.mod_pos_bound bh 2 ltac:(lia)).
  lia.
Qed.

Lemma logged_center_inside_image_witness :
  Ges.hand_bbox_px still_hand 640 480 = Ges.Returns (320, 240, 0, 0) /\
  0 <= fst (Ges.log_center
              (Ges.log_gesture "12:00:00.000" "FIST" "Right" (320, 240, 0, 0)))
    <= 640 - 1.
Proof.
  assert (H : Ges.hand_bbox_px still_hand 640 480
              = Ges.Returns (320, 240, 0, 0)) by (vm_compute; reflexivity).
  split; [exact H|].
  exact (proj1 (proj2 (logged_center_inside_image still_hand 640 480
                         (320, 240, 0, 0) "12:00:00.000" "FIST" "Right" H
                         ltac:(lia) ltac:(lia)))).
Defined.

(** *** The capture loop *)

Lemma in_GESTURES_In g : Ges.in_GESTURES g = true -> In g Ges.GESTURES.
Proof.
  unfold Ges.in_GESTURES. rewrite existsb_exists.
  intros (k & Hk & E). apply String.eqb_eq in E. subst k. exact Hk.
Qed.

Lemma append_length q v :
  (List.length q <= 10)%nat -> (List.length (Ges.append q v) <= 10)%nat.
Proof.
  intros H. unfold Ges.append.
  destruct (List.length q <? 10)%nat eqn:E.
  - apply Nat.ltb_lt in E. rewrite length_app. cbn. lia.
  - apply Nat.ltb_ge in E. rewrite length_app. destruct q; cbn in *; lia.
Qed.

(** What one turn of the loop does to the log and to the last gesture
    logged. *)
Lemma frame_step_log fr s s' logs :
  Ges.frame_step fr s = Ges.Returns (s', logs) ->
  ((List.length (Ges.recent s) <= 10)%nat ->
   (List.length (Ges.recent s') <= 10)%nat) /\
  (logs = [] /\
     (Ges.last_logged s' = Ges.last_logged s \/ Ges.detected fr = Ges.no_hand)
   \/ exists line,
        logs = [line] /\ In (Ges.log_gesture_name line) Ges.GESTURES /\
        Ges.last_logged s <> Some (Ges.log_gesture_name line) /\
        Ges.last_logged s' = Some (Ges.log_gesture_name line)).
Proof.
  unfold Ges.frame_step.
  destruct (Ges.detected fr) as [|lm handedness].
  - intros [= <- <-]. split; [cbn; lia|]. left. auto.
  - destruct (Ges._finger_up_states lm handedness) as [states|];
      cbn [Ges.and_then]; [|discriminate].
    destruct (Ges.stable_label _) as [gesture|]; cbn [Ges.and_then];
      [|discriminate].
    destruct (Ges.hand_bbox_px lm _ _) as [bbox|]; cbn [Ges.and_then];
      [|discriminate].
    destruct (Ges.in_GESTURES gesture) eqn:Hin; cbn [andb].
    + destruct (Ges.differs gesture (Ges.last_logged s)) eqn:Hd;
        intros [= <- <-]; cbn [Ges.recent Ges.last_logged];
        (split; [apply append_length|]).
      * right. eexists. split; [reflexivity|].
        destruct bbox as [[[bx by_] bw] bh]. cbn [Ges.log_gesture Ges.log_gesture_name].
        split; [apply in_GESTURES_In, Hin|]. split; [|reflexivity].
        unfold Ges.differs in Hd. destruct (Ges.last_logged s) as [g|];
          [|discriminate].
        intros [= ->]. rewrite String.eqb_refl in Hd. discriminate.
      * left. auto.
    + intros [= <- <-]. cbn [Ges.recent Ges.last_logged].
      split; [apply append_length|]. left. auto.
Qed.

Lemma last_cons_default {A} (l : list A) :
  forall x d, last (x :: l) d = last l x.
Proof.
  induction l as [|y l IH]; intros x d; [reflexivity|].
  change (last (x :: y :: l) d) with (last (y :: l) d).
  rewrite !IH. reflexivity.
Qed.

Lemma main_loop_changes_only frames :
  forall s s' logs,
    Ges.main_loop frames s = Ges.Returns (s', logs) ->
    Forall (fun line => In (Ges.log_gesture_name line) Ges.GESTURES) logs /\
    ((List.length (Ges.recent s) <= 10)%nat ->
     (List.length (Ges.recent s') <= 10)%nat) /\
    (Forall (fun fr => Ges.detected fr <> Ges.no_hand) frames ->
     changes_only (Ges.last_logged s) (map Ges.log_gesture_name logs) /\
     Ges.last_logged s' =
       last (map Some (map Ges.log_gesture_name logs)) (Ges.last_logged s)).
Proof.
  induction frames as [|fr rest IH]; intros s s' logs; cbn [Ges.main_loop].
  - intros [= <- <-]. cbn. auto.
  - destruct (Ges.frame_step fr s) as [[s1 l1]|] eqn:Hstep;
      cbn [Ges.and_then fst snd]; [|discriminate].
    destruct (Ges.main_loop rest s1) as [[s2 l2]|] eqn:Hrest;
      cbn [Ges.and_then fst snd]; [|discriminate].
    intros [= <- <-].
    destruct (frame_step_log _ _ _ _ Hstep) as (Hlen1 & Hlog).
    destruct (IH _ _ _ Hrest) as (Hin2 & Hlen2 & Hch2).
    split; [|split].
    + apply Forall_app. split; [|exact Hin2].
      destruct Hlog as [(-> & _) | (line & -> & Hin & _)].
      * apply Forall_nil.
      * apply Forall_cons; [exact Hin | apply Forall_nil].
    + auto.
    + intros Hhands. inversion Hhands as [|? ? Hfr Hrest']; subst.
      destruct (Hch2 Hrest') as (Hc & Hlast).
      destruct Hlog as [(-> & [E|E]) | (line & -> & _ & Hne & E)].
      * cbn [app]. rewrite <- E. auto.
      * contradiction.
      * cbn [app map changes_only]. rewrite E in Hc, Hlast.
        split; [split; assumption|].
        rewrite Hlast. symmetry. apply last_cons_default.
Qed.

Lemma changes_only_adjacent names :
  forall prev l1 a b l2,
    changes_only prev names -> names = l1 ++ a :: b :: l2 -> a <> b.
Proof.
  induction names as [|n rest IH]; intros prev l1 a b l2 Hc E.
  - destruct l1; discriminate.
  - destruct Hc as [_ Hc]. destruct l1 as [|z l1].
    + cbn in E. injection E as -> ->. destruct Hc as [Hne _].
      intros ->. apply Hne. reflexivity.
    + cbn in E. injection E as -> E. exact (IH _ _ _ _ _ Hc E).
Qed.

(** X13.  Every line the loop logs names one of the five gestures; while a hand
    stays in view no line repeats the gesture of the line before it; and
    the window of recent labels never holds more than ten. *)
Theorem main_loop_logs_changes_only frames s' logs :
  Ges.main_loop frames Ges.Loop_new = Ges.Returns (s', logs) ->
  Forall (fun line => In (Ges.log_gesture_name line) Ges.GESTURES) logs /\
  (List.length (Ges.recent s') <= 10)%nat /\
  (Forall (fun fr => Ges.detected fr <> Ges.no_hand) frames ->
   forall l1 a b l2,
     map Ges.log_gesture_name logs = l1 ++ a :: b :: l2 -> a <> b).
Proof.
  intros Hrun.
  destruct (main_loop_changes_only frames _ _ _ Hrun) as (Hin & Hlen & Hch).
  split; [exact Hin|]. split; [apply Hlen; cbn; lia|].
  intros Hhands l1 a b l2 E.
  destruct (Hch Hhands) as [Hc _].
  exact (changes_only_adjacent _ _ _ _ _ _ Hc E).
Qed.

Lemma main_loop_logs_changes_only_witness :
  Ges.main_loop [fist_frame; fist_frame] Ges.Loop_new =
    Ges.Returns
      ({| Ges.recent := ["FIST"; "FIST"]%string;
          Ges.last_logged := Some "FIST"%string |},
       [Ges.log_gesture "12:00:00.000" "FIST" "Right" (320, 240, 0, 0)]) /\
  Forall (fun line => In (Ges.log_gesture_name line) Ges.GESTURES)
    [Ges.log_gesture "12:00:00.000" "FIST" "Right" (320, 240, 0, 0)].
Proof.
  assert (H : Ges.main_loop [fist_frame; fist_frame] Ges.Loop_new =
    Ges.Returns
      ({| Ges.recent := ["FIST"; "FIST"]%string;
          Ges.last_logged := Some "FIST"%string |},
       [Ges.log_gesture "12:00:00.000" "FIST" "Right" (320, 240, 0, 0)]))
    by (vm_compute; reflexivity).
  split; [exact H|].
  exact (proj1 (main_loop_logs_changes_only _ _ _ H)).
Defined.

(** ** The session handler: clock, schedule and replies *)

Section HandlerFacts.

Variable pow : float -> float -> result float.

(** The handler reads the clock for the start signal only. *)
Lemma receive_ignores_clock now now' data c :
  action data <> game_start ->
  receive pow now data c = receive pow now' data c.
Proof.
  intros Ha. unfold receive.
  destruct (action data); try reflexivity. contradiction.
Qed.

(** X14.  After the start signal the clock plays no part: a session's final
    connection state and replies are the same whenever the later messages
    arrive. *)
Theorem clock_read_only_at_game_start events events' c :
  map snd events = map snd events' ->
  Forall (fun e => action (snd e) <> game_start) events ->
  handle_all pow events c = handle_all pow events' c.
Proof.
  revert events' c.
  induction events as [|[now data] rest IH]; intros [|[now' data'] rest'] c E H;
    try discriminate; [reflexivity|].
  cbn [map snd] in E. injection E as <- E.
  inversion H as [|? ? Ha Hrest]; subst. cbn [snd] in Ha.
  cbn [handle_all]. rewrite (receive_ignores_clock now now' data c Ha).
  destruct (receive pow now' data c) as [c1 out1].
  rewrite (IH rest' c1 E Hrest). reflexivity.
Qed.

Lemma get_next_note_time_on_schedule start now c :
  note_index c <> 0%nat ->
  current_target_time c = target_at start (Nat.min (Nat.pred (note_index c)) 59) ->
  let '(c', t) := get_next_note_time now c in
  on_schedule start c' /\ note_index c' = note_index c /\ state c' = state c /\
  match t with
  | Some v => (note_index c < 60)%nat /\ v = target_at start (note_index c)
  | None => (60 <= note_index c)%nat
  end.
Proof.
  intros Hn Ht. unfold get_next_note_time.
  change (List.length NOTE_INTERVALS) with 60%nat.
  destruct (note_index c <? 60)%nat eqn:E.
  - apply Nat.ltb_lt in E.
    destruct (note_index c) as [|k] eqn:Ek; [congruence|].
    cbn [Nat.eqb Nat.pred] in *. unfold on_schedule.
    cbn [current_target_time note_index state].
    rewrite Ht. rewrite !Nat.min_l by lia.
    repeat split; try reflexivity; exact E.
  - apply Nat.ltb_ge in E. unfold on_schedule. rewrite Ht.
    rewrite !Nat.min_r by lia.
    repeat split; try reflexivity; exact E.
Qed.

Lemma receive_on_schedule start now data c :
  action data <> game_start ->
  on_schedule start c ->
  on_schedule start (fst (receive pow now data c)) /\
  Forall (scheduled start) (snd (receive pow now data c)).
Proof.
  intros Ha Hs. unfold receive.
  assert (Hnote :
    on_schedule start
      (fst (match process_note_result pow (note_event_of data c)
                    TimingConfig_default SpatialConfig_default
                    ComboConfig_default FeverConfig_default (state c) with
            | (st, Raise _) =>
                ({| state := st; note_index := note_index c;
                    current_target_time := current_target_time c |}, [])
            | (st, Ok result) =>
                let c1 := {| state := st; note_index := S (note_index c);
                             current_target_time := current_target_time c |} in
                let '(c2, next_time) := get_next_note_time now c1 in
                if truthy next_time then
                  (c2, [msg_result result; msg_next_target next_time])
                else
                  (c2, [msg_result result;
                        msg_game_over (Round1 (total_score (state c2)))
                          (Round1 (max_possible_score (state c2)))
                          (calculate_final_rank c2)])
            end)) /\
    Forall (scheduled start)
      (snd (match process_note_result pow (note_event_of data c)
                    TimingConfig_default SpatialConfig_default
                    ComboConfig_default FeverConfig_default (state c) with
            | (st, Raise _) =>
                ({| state := st; note_index := note_index c;
                    current_target_time := current_target_time c |}, [])
            | (st, Ok result) =>
                let c1 := {| state := st; note_index := S (note_index c);
                             current_target_time := current_target_time c |} in
                let '(c2, next_time) := get_next_note_time now c1 in
                if truthy next_time then
                  (c2, [msg_result result; msg_next_target next_time])
                else
                  (c2, [msg_result result;
                        msg_game_over (Round1 (total_score (state c2)))
                          (Round1 (max_possible_score (state c2)))
                          (calculate_final_rank c2)])
            end))).
  { destruct (process_note_result pow _ _ _ _ _ (state c)) as [st [r|e]].
    - cbv zeta.
      pose proof (get_next_note_time_on_schedule start now
                    {| state := st; note_index := S (note_index c);
                       current_target_time := current_target_time c |}
                    ltac:(discriminate) Hs) as H.
      destruct (get_next_note_time now _) as [c2 t].
      destruct H as (Hs2 & _ & _ & Ht).
      destruct t as [v|]; [destruct (truthy (Some v))|]; cbn [truthy fst snd];
        (split; [exact Hs2|]); repeat constructor.
      destruct Ht as [Hlt ->]. eexists. split; [exact Hlt | reflexivity].
    - cbn [fst snd]. split; [exact Hs | constructor]. }
  destruct (action data); try contradiction; try exact Hnote.
  split; [exact Hs | constructor].
Qed.

Lemma handle_all_on_schedule start events :
  forall c,
    Forall (fun e => action (snd e) <> game_start) events ->
    on_schedule start c ->
    on_schedule start (fst (handle_all pow events c)) /\
    Forall (scheduled start) (snd (handle_all pow events c)).
Proof.
  induction events as [|[now data] rest IH]; intros c H Hs.
  - cbn. split; [exact Hs | constructor].
  - inversion H as [|? ? Ha Hrest]; subst. cbn [snd] in Ha.
    cbn [handle_all].
    destruct (receive_on_schedule start now data c Ha Hs) as [Hs1 Hm1].
    destruct (receive pow now data c) as [c1 out1]. cbn [fst snd] in Hs1, Hm1.
    destruct (IH c1 Hrest Hs1) as [Hs2 Hm2].
    destruct (handle_all pow rest c1) as [c2 out2]. cbn [fst snd] in *.
    split; [exact Hs2|]. apply Forall_app. split; assumption.
Qed.

(** X15.  From the start signal on, the target times are those of the schedule
    counted from the clock reading of the start signal: after any messages
    that follow it, the connection's target time is the one of its cursor
    (the last one once the cursor is past the end), and every [next_target]
    message sent carries a target time of that schedule, never [null]. *)
Theorem target_times_fixed_by_start_clock start data events c :
  action data = game_start ->
  Forall (fun e => action (snd e) <> game_start) events ->
  let out := handle_all pow ((start, data) :: events) c in
  current_target_time (fst out)
    = target_at start (Nat.min (note_index (fst out)) 59) /\
  Forall (scheduled start) (snd out).
Proof.
  intros Ha H. cbv zeta. cbn [handle_all].
  assert (Hstart : receive pow start data c =
            ({| state := PlayState_new; note_index := 0;
                current_target_time := target_at start 0 |},
             [msg_game_start; msg_next_target (Some (target_at start 0))])).
  { unfold receive. rewrite Ha. reflexivity. }
  rewrite Hstart.
  destruct (handle_all_on_schedule start events
              {| state := PlayState_new; note_index := 0;
                 current_target_time := target_at start 0 |} H eq_refl)
    as [Hs Hm].
  destruct (handle_all pow events _) as [c2 out2]. cbn [fst snd] in *.
  split; [exact Hs|].
  repeat constructor; [|exact Hm].
  exists 0%nat. split; [lia | reflexivity].
Qed.

(** X16.  The four replies of the handler.  A message is answered by nothing (and
    then cursor and target time are as before), by the start pair, by a
    result followed by the next target, or by a result followed by the
    game-over summary of the totals it leaves; the cursor moves on exactly
    when a result is sent; a [next_target] always carries a time, the
    connection's new target time. *)
Theorem receive_reply_shape now data c :
  let c' := fst (receive pow now data c) in
  let out := snd (receive pow now data c) in
  (out = [] /\ note_index c' = note_index c /\
   current_target_time c' = current_target_time c) \/
  (action data = game_start /\
   out = [msg_game_start; msg_next_target (Some (current_target_time c'))] /\
   note_index c' = 0%nat /\ state c' = PlayState_new) \/
  (exists r,
     out = [msg_result r; msg_next_target (Some (current_target_time c'))] /\
     note_index c' = S (note_index c) /\ (note_index c' < 60)%nat) \/
  (exists r,
     out = [msg_result r;
            msg_game_over (Round1 (total_score (state c')))
              (Round1 (max_possible_score (state c')))
              (calculate_final_rank c')] /\
     note_index c' = S (note_index c)).
Proof.
  cbv zeta. unfold receive.
  assert (Hnote :
    forall p : PlayState * result NoteResult,
    let res :=
      match p with
      | (st, Raise _) =>
          ({| state := st; note_index := note_index c;
              current_target_time := current_target_time c |}, [])
      | (st, Ok result) =>
          let c1 := {| state := st; note_index := S (note_index c);
                       current_target_time := current_target_time c |} in
          let '(c2, next_time) := get_next_note_time now c1 in
          if truthy next_time then
            (c2, [msg_result result; msg_next_target next_time])
          else
            (c2, [msg_result result;
                  msg_game_over (Round1 (total_score (state c2)))
                    (Round1 (max_possible_score (state c2)))
                    (calculate_final_rank c2)])
      end in
    (snd res = [] /\ note_index (fst res) = note_index c /\
     current_target_time (fst res) = current_target_time c) \/
    (exists r,
       snd res = [msg_result r;
                  msg_next_target (Some (current_target_time (fst res)))] /\
       note_index (fst res) = S (note_index c) /\
       (note_index (fst res) < 60)%nat) \/
    (exists r,
       snd res = [msg_result r;
                  msg_game_over (Round1 (total_score (state (fst res))))
                    (Round1 (max_possible_score (state (fst res))))
                    (calculate_final_rank (fst res))] /\
       note_index (fst res) = S (note_index c))).
  { intros [st [r|e]]; cbv zeta.
    - unfold get_next_note_time.
      change (List.length NOTE_INTERVALS) with 60%nat.
      cbn [note_index current_target_time state].
      destruct (S (note_index c) <? 60)%nat eqn:E.
      + apply Nat.ltb_lt in E.
        match goal with
        | |- context [truthy ?t] => destruct (truthy t)
        end; cbn [fst snd note_index current_target_time state].
        * right. left. eexists. repeat split. exact E.
        * right. right. eexists. repeat split.
      + cbn [truthy fst snd note_index]. right. right. eexists. repeat split.
    - left. repeat split. }
  destruct (action data) eqn:Ha.
  - right. left. repeat split.
  - specialize (Hnote (process_note_result pow (note_event_of data c)
                         TimingConfig_default SpatialConfig_default
                         ComboConfig_default FeverConfig_default (state c))).
    cbv zeta in Hnote. destruct Hnote as [H|[H|H]]; auto.
  - specialize (Hnote (process_note_result pow (note_event_of data c)
                         TimingConfig_default SpatialConfig_default
                         ComboConfig_default FeverConfig_default (state c))).
    cbv zeta in Hnote. destruct Hnote as [H|[H|H]]; auto.
  - left. repeat split.
Qed.

End HandlerFacts.

Lemma clock_read_only_at_game_start_witness :
  handle_all libm_pow_overflow
    [(1700000001%float, miss_data); (1700000002%float, hit_data)]
    consumer_waiting
  = handle_all libm_pow_overflow
      [(5%float, miss_data); (9%float, hit_data)] consumer_waiting.
Proof.
  apply clock_read_only_at_game_start; [reflexivity|].
  repeat constructor; discriminate.
Defined.

Lemma target_times_fixed_by_start_clock_witness :
  let out :=
    handle_all libm_pow_overflow
      [(5%float, start_data); (6%float, miss_data); (9%float, miss_data)]
      (fst connect) in
  note_index (fst out) = 2%nat /\
  current_target_time (fst out)
    = target_at 5 (Nat.min (note_index (fst out)) 59).
Proof.
  intros out. split; [vm_compute; reflexivity|].
  exact (proj1 (target_times_fixed_by_start_clock libm_pow_overflow 5%float
                  start_data [(6%float, miss_data); (9%float, miss_data)]
                  (fst connect) eq_refl
                  ltac:(repeat constructor; discriminate))).
Defined.

(** ** Messages that lack a field *)

Section MessageFacts.

Variable pow : float -> float -> result float.

Lemma note_event_of_incomplete data c :
  let note := note_event_of data c in
  (action data = miss \/ entry_time data = None ->
   calculate_base_score note TimingConfig_default SpatialConfig_default
     = Ok (0.0%float, MISS)) /\
  (data_min_dist data = None ->
   exists j,
     in_BAD_MISS j = true /\
     calculate_base_score note TimingConfig_default SpatialConfig_default
       = Ok (0.0%float, j)).
Proof.
  cbv zeta. unfold note_event_of, get_default. split.
  - intros [Ha|He].
    + rewrite Ha. reflexivity.
    + rewrite He. destruct (action data); reflexivity.
  - intros Hd. rewrite Hd. unfold calculate_base_score.
    cbn [actual_entry min_dist target_radius SpatialConfig_default].
    match goal with
    | |- context [Py.eq ?e (-1)] => destruct (Py.eq e (-1))
    end.
    + exists MISS. split; reflexivity.
    + exists BAD. split; reflexivity.
Qed.

Lemma receive_result now data c r rest :
  snd (receive pow now data c) = msg_result r :: rest ->
  exists st,
    process_note_result pow (note_event_of data c) TimingConfig_default
      SpatialConfig_default ComboConfig_default FeverConfig_default (state c)
    = (st, Ok r).
Proof.
  unfold receive.
  assert (Hnote :
    snd (match process_note_result pow (note_event_of data c)
                 TimingConfig_default SpatialConfig_default
                 ComboConfig_default FeverConfig_default (state c) with
         | (st, Raise _) =>
             ({| state := st; note_index := note_index c;
                 current_target_time := current_target_time c |}, [])
         | (st, Ok result) =>
             let c1 := {| state := st; note_index := S (note_index c);
                          current_target_time := current_target_time c |} in
             let '(c2, next_time) := get_next_note_time now c1 in
             if truthy next_time then
               (c2, [msg_result result; msg_next_target next_time])
             else
               (c2, [msg_result result;
                     msg_game_over (Round1 (total_score (state c2)))
                       (Round1 (max_possible_score (state c2)))
                       (calculate_final_rank c2)])
         end) = msg_result r :: rest ->
    exists st,
      process_note_result pow (note_event_of data c) TimingConfig_default
        SpatialConfig_default ComboConfig_default FeverConfig_default (state c)
      = (st, Ok r)).
  { destruct (process_note_result pow _ _ _ _ _ (state c)) as [st [r0|e]];
      [|discriminate].
    cbv zeta. destruct (get_next_note_time now _) as [c2 t].
    destruct (truthy t); cbn [snd]; intros [= -> _]; eauto. }
  destruct (action data); try exact Hnote; discriminate.
Qed.

(** X17.  A [miss] message is judged MISS whatever else it carries, and so is a
    [gesture_complete] message with no [entry_time]; a message with no
    [min_dist] is judged BAD or MISS.  In each case the record sent shows
    base score 0.0, final score 0.0 and combo 0. *)
Theorem incomplete_message_never_scores now data c r rest :
  action data = miss \/ entry_time data = None \/ data_min_dist data = None ->
  snd (receive pow now data c) = msg_result r :: rest ->
  (r_judgement r = "MISS"%string \/ r_judgement r = "BAD"%string) /\
  r_base_score r = Round1 0.0 /\ r_final_score r = Round1 0.0 /\
  r_combo r = 0 /\
  (action data = miss \/ entry_time data = None ->
   r_judgement r = "MISS"%string /\ r_debug_in r = DebugMISS).
Proof.
  intros Hinc Hout.
  destruct (receive_result _ _ _ _ _ Hout) as (st & Hrun).
  destruct (note_event_of_incomplete data c) as [Hmiss Hdist].
  cbv zeta in Hmiss, Hdist.
  assert (Hj : exists j,
    in_BAD_MISS j = true /\
    calculate_base_score (note_event_of data c) TimingConfig_default
      SpatialConfig_default = Ok (0.0%float, j)).
  { destruct Hinc as [H|[H|H]];
      [exists MISS; split; [reflexivity | apply Hmiss; auto]
      |exists MISS; split; [reflexivity | apply Hmiss; auto]
      |exact (Hdist H)]. }
  destruct Hj as (j & Hbad & Hc).
  destruct (process_note_result_record pow _ _ _ _ _ _ _ _ Hrun)
    as (b & final & j' & Hc' & Hr).
  rewrite Hc in Hc'. injection Hc' as <- <-.
  destruct (process_note_result_totals pow _ _ _ _ _ _ _ _ _ _ Hc Hrun)
    as (final' & p & Hs & Hf & Hcombo & Hcc & _).
  rewrite score_note_run, Hbad in Hs. cbn [snd] in Hs. injection Hs as <-.
  rewrite Hbad in Hcc.
  split; [|split; [|split; [|split]]].
  - rewrite Hr. cbn [r_judgement record_of].
    destruct j; try discriminate; auto.
  - rewrite Hr. reflexivity.
  - exact Hf.
  - congruence.
  - intros H. specialize (Hmiss H). rewrite Hc in Hmiss.
    injection Hmiss as ->. rewrite Hr. cbn [r_judgement r_debug_in record_of].
    split; [reflexivity|].
    assert (He : Py.eq (actual_entry (note_event_of data c)) (-1) = true).
    { unfold note_event_of, get_default. cbn [actual_entry].
      destruct H as [-> | ->]; [reflexivity|].
      destruct (action data); reflexivity. }
    unfold Py.ne. unfold Py.eq in He. rewrite He. reflexivity.
Qed.

End MessageFacts.

Lemma incomplete_message_never_scores_witness :
  snd (receive libm_pow_overflow 5%float hit_without_distance consumer_waiting)
  = [msg_result
       {| r_judgement := "BAD"; r_base_score := Round1 0.0;
          r_final_score := Round1 0.0; r_combo := 0;
          r_fever_active := false; r_fever_gauge := 0; r_fever_max := 100;
          r_fever_active_notes := 0; r_fever_duration := 10;
          r_total_score := Round1 0.0; r_rank := "F";
          r_debug_in := Fmt1f 0 |};
     msg_next_target (Some 2835%float)] /\
  r_combo
    {| r_judgement := "BAD"; r_base_score := Round1 0.0;
       r_final_score := Round1 0.0; r_combo := 0;
       r_fever_active := false; r_fever_gauge := 0; r_fever_max := 100;
       r_fever_active_notes := 0; r_fever_duration := 10;
       r_total_score := Round1 0.0; r_rank := "F";
       r_debug_in := Fmt1f 0 |} = 0.
Proof.
  assert (H : snd (receive libm_pow_overflow 5%float hit_without_distance
                     consumer_waiting)
              = [msg_result
                   {| r_judgement := "BAD"; r_base_score := Round1 0.0;
                      r_final_score := Round1 0.0; r_combo := 0;
                      r_fever_active := false; r_fever_gauge := 0;
                      r_fever_max := 100; r_fever_active_notes := 0;
                      r_fever_duration := 10; r_total_score := Round1 0.0;
                      r_rank := "F"; r_debug_in := Fmt1f 0 |};
                 msg_next_target (Some 2835%float)])
    by (vm_compute; reflexivity).
  split; [exact H|].
  exact (proj1 (proj2 (proj2 (proj2
    (incomplete_message_never_scores libm_pow_overflow 5%float
       hit_without_distance consumer_waiting _ _
       (or_intror (or_intror eq_refl)) H))))).
Defined.

(** ** The record of one note *)

Section RecordFacts.

Variable pow : float -> float -> result float.

(** X18.  The record of a processed note reports the state the note leaves
    (combo, gauge, fever credits, total) and echoes the fever configuration;
    its judgement is the one of [calculate_base_score]; and its [debug_in]
    is "MISS" exactly when the judgement is MISS, which is exactly when the
    entry time is the sentinel -1. *)
Theorem record_reports_state_after_note
    note t_cfg s_cfg c_cfg f_cfg st st' r :
  process_note_result pow note t_cfg s_cfg c_cfg f_cfg st = (st', Ok r) ->
  r_combo r = current_combo st' /\
  r_fever_gauge r = fever_gauge st' /\
  r_fever_active_notes r = fever_active_notes st' /\
  r_total_score r = Round1 (total_score st') /\
  r_fever_max r = gauge_max f_cfg /\
  r_fever_duration r = fever_duration_notes f_cfg /\
  (exists b j,
     calculate_base_score note t_cfg s_cfg = Ok (b, j) /\
     r_judgement r = Judgement_name j /\ r_base_score r = Round1 b) /\
  (r_debug_in r = DebugMISS <-> r_judgement r = "MISS"%string) /\
  (r_judgement r = "MISS"%string <-> Py.eq (actual_entry note) (-1) = true).
Proof.
  intros Hrun.
  destruct (process_note_result_record pow _ _ _ _ _ _ _ _ Hrun)
    as (b & final & j & Hc & ->).
  cbn [r_combo r_fever_gauge r_fever_active_notes r_total_score r_fever_max
       r_fever_duration r_judgement r_base_score r_debug_in record_of].
  pose proof (calculate_base_score_MISS _ _ _ _ _ Hc) as Hmiss.
  assert (Hname : Judgement_name j = "MISS"%string <-> j = MISS).
  { destruct j; split; intros H; try reflexivity; discriminate. }
  repeat split; try reflexivity.
  - exists b, j. repeat split. exact Hc.
  - unfold Py.ne. intros H. apply Hname, Hmiss. unfold Py.eq in *.
    destruct (PrimFloat.eqb (actual_entry note) (-1)); [reflexivity|].
    cbn in H. discriminate.
  - intros H. apply Hname, Hmiss in H. unfold Py.ne. unfold Py.eq in *.
    rewrite H. reflexivity.
  - intros H. apply Hmiss, Hname, H.
  - intros H. apply Hname, Hmiss, H.
Qed.

End RecordFacts.

Lemma record_reports_state_after_note_witness :
  let st' := fst (process_default libm_pow_overflow miss_note PlayState_new) in
  let r := record_of miss_note FeverConfig_default 0.0 0.0 MISS st' in
  process_default libm_pow_overflow miss_note PlayState_new = (st', Ok r) /\
  r_combo r = current_combo st'.
Proof.
  intros st' r.
  assert (H : process_default libm_pow_overflow miss_note PlayState_new
              = (st', Ok r)) by reflexivity.
  split; [exact H|].
  exact (proj1 (record_reports_state_after_note libm_pow_overflow _ _ _ _ _
                  _ _ _ H)).
Defined.

(** ** What a call that raises leaves behind *)

(** X19.  The state after a [process_note_result] call that raises, by the
    place where it raised.  When the base score could not be computed
    ([ZeroDivisionError], [OverflowError] or [TypeError] of
    [calculate_base_score]) the state is untouched.  On a note judged
    neither BAD nor MISS the only failure left is the combo power, and the
    state has the combo incremented and nothing else changed.  On a BAD or
    MISS note, either the power for the maximum failed, and the state has
    the combo reset, the gauge charged and 0.0 added to the total, or the
    [debug_in] entry of the record failed (line 209: the entry time is an
    [int] too large for a float, or no number, on a note that is off
    target), and then the state is the one of a processed note, with
    [max_possible_score] credited.  In every case the total is as before or
    has 0.0 added. *)
Theorem failed_note_state_by_cause
    pow note t_cfg s_cfg c_cfg f_cfg st st' e :
  Dyn.process_note_result pow note t_cfg s_cfg c_cfg f_cfg st
  = (st', Raise e) ->
  match Dyn.calculate_base_score note t_cfg s_cfg with
  | Raise e0 => e = e0 /\ st' = st
  | Ok (b, j) =>
      if in_BAD_MISS j then
        match int_pow_float pow (max_combo st + 1) (growth_p c_cfg) with
        | Raise e1 => e = e1 /\ st' = missed f_cfg j st
        | Ok p =>
            Dyn.debug_in note = Raise e /\
            Dyn.gt (Dyn.min_dist note) (target_radius s_cfg) = Ok true /\
            st' = credited c_cfg f_cfg (missed f_cfg j st) p
        end
      else
        int_pow_float pow (current_combo st + 1) (growth_p c_cfg) = Raise e /\
        st' = combo_up st
  end /\
  (total_score st' = total_score st \/
   total_score st' = (total_score st + 0.0)%float).
Proof.
  rewrite dyn_process_note_result_run.
  destruct (Dyn.calculate_base_score note t_cfg s_cfg) as [[b j]|e0] eqn:Hc.
  2:{ intros [= <- <-]. auto. }
  rewrite score_note_run.
  destruct (in_BAD_MISS j) eqn:Hj.
  - cbv zeta. unfold sim_combo. rewrite Hj.
    destruct (charged_keeps f_cfg j (set_current_combo 0 st))
      as (_ & Hmc & Ht & _).
    cbn [max_combo set_total_score]. rewrite Hmc.
    cbn [max_combo set_current_combo].
    assert (Htot : total_score (missed f_cfg j st)
                   = (total_score st + 0.0)%float).
    { unfold missed. cbn [total_score set_total_score]. rewrite Ht.
      reflexivity. }
    destruct (int_pow_float pow (max_combo st + 1) (growth_p c_cfg)) as [p|e1].
    + destruct (Dyn.debug_in note) as [d|e2] eqn:Hd; [discriminate|].
      intros [= <- <-]. split.
      * split; [reflexivity|]. split; [|reflexivity].
        (* the note did not reach the subtraction of line 108 *)
        unfold Dyn.calculate_base_score in Hc. unfold Dyn.debug_in in Hd.
        destruct (Dyn.eq_minus_1 (Dyn.actual_entry note)); [discriminate Hd|].
        destruct (Dyn.gt (Dyn.min_dist note) (target_radius s_cfg))
          as [[|]|]; [reflexivity| |discriminate].
        cbn [negb] in Hd.
        destruct (Dyn.sub (Dyn.actual_entry note) (Dyn.target_start note));
          discriminate.
      * right. unfold credited.
        cbn [total_score set_max_possible_score]. exact Htot.
    + intros [= <- <-]. split; [split; reflexivity|].
      right. exact Htot.
  - destruct (int_pow_float pow (current_combo st + 1) (growth_p c_cfg))
      as [p|e1] eqn:Hp.
    + intros H. exfalso. revert H.
      assert (Hdebug : exists d, Dyn.debug_in note = Ok d).
      { (* a note that is scored passed the subtraction of line 108 *)
        unfold Dyn.calculate_base_score in Hc. unfold Dyn.debug_in.
        destruct (Dyn.eq_minus_1 (Dyn.actual_entry note));
          [injection Hc as _ <-; discriminate|].
        destruct (Dyn.gt (Dyn.min_dist note) (target_radius s_cfg))
          as [[|]|]; [injection Hc as _ <-; discriminate| |discriminate].
        destruct (Dyn.sub (Dyn.actual_entry note) (Dyn.target_start note));
          [cbn; eauto | discriminate]. }
      destruct Hdebug as (d & Hd). rewrite Hd.
      destruct (0 <? fever_active_notes st); cbv zeta;
        unfold sim_combo; rewrite Hj;
        cbn [current_combo set_total_score];
        match goal with
        | |- context [charged f_cfg j ?s1] =>
            destruct (charged_keeps f_cfg j s1) as (Hcc & _);
            rewrite Hcc
        end;
        cbn [current_combo combo_up set_max_combo set_current_combo
             set_fever_active_notes];
        rewrite Hp; discriminate.
    + intros [= <- <-]. split; [split; reflexivity|].
      left. reflexivity.
Qed.

(** An off-target note whose entry time is the integer [10^400], first note
    of a session with the default configuration: it is judged BAD, the
    maximum is credited with 101.0, and line 209 raises [OverflowError]. *)
Lemma failed_note_state_by_cause_witness :
  Dyn.calculate_base_score huge_entry_off_target TimingConfig_default
    SpatialConfig_default = Ok (0.0%float, BAD) /\
  Dyn.process_note_result libm_pow_overflow huge_entry_off_target
    TimingConfig_default SpatialConfig_default ComboConfig_default
    FeverConfig_default PlayState_new
  = ({| total_score := 0.0; max_possible_score := 101.0; current_combo := 0;
        max_combo := 0; fever_gauge := 0; fever_active_notes := 0 |},
     Raise OverflowError) /\
  (total_score
     {| total_score := 0.0; max_possible_score := 101.0; current_combo := 0;
        max_combo := 0; fever_gauge := 0; fever_active_notes := 0 |}
   = total_score PlayState_new \/
   total_score
     {| total_score := 0.0; max_possible_score := 101.0; current_combo := 0;
        max_combo := 0; fever_gauge := 0; fever_active_notes := 0 |}
   = (total_score PlayState_new + 0.0)%float).
Proof.
  assert (H : Dyn.process_note_result libm_pow_overflow huge_entry_off_target
                TimingConfig_default SpatialConfig_default ComboConfig_default
                FeverConfig_default PlayState_new
              = ({| total_score := 0.0; max_possible_score := 101.0;
                    current_combo := 0; max_combo := 0; fever_gauge := 0;
                    fever_active_notes := 0 |}, Raise OverflowError))
    by (vm_compute; reflexivity).
  split; [vm_compute; reflexivity|]. split; [exact H|].
  exact (proj2 (failed_note_state_by_cause libm_pow_overflow _ _ _ _ _ _ _ _ H)).
Defined.

(** ** The bonus and the fever multiplier never lower a score *)

Section ScoreSize.

Variable pow : float -> float -> result float.
Variable c_cfg : ComboConfig.
Variable f_cfg : FeverConfig.

Hypothesis growth_positive : Py.gt (growth_a c_cfg) 0 = true.
Hypothesis growth_finite : Py.lt (growth_a c_cfg) infinity = true.
Hypothesis cap_not_negative : Py.ge (bonus_cap_multiplier c_cfg) 0 = true.
Hypothesis multiplier_not_below_1 : Py.ge (score_multiplier f_cfg) 1 = true.

Lemma leb_refl_posfin (b : float) :
  PrimFloat.ltb 0 b = true -> PrimFloat.ltb b infinity = true ->
  PrimFloat.leb b b = true.
Proof.
  intros H0 Hi. destruct (FloatFacts.posfin_shape b H0 Hi) as (m & e & E & _).
  apply (FloatFacts.leb_to_posfin b b m e E). right.
  exists m, e. split; [exact E | lia].
Qed.

Lemma bonus_total_ge_base (b p : float) :
  PrimFloat.ltb 0 b = true -> PrimFloat.ltb b infinity = true ->
  PrimFloat.leb 0 p = true ->
  PrimFloat.leb b (bonus_total c_cfg b p) = true.
Proof.
  intros H0 Hi Hp. unfold bonus_total, Py.min, Py.lt.
  unfold Py.gt, Py.lt, Py.ge in *.
  apply FloatFacts.add_ge_l; try assumption.
  - apply leb_refl_posfin; assumption.
  - apply FloatFacts.min_nonneg.
    + apply FloatFacts.mul_const_nonneg; try assumption.
      apply FloatFacts.mul_const_nonneg; assumption.
    + apply FloatFacts.mul_const_nonneg; assumption.
Qed.

(** X20.  With [0 < growth_a < inf], [bonus_cap_multiplier >= 0] and
    [score_multiplier >= 1] (the defaults are such), a processed note judged
    neither BAD nor MISS, with a positive finite base score and a
    non-negative combo power, scores at least its base score: the final
    score in the record, which is what is added to the total, is not below
    the base score. *)
Theorem scored_note_at_least_base_score
    note t_cfg s_cfg st st' r b j :
  calculate_base_score note t_cfg s_cfg = Ok (b, j) ->
  in_BAD_MISS j = false ->
  Py.gt b 0 = true -> Py.lt b infinity = true ->
  (forall p,
     int_pow_float pow (current_combo st + 1) (growth_p c_cfg) = Ok p ->
     Py.ge p 0 = true) ->
  process_note_result pow note t_cfg s_cfg c_cfg f_cfg st = (st', Ok r) ->
  exists final,
    r_final_score r = Round1 final /\
    total_score st' = (total_score st + final)%float /\
    Py.ge final b = true.
Proof.
  intros Hc Hj Hb0 Hbi Hpow Hrun.
  destruct (process_note_result_totals pow _ _ _ _ _ _ _ _ _ _ Hc Hrun)
    as (final & p' & Hs & Hf & _ & _ & _ & Htot & _).
  exists final. split; [exact Hf|]. split; [exact Htot|].
  rewrite score_note_run, Hj in Hs.
  destruct (int_pow_float pow (current_combo st + 1) (growth_p c_cfg))
    as [p|e] eqn:Hp; [|discriminate].
  specialize (Hpow p eq_refl).
  pose proof (bonus_total_ge_base b p Hb0 Hbi Hpow) as Hge.
  unfold Py.ge, Py.gt, Py.lt in *.
  destruct (0 <? fever_active_notes st); cbn [snd] in Hs; injection Hs as <-.
  - apply FloatFacts.mul_ge; assumption.
  - exact Hge.
Qed.

End ScoreSize.

Lemma scored_note_at_least_base_score_witness :
  let st' := fst (process_default libm_pow_overflow perfect_note PlayState_new) in
  calculate_base_score perfect_note TimingConfig_default SpatialConfig_default
    = Ok (100.0%float, PERFECT) /\
  exists final,
    r_final_score (record_of perfect_note FeverConfig_default 100.0 101.0
                     PERFECT st') = Round1 final /\
    total_score st' = (total_score PlayState_new + final)%float /\
    Py.ge final 100.0 = true.
Proof.
  intros st'. split; [reflexivity|].
  apply (scored_note_at_least_base_score libm_pow_overflow ComboConfig_default
           FeverConfig_default eq_refl eq_refl eq_refl eq_refl
           perfect_note TimingConfig_default SpatialConfig_default
           PlayState_new st' _ 100.0%float PERFECT
           eq_refl eq_refl eq_refl eq_refl).
  - intros p [= <-]. reflexivity.
  - reflexivity.
Defined.

(** ** The end of the schedule *)

Section ScheduleEnd.

Variable pow : float -> float -> result float.

Lemma intervals_positive_finite :
  forallb (fun i => PrimFloat.ltb 0 (i * 1000) && PrimFloat.ltb (i * 1000) infinity
                    && PrimFloat.leb (i * 1000) (i * 1000))
    NOTE_INTERVALS = true.
Proof. vm_compute. reflexivity. Qed.

Lemma target_at_positive start k :
  Py.ge start 0 = true -> (k < 60)%nat ->
  Py.gt (target_at start k) 0 = true.
Proof.
  unfold Py.ge, Py.gt. intros Hs.
  assert (Hint : forall k, (k < 60)%nat ->
    let c := (nth k NOTE_INTERVALS 0 * 1000)%float in
    PrimFloat.ltb 0 c = true /\ PrimFloat.ltb c infinity = true /\
    PrimFloat.leb c c = true).
  { intros k' Hk'. cbv zeta.
    pose proof (proj1 (forallb_forall _ _) intervals_positive_finite
                  (nth k' NOTE_INTERVALS 0%float)
                  (@nth_In float k' NOTE_INTERVALS 0%float Hk')) as H.
    cbv beta in H. apply andb_prop in H. destruct H as [H H3].
    apply andb_prop in H. destruct H as [H1 H2]. auto. }
  induction k as [|k IH]; intros Hk; cbn [target_at].
  - destruct (Hint 0%nat Hk) as (H1 & H2 & H3). cbv zeta in H1, H2, H3.
    apply FloatFacts.pos_leb_pos with (c := (nth 0 NOTE_INTERVALS 0 * 1000)%float);
      [exact H1|].
    apply FloatFacts.add_ge; try assumption.
    rewrite FloatOrder.mul_comm.
    apply FloatFacts.mul_const_nonneg; [reflexivity | reflexivity | exact Hs].
  - destruct (Hint (S k) Hk) as (H1 & H2 & H3). cbv zeta in H1, H2, H3.
    apply FloatFacts.pos_leb_pos
      with (c := (nth (S k) NOTE_INTERVALS 0 * 1000)%float); [exact H1|].
    apply FloatFacts.add_ge; try assumption.
    apply FloatFacts.pos_nonneg_leb, IH. lia.
Qed.

(** X21.  In a game started at a clock reading that is not negative, the target
    times are positive, so a processed note is answered by the next target
    exactly while the schedule has one, and by the game-over summary exactly
    when the cursor moves past the last schedule entry. *)
Theorem game_over_only_at_schedule_end start now data c st r :
  Py.ge start 0 = true ->
  on_schedule start c ->
  action data = gesture_complete \/ action data = miss ->
  process_note_result pow (note_event_of data c) TimingConfig_default
    SpatialConfig_default ComboConfig_default FeverConfig_default (state c)
  = (st, Ok r) ->
  receive pow now data c =
    if (S (note_index c) <? 60)%nat then
      ({| state := st; note_index := S (note_index c);
          current_target_time := target_at start (S (note_index c)) |},
       [msg_result r;
        msg_next_target (Some (target_at start (S (note_index c))))])
    else
      ({| state := st; note_index := S (note_index c);
          current_target_time := current_target_time c |},
       [msg_result r;
        msg_game_over (Round1 (total_score st)) (Round1 (max_possible_score st))
          (live_rank (total_score st) (max_possible_score st))]).
Proof.
  intros Hs Hon Ha Hrun.
  assert (E : receive pow now data c =
    let c1 := {| state := st; note_index := S (note_index c);
                 current_target_time := current_target_time c |} in
    let '(c2, next_time) := get_next_note_time now c1 in
    if truthy next_time then
      (c2, [msg_result r; msg_next_target next_time])
    else
      (c2, [msg_result r;
            msg_game_over (Round1 (total_score (state c2)))
              (Round1 (max_possible_score (state c2)))
              (calculate_final_rank c2)])).
  { unfold receive. destruct Ha as [-> | ->]; rewrite Hrun; reflexivity. }
  rewrite E. clear E. cbv zeta. unfold get_next_note_time.
  change (List.length NOTE_INTERVALS) with 60%nat.
  cbn [note_index current_target_time state Nat.eqb].
  destruct (S (note_index c) <? 60)%nat eqn:Hlt.
  - apply Nat.ltb_lt in Hlt.
    assert (Ht : (current_target_time c
                  + nth (S (note_index c)) NOTE_INTERVALS 0 * 1000)%float
                 = target_at start (S (note_index c))).
    { unfold on_schedule in Hon. rewrite Hon, Nat.min_l by lia. reflexivity. }
    rewrite Ht.
    pose proof (target_at_positive start (S (note_index c)) Hs Hlt) as Hpos.
    unfold truthy, Py.ne, Py.eq. unfold Py.gt in Hpos.
    rewrite (FloatFacts.pos_eqb_zero _ Hpos). reflexivity.
  - cbn [truthy state]. rewrite calculate_final_rank_live_rank. reflexivity.
Qed.

End ScheduleEnd.

Lemma game_over_only_at_schedule_end_witness :
  let c := fst (receive libm_pow_overflow 5%float start_data (fst connect)) in
  on_schedule 5 c /\
  snd (receive libm_pow_overflow 7%float miss_data c)
  = [msg_result
       (record_of (note_event_of miss_data c) FeverConfig_default 0.0 0.0 MISS
          (fst (process_default libm_pow_overflow (note_event_of miss_data c)
                  (state c))));
     msg_next_target (Some (target_at 5 1))].
Proof.
  intros c.
  assert (Hon : on_schedule 5 c) by reflexivity.
  split; [exact Hon|].
  rewrite (game_over_only_at_schedule_end libm_pow_overflow 5%float 7%float
             miss_data c
             (fst (process_default libm_pow_overflow
                     (note_event_of miss_data c) (state c)))
             (record_of (note_event_of miss_data c) FeverConfig_default
                0.0 0.0 MISS
                (fst (process_default libm_pow_overflow
                        (note_event_of miss_data c) (state c))))
             eq_refl Hon (or_intror eq_refl) eq_refl).
  reflexivity.
Defined.

(** *** Frames the loop can work on *)

Module PixelFacts.

Import Binary64.

(** An image size converts to a positive finite float. *)
Lemma float_of_int_size (n : Z) :
  1 <= n < 2 ^ 63 ->
  exists f,
    Py.float_of_int n = Ok f /\
    PrimFloat.ltb 0 f = true /\ PrimFloat.ltb f infinity = true.
Proof.
  intros Hn. set (f := of_uint63 (Uint63.of_Z n)).
  assert (Hspec : Prim2SF f = binary_normalize prec emax n 0 false).
  { unfold f. rewrite of_uint63_spec. f_equal.
    symmetry. apply Uint63.is_int.
    change (2 ^ Uint63.to_Z Uint63.digits) with (2 ^ 63). lia. }
  destruct n as [|p|p]; try lia.
  assert (Hb1 : bounded prec emax 4503599627370496 (-52) = true) by reflexivity.
  assert (Hb2 : bounded prec emax 4503599627370496 11 = true) by reflexivity.
  pose proof FloatFacts.scale_pos as Hsc.
  assert (Hge : scaled (Zpos 4503599627370496) (-52) <= scaled (Zpos p) 0).
  { rewrite FloatFacts.scaled_one. unfold scaled. rewrite Z.add_0_l. nia. }
  assert (Hle : scaled (Zpos p) 0 <= scaled (Zpos 4503599627370496) 11).
  { unfold scaled. rewrite Z.add_0_l.
    replace (2 ^ (11 + scale)) with (2 ^ 11 * 2 ^ scale)
      by (rewrite <- Z.pow_add_r; [reflexivity | lia | unfold scale; lia]).
    change (2 ^ 63) with (4503599627370496 * 2 ^ 11) in Hn. nia. }
  pose proof (FloatFacts.normalize_pos_ge p 0 _ _ ltac:(lia) Hb1 Hge) as H1.
  pose proof (FloatFacts.normalize_pos_le p 0 _ _ ltac:(lia) Hb2 Hle) as H2.
  cbv zeta in H1, H2. rewrite <- Hspec in H1, H2.
  assert (E : exists m e, Prim2SF f = S754_finite false m e).
  { destruct H1 as [E1 | (m & e & E1 & _)]; [|eauto].
    destruct H2 as [E2 | (m & e & E2 & _)]; congruence. }
  destruct E as (m & e & E).
  exists f. split; [|split].
  - unfold Py.float_of_int. rewrite <- Hspec, E, <- E.
    rewrite SF2Prim_Prim2SF. reflexivity.
  - apply FloatFacts.shape_ltb0. rewrite E. constructor.
    exact (FloatFacts.valid_finite _ _ _ _ E).
  - rewrite ltb_spec, E. reflexivity.
Qed.

(** A normalised coordinate times an image size is a pixel position
    [int] accepts. *)
Lemma int_of_scaled_coordinate (v W : float) :
  PrimFloat.leb 0 v = true -> PrimFloat.leb v 1 = true ->
  PrimFloat.ltb 0 W = true -> PrimFloat.ltb W infinity = true ->
  exists z, Ges.int (v * W) = Ges.Returns z.
Proof.
  intros Hv0 Hv1 HW0 HWi.
  destruct (FloatFacts.posfin_shape W HW0 HWi) as (mw & ew & EW & _).
  assert (Hshape : (exists s, Prim2SF (v * W) = S754_zero s) \/
                   (exists s m e, Prim2SF (v * W) = S754_finite s m e)).
  { pose proof (FloatFacts.leb0_shape v Hv0) as Hs.
    inversion Hs as [s Ev | m e Hb Ev | Ev]; symmetry in Ev.
    - left. exists (xorb s false). rewrite mul_spec, Ev, EW. reflexivity.
    - assert (Hpos : PrimFloat.ltb 0 v = true).
      { apply FloatFacts.shape_ltb0. rewrite Ev. constructor. exact Hb. }
      pose proof (FloatFacts.mul_le_const W v HW0 HWi Hpos Hv1) as Hle.
      pose proof (FloatFacts.mul_const_nonneg W v HW0 HWi Hv0) as Hge.
      rewrite FloatOrder.mul_comm.
      pose proof (FloatFacts.leb0_shape _ Hge) as Hs'.
      inversion Hs' as [s E | m' e' Hb' E | E]; symmetry in E; eauto.
      exfalso. rewrite leb_spec, E, EW in Hle. discriminate.
    - exfalso. rewrite leb_spec, Ev in Hv1. discriminate. }
  unfold Ges.int.
  destruct Hshape as [(s & ->) | (s & m & e & ->)]; eauto.
Qed.

Lemma py_min_In (first : float) rest :
  exists v, Ges.py_min (first :: rest) = Ges.Returns v /\ In v (first :: rest).
Proof.
  cbn [Ges.py_min]. eexists. split; [reflexivity|].
  revert first. induction rest as [|a rest IH]; intros first; cbn [fold_left].
  - left. reflexivity.
  - destruct (Py.lt a first);
      [destruct (IH a) as [<-|H] | destruct (IH first) as [<-|H]];
      cbn; auto.
Qed.

Lemma py_max_In (first : float) rest :
  exists v, Ges.py_max (first :: rest) = Ges.Returns v /\ In v (first :: rest).
Proof.
  cbn [Ges.py_max]. eexists. split; [reflexivity|].
  revert first. induction rest as [|a rest IH]; intros first; cbn [fold_left].
  - left. reflexivity.
  - destruct (Py.gt a first);
      [destruct (IH a) as [<-|H] | destruct (IH first) as [<-|H]];
      cbn; auto.
Qed.

(** One corner coordinate: the extreme of the coordinates, scaled to the
    image, as an [int]. *)
Lemma corner_returns (pick : list float -> Ges.outcome float)
    (coord : Ges.Landmark -> float) lm n :
  (forall first rest,
     exists v, pick (first :: rest) = Ges.Returns v /\ In v (first :: rest)) ->
  lm <> [] ->
  Forall (fun p => PrimFloat.leb 0 (coord p) = true /\
                   PrimFloat.leb (coord p) 1 = true) lm ->
  1 <= n < 2 ^ 63 ->
  exists z,
    Ges.and_then (pick (map coord lm))
      (fun v => Ges.and_then (Ges.mul_int v n) (fun p => Ges.int p))
    = Ges.Returns z.
Proof.
  intros Hpick Hne Hall Hn.
  destruct lm as [|p0 lm]; [congruence|]. cbn [map].
  destruct (Hpick (coord p0) (map coord lm)) as (v & -> & Hin).
  cbn [Ges.and_then].
  change (coord p0 :: map coord lm) with (map coord (p0 :: lm)) in Hin.
  apply in_map_iff in Hin. destruct Hin as (p & <- & Hp).
  rewrite Forall_forall in Hall. destruct (Hall p Hp) as [H0 H1].
  destruct (float_of_int_size n Hn) as (W & HW & HW0 & HWi).
  unfold Ges.mul_int. rewrite HW. cbn [Ges.and_then].
  exact (int_of_scaled_coordinate _ _ H0 H1 HW0 HWi).
Qed.

Lemma hand_bbox_px_returns lm w h :
  lm <> [] -> Forall normalised lm ->
  1 <= w < 2 ^ 63 -> 1 <= h < 2 ^ 63 ->
  exists bbox, Ges.hand_bbox_px lm w h = Ges.Returns bbox.
Proof.
  intros Hne Hall Hw Hh. unfold Ges.hand_bbox_px. cbv zeta.
  assert (Hx : Forall (fun p => PrimFloat.leb 0 (Ges.x p) = true /\
                                PrimFloat.leb (Ges.x p) 1 = true) lm).
  { eapply Forall_impl; [|exact Hall]. intros p (H1 & H2 & _). auto. }
  assert (Hy : Forall (fun p => PrimFloat.leb 0 (Ges.y p) = true /\
                                PrimFloat.leb (Ges.y p) 1 = true) lm).
  { eapply Forall_impl; [|exact Hall]. intros p (_ & _ & H1 & H2). auto. }
  destruct (corner_returns Ges.py_min Ges.x lm w py_min_In Hne Hx Hw)
    as (x1 & ->).
  destruct (corner_returns Ges.py_min Ges.y lm h py_min_In Hne Hy Hh)
    as (y1 & ->).
  destruct (corner_returns Ges.py_max Ges.x lm w py_max_In Hne Hx Hw)
    as (x2 & ->).
  destruct (corner_returns Ges.py_max Ges.y lm h py_max_In Hne Hy Hh)
    as (y2 & ->).
  cbn [Ges.and_then]. eauto.
Qed.

End PixelFacts.

Lemma stable_label_returns (q : list string) :
  exists g, Ges.stable_label q = Ges.Returns g.
Proof.
  destruct q as [|z q]; [exists "UNKNOWN"%string; reflexivity|].
  destruct (TallyFacts.stable_label_first_max z q) as (_ & best & _ & H & _).
  eauto.
Qed.

(** X22.  For a hand with at least one landmark, all normalised
    ([0 <= x, y <= 1]), and an image of [1 <= w, h < 2^63] pixels,
    [hand_bbox_px] returns a box: none of its conversions raises. *)
Theorem hand_bbox_px_returns_for_normalised_landmarks lm w h :
  lm <> [] -> Forall normalised lm ->
  1 <= w < 2 ^ 63 -> 1 <= h < 2 ^ 63 ->
  exists x y bw bh, Ges.hand_bbox_px lm w h = Ges.Returns (x, y, bw, bh).
Proof.
  intros Hne Hall Hw Hh.
  destruct (PixelFacts.hand_bbox_px_returns lm w h Hne Hall Hw Hh)
    as ([[[x y] bw] bh] & H).
  eauto.
Qed.

Lemma still_hand_normalised : Forall normalised still_hand.
Proof. repeat constructor. Qed.

Lemma hand_bbox_px_returns_for_normalised_landmarks_witness :
  exists x y bw bh,
    Ges.hand_bbox_px still_hand 640 480 = Ges.Returns (x, y, bw, bh).
Proof.
  apply hand_bbox_px_returns_for_normalised_landmarks;
    [discriminate | exact still_hand_normalised | lia | lia].
Defined.

(** X23.  The loop does not stop on an exception as long as the frames are well
    formed: sizes of at least one pixel, and for every hand found its 21
    landmarks (or more), all normalised. *)
Theorem main_loop_returns_on_well_formed_frames frames s :
  Forall well_formed frames ->
  exists s' logs, Ges.main_loop frames s = Ges.Returns (s', logs).
Proof.
  revert s. induction frames as [|fr rest IH]; intros s Hall.
  - cbn. eauto.
  - inversion Hall as [|? ? Hfr Hrest]; subst.
    assert (Hstep : exists s1 l1, Ges.frame_step fr s = Ges.Returns (s1, l1)).
    { destruct Hfr as (Hw & Hh & Hd). unfold Ges.frame_step.
      destruct (Ges.detected fr) as [|lm handedness]; [eauto|].
      destruct Hd as [Hlen Hnorm].
      pose proof (finger_up_states_landmarks lm handedness) as Hf.
      destruct (Ges._finger_up_states lm handedness) as [states|e];
        [|destruct Hf as [_ Hf]; lia].
      cbn [Ges.and_then].
      destruct (stable_label_returns
                  (Ges.append (Ges.recent s) (Ges.classify_gesture states)))
        as (g & ->).
      cbn [Ges.and_then].
      destruct (PixelFacts.hand_bbox_px_returns lm (Ges.frame_w fr)
                  (Ges.frame_h fr)) as (bbox & ->); try assumption.
      { intros ->. cbn in Hlen. lia. }
      cbn [Ges.and_then].
      destruct (_ && _); eauto. }
    destruct Hstep as (s1 & l1 & Hstep).
    destruct (IH s1 Hrest) as (s2 & l2 & Hrun).
    cbn [Ges.main_loop]. rewrite Hstep. cbn [Ges.and_then fst snd].
    rewrite Hrun. cbn [Ges.and_then fst snd]. eauto.
Qed.

Lemma main_loop_returns_on_well_formed_frames_witness :
  exists s' logs,
    Ges.main_loop [fist_frame; fist_frame] Ges.Loop_new = Ges.Returns (s', logs).
Proof.
  apply main_loop_returns_on_well_formed_frames.
  repeat constructor; cbn; try lia; try discriminate.
Defined.

(** *** Left and right hands *)

Lemma ltb_opp (a b : float) :
  PrimFloat.ltb (- a) (- b) = PrimFloat.ltb b a.
Proof.
  rewrite !ltb_spec, !FloatAxioms.opp_spec. unfold SFltb.
  destruct (Prim2SF a) as [sa|sa| |sa ma ea], (Prim2SF b) as [sb|sb| |sb mb eb];
    try destruct sa; try destruct sb; try reflexivity; cbn [SFopp negb SFcompare];
    rewrite (Z.compare_antisym ea eb);
    destruct (ea ?= eb); cbn [CompOpp]; try reflexivity;
    change (Pos.compare_cont Eq mb ma) with (Pos.compare mb ma);
    change (Pos.compare_cont Eq ma mb) with (Pos.compare ma mb);
    rewrite (Pos.compare_antisym ma mb);
    destruct (ma ?= mb)%positive; reflexivity.
Qed.

Lemma item_mirrored lm i :
  Ges.item (map mirrored lm) i =
    match Ges.item lm i with
    | Ges.Returns p => Ges.Returns (mirrored p)
    | Ges.Raises e => Ges.Raises e
    end.
Proof.
  unfold Ges.item. rewrite nth_error_map.
  destruct (nth_error lm i); reflexivity.
Qed.

(** X24.  The recogniser treats a left hand as the mirror image of a right hand:
    the finger states, and so the gesture, of the reflected landmarks read
    as a left hand are those of the landmarks read as a right hand, and the
    other way round.  Every label other than "Right" is read as a left
    hand. *)
Theorem left_hand_is_mirrored_right_hand lm label :
  Ges._finger_up_states (map mirrored lm) "Left"
    = Ges._finger_up_states lm "Right" /\
  Ges._finger_up_states (map mirrored lm) "Right"
    = Ges._finger_up_states lm "Left" /\
  (String.eqb label "Right" = false ->
   Ges._finger_up_states lm label = Ges._finger_up_states lm "Left").
Proof.
  unfold Ges._finger_up_states. cbv zeta. rewrite !item_mirrored.
  repeat split.
  - repeat match goal with
    | |- context [Ges.item lm ?i] => destruct (Ges.item lm i)
    end; cbn [Ges.and_then]; try reflexivity.
    cbn [String.eqb Ascii.eqb Bool.eqb mirrored Ges.x Ges.y].
    unfold Py.gt, Py.lt. rewrite ltb_opp. reflexivity.
  - repeat match goal with
    | |- context [Ges.item lm ?i] => destruct (Ges.item lm i)
    end; cbn [Ges.and_then]; try reflexivity.
    cbn [String.eqb Ascii.eqb Bool.eqb mirrored Ges.x Ges.y].
    unfold Py.gt, Py.lt. rewrite ltb_opp. reflexivity.
  - intros ->. reflexivity.
Qed.

(** ** The session handler on dynamic values *)

Section DynHandlerFacts.

Variable pow : float -> float -> result float.

(** The engine reads the entry time through [== -1] and [- target_start],
    and the distance through [> target_radius], and only when the entry
    time is not the sentinel. *)
Lemma dyn_process_note_result_ext n1 n2 t_cfg s_cfg c_cfg f_cfg st :
  Dyn.target_start n1 = Dyn.target_start n2 ->
  Dyn.eq_minus_1 (Dyn.actual_entry n1) = Dyn.eq_minus_1 (Dyn.actual_entry n2) ->
  (Dyn.eq_minus_1 (Dyn.actual_entry n1) = false ->
   Dyn.sub (Dyn.actual_entry n1) (Dyn.target_start n1)
   = Dyn.sub (Dyn.actual_entry n2) (Dyn.target_start n2) /\
   Dyn.gt (Dyn.min_dist n1) (target_radius s_cfg)
   = Dyn.gt (Dyn.min_dist n2) (target_radius s_cfg)) ->
  Dyn.process_note_result pow n1 t_cfg s_cfg c_cfg f_cfg st
  = Dyn.process_note_result pow n2 t_cfg s_cfg c_cfg f_cfg st.
Proof.
  intros Ht He Hrest.
  assert (Hc : Dyn.calculate_base_score n1 t_cfg s_cfg
               = Dyn.calculate_base_score n2 t_cfg s_cfg).
  { unfold Dyn.calculate_base_score. rewrite <- He.
    destruct (Dyn.eq_minus_1 (Dyn.actual_entry n1)); [reflexivity|].
    destruct (Hrest eq_refl) as (<- & <-). reflexivity. }
  assert (Hd : Dyn.debug_in n1 = Dyn.debug_in n2).
  { unfold Dyn.debug_in. rewrite <- He.
    destruct (Dyn.eq_minus_1 (Dyn.actual_entry n1)); [reflexivity|].
    destruct (Hrest eq_refl) as (<- & _). reflexivity. }
  rewrite !dyn_process_note_result_run, Hc, Hd. reflexivity.
Qed.

(** On a message whose fields are floats or absent, the handler is the
    float-typed handler: the [int] defaults [-1] and [9999] are read as the
    floats [-1.0] and [9999.0] are. *)
Lemma dyn_receive_of_data now data c :
  Dyn.receive pow now (of_data data) c = receive pow now data c.
Proof.
  assert (H : Dyn.process_note_result pow (Dyn.note_event_of (of_data data) c)
                TimingConfig_default SpatialConfig_default ComboConfig_default
                FeverConfig_default (state c)
              = process_note_result pow (note_event_of data c)
                  TimingConfig_default SpatialConfig_default
                  ComboConfig_default FeverConfig_default (state c)).
  { rewrite <- dyn_process_note_result_of_note.
    apply dyn_process_note_result_ext.
    - reflexivity.
    - unfold Dyn.note_event_of, note_event_of, of_note, of_data.
      cbn [Dyn.actual_entry Dyn.action Dyn.entry_time actual_entry].
      destruct (action data), (entry_time data); reflexivity.
    - unfold Dyn.note_event_of, note_event_of, of_note, of_data.
      cbn [Dyn.actual_entry Dyn.action Dyn.entry_time Dyn.data_min_dist
           Dyn.min_dist Dyn.target_start actual_entry min_dist target_start].
      intros _. split.
      + destruct (action data), (entry_time data); reflexivity.
      + destruct (data_min_dist data); reflexivity. }
  unfold Dyn.receive, receive. rewrite H.
  unfold of_data. cbn [Dyn.action]. reflexivity.
Qed.

End DynHandlerFacts.

(** X25.  A [gesture_complete] message whose [entry_time] is an integer too
    large for a float stalls the session: whatever the engine did, the
    handler sends nothing (no result, no next target, no game over) and
    leaves the schedule cursor and the target time where they were.  When
    the distance is within the target radius the state is untouched (the
    subtraction of line 108 raised).  When the distance is absent or beyond
    the radius the note has been judged BAD before line 209 raised: the
    combo is reset, the gauge charged, and, unless the power for the maximum
    failed first, [max_possible_score] is credited. *)
Theorem oversized_entry_time_sends_nothing pow now data c n :
  Dyn.action data = gesture_complete ->
  Dyn.entry_time data = Some (Dyn.PyInt n) ->
  Py.float_of_int n = Raise OverflowError ->
  let c' := fst (Dyn.receive pow now data c) in
  snd (Dyn.receive pow now data c) = [] /\
  note_index c' = note_index c /\
  current_target_time c' = current_target_time c /\
  match Dyn.gt (Dyn.get_default (Dyn.data_min_dist data) (Dyn.PyInt 9999))
          (target_radius SpatialConfig_default) with
  | Ok true =>
      match int_pow_float pow (max_combo (state c) + 1)
              (growth_p ComboConfig_default) with
      | Ok p =>
          state c' = credited ComboConfig_default FeverConfig_default
                       (missed FeverConfig_default BAD (state c)) p
      | Raise _ => state c' = missed FeverConfig_default BAD (state c)
      end
  | _ => state c' = state c
  end.
Proof.
  intros Ha He Hover. cbv zeta.
  unfold Dyn.receive. rewrite Ha.
  rewrite dyn_process_note_result_run.
  assert (Hentry : Dyn.actual_entry (Dyn.note_event_of data c) = Dyn.PyInt n).
  { unfold Dyn.note_event_of. rewrite Ha, He. reflexivity. }
  assert (Hdist : Dyn.min_dist (Dyn.note_event_of data c)
                  = Dyn.get_default (Dyn.data_min_dist data) (Dyn.PyInt 9999))
    by reflexivity.
  assert (Hsub : Dyn.sub (Dyn.PyInt n)
                   (Dyn.target_start (Dyn.note_event_of data c))
                 = Raise OverflowError).
  { cbn [Dyn.sub]. rewrite Hover. reflexivity. }
  assert (Hd : Dyn.debug_in (Dyn.note_event_of data c) = Raise OverflowError).
  { unfold Dyn.debug_in. rewrite Hentry. cbn [Dyn.eq_minus_1].
    rewrite (huge_int_is_not_sentinel n _ Hover). cbn [negb].
    rewrite Hsub. reflexivity. }
  unfold Dyn.calculate_base_score. rewrite Hentry, Hdist, Hd.
  cbn [Dyn.eq_minus_1]. rewrite (huge_int_is_not_sentinel n _ Hover).
  destruct (Dyn.gt _ (target_radius SpatialConfig_default)) as [[|]|e].
  - rewrite score_note_run. cbn [in_BAD_MISS]. cbv zeta.
    unfold sim_combo. cbn [in_BAD_MISS].
    destruct (charged_keeps FeverConfig_default BAD
                (set_current_combo 0 (state c))) as (_ & Hmc & _).
    cbn [max_combo set_total_score]. rewrite Hmc.
    cbn [max_combo set_current_combo].
    destruct (int_pow_float pow (max_combo (state c) + 1)
                (growth_p ComboConfig_default)); cbn; auto.
  - rewrite Hsub. cbn. auto.
  - cbn. auto.
Qed.

(** The first message of a fresh connection is a hit whose entry time is
    the integer [10^400], without a distance: nothing is sent, and the
    state has [max_possible_score = 101.0]. *)
Lemma oversized_entry_time_sends_nothing_witness :
  Dyn.receive libm_pow_overflow 5 huge_entry_data (fst connect)
  = ({| state := {| total_score := 0.0; max_possible_score := 101.0;
                    current_combo := 0; max_combo := 0; fever_gauge := 0;
                    fever_active_notes := 0 |};
        note_index := 0; current_target_time := 0.0 |}, []) /\
  snd (Dyn.receive libm_pow_overflow 5 huge_entry_data (fst connect)) = [] /\
  note_index (fst (Dyn.receive libm_pow_overflow 5 huge_entry_data
                     (fst connect))) = note_index (fst connect).
Proof.
  split; [vm_compute; reflexivity|].
  pose proof (oversized_entry_time_sends_nothing libm_pow_overflow 5
                huge_entry_data (fst connect) (10 ^ 400) eq_refl eq_refl
                ltac:(vm_compute; reflexivity)) as H.
  exact (conj (proj1 H) (proj1 (proj2 H))).
Defined.
